(** * RF outdoor link planner: the Fresnel-zone pipeline of [app.js]

    A shallow embedding of the planner's state, of its event handlers and of
    the transform that turns a selected link into the attributes of the SVG
    ellipse, followed by the properties the specification states about them.

    JavaScript numbers are IEEE 754 binary64 values.  The code is embedded
    once, over an interface [JsNumber] of the operations it uses, and read
    in two number systems:
    - [F64]: Rocq's primitive binary64 floats, which compute what the
      JavaScript engine computes, special values (NaN, the infinities and
      the signed zeros) included;
    - [Exact]: the real numbers, in which the algebraic laws the
      specification states about positive real quantities are proved.

    What the specification says about the sign and the order of the
    Fresnel radius is proved on binary64 itself: [SpecFloat]'s rounding is
    read on the real line ([loc_at], [val]), multiplication, division and
    square root are shown monotone, and a change of the exponent is shown
    to go through them in the normal range.

    Leaflet (the projection, the pixel origin, the two [distanceTo]
    methods) and the implementation-approximated [Math] functions are not
    part of the repository: they are parameters of the embedding. *)

From Stdlib Require Import Floats ZArith NArith Bool Reals Lra Lia List String.
From Stdlib Require Import DecimalString DecimalN.
Import ListNotations.

Set Implicit Arguments.

(** ** Numbers *)

(** The operations of the JavaScript number type that [app.js] uses.
    [lit] reads an integer literal, [rem] is the [%] operator, [eqb] is
    [===] on numbers, [ltb 0 x] is [x > 0]. *)
Class JsNumber (num : Type) := {
  lit : Z -> num;
  add : num -> num -> num;
  sub : num -> num -> num;
  mul : num -> num -> num;
  div : num -> num -> num;
  rem : num -> num -> num;
  sqrt : num -> num;
  leb : num -> num -> bool;
  ltb : num -> num -> bool;
  eqb : num -> num -> bool;
  isNaN : num -> bool
}.

Declare Scope js_scope.
Delimit Scope js_scope with js.
Notation "x + y" := (add x y) : js_scope.
Notation "x - y" := (sub x y) : js_scope.
Notation "x * y" := (mul x y) : js_scope.
Notation "x / y" := (div x y) : js_scope.
Notation "x 'mod' y" := (rem x y) : js_scope.
Notation "x <=? y" := (leb x y) : js_scope.
Notation "x <? y" := (ltb x y) : js_scope.
Notation "x =? y" := (eqb x y) : js_scope.

(** The [Math] object: [Math.PI] and the three functions whose precision
    ECMAScript leaves to the implementation. *)
Class MathLib (num : Type) := {
  Math_PI : num;
  Math_sin : num -> num;
  Math_cos : num -> num;
  Math_atan2 : num -> num -> num
}.

(** *** binary64 *)

Module F64.

(** An integer literal; exact below 2^53. *)
Definition of_Z (z : Z) : float :=
  match z with
  | Z0 => PrimFloat.zero
  | Zpos _ => PrimFloat.of_uint63 (Uint63.of_Z z)
  | Zneg p => PrimFloat.opp (PrimFloat.of_uint63 (Uint63.of_Z (Zpos p)))
  end.

(** The remainder of ECMAScript's [%] (C's [fmod]): the sign of the
    dividend, computed exactly on the two mantissas brought to a common
    exponent. *)
Definition SFrem (x y : spec_float) : spec_float :=
  match x, y with
  | S754_nan, _ | _, S754_nan => S754_nan
  | S754_infinity _, _ => S754_nan
  | _, S754_zero _ => S754_nan
  | S754_zero _, _ => x
  | S754_finite _ _ _, S754_infinity _ => x
  | S754_finite sx mx ex, S754_finite _ my ey =>
      let e := Z.min ex ey in
      let r := Z.modulo (Z.pos mx * 2 ^ (ex - e)) (Z.pos my * 2 ^ (ey - e)) in
      match r with
      | Z0 => S754_zero sx
      | _ => binary_normalize prec emax (if sx then Z.opp r else r) e sx
      end
  end.

Definition frem (x y : float) : float :=
  SF2Prim (SFrem (Prim2SF x) (Prim2SF y)).

#[global] Instance number : JsNumber float := {
  lit := of_Z;
  add := PrimFloat.add;
  sub := PrimFloat.sub;
  mul := PrimFloat.mul;
  div := PrimFloat.div;
  rem := frem;
  sqrt := PrimFloat.sqrt;
  leb := PrimFloat.leb;
  ltb := PrimFloat.ltb;
  eqb := PrimFloat.eqb;
  isNaN := PrimFloat.is_nan
}.

End F64.

(** *** Exact arithmetic *)

Module Exact.

(** Rounding towards zero, as [%] truncates its quotient. *)
Definition Rtrunc (r : R) : Z :=
  if Rle_dec 0 r then Int_part r else (- Int_part (- r))%Z.

Definition Rrem (x y : R) : R := (x - y * IZR (Rtrunc (x / y)))%R.

(** The angle of the point [(x, y)], in (-PI, PI], with
    [atan2 0 0 = 0] as ECMAScript has it. *)
Definition atan2 (y x : R) : R :=
  if Rlt_dec 0 x then atan (y / x)
  else if Rlt_dec x 0 then
    if Rle_dec 0 y then (atan (y / x) + PI)%R else (atan (y / x) - PI)%R
  else if Rlt_dec 0 y then (PI / 2)%R
  else if Rlt_dec y 0 then (- PI / 2)%R
  else 0%R.

#[global] Instance number : JsNumber R := {
  lit := IZR;
  add := Rplus;
  sub := Rminus;
  mul := Rmult;
  div := Rdiv;
  rem := Rrem;
  sqrt := R_sqrt.sqrt;
  leb := fun x y => if Rle_dec x y then true else false;
  ltb := fun x y => if Rlt_dec x y then true else false;
  eqb := fun x y => if Req_dec_T x y then true else false;
  isNaN := fun _ => false
}.

#[global] Instance math : MathLib R := {
  Math_PI := PI;
  Math_sin := sin;
  Math_cos := cos;
  Math_atan2 := atan2
}.

End Exact.

(** ** The Fresnel radius *)

Section Fresnel.

Context {num : Type} `{JsNumber num}.
Local Open Scope js_scope.

(** [const SPEED_OF_LIGHT = 3e8;] *)
Definition SPEED_OF_LIGHT : num := lit 300000000.

(** [function calculateMaxFresnelRadius(frequencyHz, distanceMeters)] *)
Definition calculateMaxFresnelRadius (frequencyHz distanceMeters : num) : num :=
  if (frequencyHz <=? lit 0) || (distanceMeters <=? lit 0) then lit 0
  else
    let wavelength := SPEED_OF_LIGHT / frequencyHz in
    let rSquared := (wavelength * distanceMeters) / lit 4 in
    sqrt rSquared.

End Fresnel.

(** ** The planner's data *)

(** A Leaflet [LatLng] (also the [[lat, lng]] array a tower stores) and a
    Leaflet pixel [Point]. *)
Record LatLng (num : Type) := { lat : num; lng : num }.
Record Point (num : Type) := { pt_x : num; pt_y : num }.

(** Leaflet as the planner sees it: the great-circle [LatLng.distanceTo]
    and the pixel [Point.distanceTo]. *)
Class Leaflet (num : Type) := {
  LatLng_distanceTo : LatLng num -> LatLng num -> num;
  Point_distanceTo : Point num -> Point num -> num
}.

(** The part of the map object that changes with every pan and zoom:
    [map.latLngToLayerPoint] and [map.getPixelOrigin()]. *)
Record MapView (num : Type) := {
  latLngToLayerPoint : LatLng num -> Point num;
  getPixelOrigin : Point num
}.

(** A tower object; [borderColor] is the inline style of its marker
    element. *)
Record Tower (num : Type) := {
  tower_id : string;
  latlng : LatLng num;
  frequencyGHz : num;
  borderColor : string
}.

(** A link object; [className] is the style class of its polyline. *)
Record Link := {
  link_id : string;
  towerAId : string;
  towerBId : string;
  className : string
}.

(** The value of the ellipse's [transform] attribute,
    [rotate(angle, about_x, about_y)]. *)
Record Rotate (num : Type) := { angle : num; about_x : num; about_y : num }.

(** The attributes [drawFresnelZone] sets on the element
    [#fresnel-ellipse]. *)
Record Ellipse (num : Type) := {
  cx : num;
  cy : num;
  rx : num;
  ry : num;
  transform : Rotate num
}.

(** The element [#fresnel-svg-overlay]: the ellipses appended to it and
    its [style.display]. *)
Record Overlay (num : Type) := {
  shapes : list (Ellipse num);
  display : string
}.

(** [linkPlanner], the map's view and the overlay's part of the document.
    Objects are only ever pushed onto [towers] and [links], so the position
    of an object in its array stands for the reference to it:
    [selectedLink] holds the position of the selected link object. *)
Record State (num : Type) := {
  towers : list (Tower num);
  links : list Link;
  activeLinkPhase : option string;
  selectedLink : option nat;
  nextId : N;
  view : MapView num;
  svgOverlay : option (Overlay num)
}.

(** How a handler ends: normally, by a [TypeError] (a property read on
    [undefined]), or not at all because the object the event is attached to
    does not exist. *)
Inductive outcome (A : Type) : Type :=
| Done (a : A)
| TypeError
| NoTarget.
Arguments TypeError {A}.
Arguments NoTarget {A}.

(** What the user does. [TowerClick i answer]: a click on the [i]-th tower,
    [answer] being [parseFloat] of the text typed in the prompt, [None]
    when the prompt is cancelled. [MoveEnd v]: a pan or zoom has settled
    with the view [v]. *)
Inductive event (num : Type) : Type :=
| MapClick (latlng : LatLng num)
| TowerClick (i : nat) (answer : option num)
| LinkClick (j : nat)
| MoveEnd (v : MapView num).
Arguments LinkClick {num} j.

(** ** Arrays *)

Section Arrays.

Context {A : Type}.

(** [Array.prototype.find], with the position of the element found. *)
Fixpoint find_from (p : A -> bool) (l : list A) (i : nat) : option (nat * A) :=
  match l with
  | [] => None
  | a :: l' => if p a then Some (i, a) else find_from p l' (S i)
  end.

Definition find_ref (p : A -> bool) (l : list A) : option (nat * A) :=
  find_from p l 0.

(** A write through the reference at position [i]. *)
Fixpoint update (i : nat) (f : A -> A) (l : list A) : list A :=
  match l, i with
  | [], _ => []
  | a :: l', O => f a :: l'
  | a :: l', S i' => a :: update i' f l'
  end.

End Arrays.

(** ** The handlers *)

Section Planner.

Context {num : Type} `{JsNumber num} `{MathLib num} `{Leaflet num}.
Local Open Scope js_scope.

(** [`T${n}`] and [`L${n}`]. *)
Definition template (prefix : string) (n : N) : string :=
  (prefix ++ NilEmpty.string_of_uint (N.to_uint n))%string.

(** The literal [5.8]: the double nearest to 58/10. *)
Definition defaultFreq : num := lit 58 / lit 10.

Definition set_frequencyGHz (f : num) (t : Tower num) : Tower num :=
  {| tower_id := tower_id t; latlng := latlng t; frequencyGHz := f;
     borderColor := borderColor t |}.

Definition set_borderColor (c : string) (t : Tower num) : Tower num :=
  {| tower_id := tower_id t; latlng := latlng t;
     frequencyGHz := frequencyGHz t; borderColor := c |}.

Definition set_className (c : string) (l : Link) : Link :=
  {| link_id := link_id l; towerAId := towerAId l; towerBId := towerBId l;
     className := c |}.

Definition with_towers (ts : list (Tower num)) (s : State num) : State num :=
  {| towers := ts; links := links s; activeLinkPhase := activeLinkPhase s;
     selectedLink := selectedLink s; nextId := nextId s; view := view s;
     svgOverlay := svgOverlay s |}.

Definition with_links (ls : list Link) (s : State num) : State num :=
  {| towers := towers s; links := ls; activeLinkPhase := activeLinkPhase s;
     selectedLink := selectedLink s; nextId := nextId s; view := view s;
     svgOverlay := svgOverlay s |}.

Definition with_activeLinkPhase (p : option string) (s : State num) : State num :=
  {| towers := towers s; links := links s; activeLinkPhase := p;
     selectedLink := selectedLink s; nextId := nextId s; view := view s;
     svgOverlay := svgOverlay s |}.

Definition with_selectedLink (l : option nat) (s : State num) : State num :=
  {| towers := towers s; links := links s;
     activeLinkPhase := activeLinkPhase s; selectedLink := l;
     nextId := nextId s; view := view s; svgOverlay := svgOverlay s |}.

Definition with_nextId (n : N) (s : State num) : State num :=
  {| towers := towers s; links := links s;
     activeLinkPhase := activeLinkPhase s; selectedLink := selectedLink s;
     nextId := n; view := view s; svgOverlay := svgOverlay s |}.

Definition with_view (v : MapView num) (s : State num) : State num :=
  {| towers := towers s; links := links s;
     activeLinkPhase := activeLinkPhase s; selectedLink := selectedLink s;
     nextId := nextId s; view := v; svgOverlay := svgOverlay s |}.

Definition with_svgOverlay (o : option (Overlay num)) (s : State num) : State num :=
  {| towers := towers s; links := links s;
     activeLinkPhase := activeLinkPhase s; selectedLink := selectedLink s;
     nextId := nextId s; view := view s; svgOverlay := o |}.

(** [linkPlanner.towers.find(t => t.id === id)] *)
Definition find_tower (id : string) (s : State num) : option (nat * Tower num) :=
  find_ref (fun t => String.eqb (tower_id t) id) (towers s).

(** [function addTower(latlng)] *)
Definition addTower (ll : LatLng num) (s : State num) : State num :=
  let id := template "T" (nextId s) in
  let s := with_nextId (N.succ (nextId s)) s in
  let newTower :=
    {| tower_id := id; latlng := ll; frequencyGHz := defaultFreq;
       borderColor := "" |} in
  with_towers (towers s ++ [newTower]) s.

(** [function createLink(towerA, towerB)] *)
Definition createLink (towerA towerB : Tower num) (s : State num) : State num :=
  let id := template "L" (nextId s) in
  let s := with_nextId (N.succ (nextId s)) s in
  let newLink :=
    {| link_id := id; towerAId := tower_id towerA;
       towerBId := tower_id towerB; className := "leaflet-link-line" |} in
  with_links (links s ++ [newLink]) s.

(** Step 1 of [handleTowerClick]: the frequency typed in the prompt is
    stored when it is a number above zero. *)
Definition editFrequency (i : nat) (answer : option num) (s : State num) : State num :=
  match answer with
  | Some freq =>
      if negb (isNaN freq) && (lit 0 <? freq)
      then with_towers (update i (set_frequencyGHz freq) (towers s)) s
      else s
  | None => s
  end.

(** [function handleTowerClick(tower)], [tower] being the [i]-th tower. *)
Definition handleTowerClick (i : nat) (answer : option num) (s : State num)
  : outcome (State num) :=
  let s := editFrequency i answer s in
  match nth_error (towers s) i with
  | None => NoTarget
  | Some tower =>
      match activeLinkPhase s with
      | None =>
          Done (with_activeLinkPhase (Some (tower_id tower))
                  (with_towers (update i (set_borderColor "yellow") (towers s)) s))
      | Some first =>
          if String.eqb first (tower_id tower) then
            Done (with_activeLinkPhase None
                    (with_towers (update i (set_borderColor "white") (towers s)) s))
          else
            match find_tower first s with
            | None => TypeError
            | Some (a, towerA) =>
                let towerB := tower in
                let s :=
                  if frequencyGHz towerA =? frequencyGHz towerB
                  then createLink towerA towerB s
                  else s in
                Done (with_activeLinkPhase None
                        (with_towers
                           (update a (set_borderColor "white") (towers s)) s))
            end
      end
  end.

(** The bearing of [drawFresnelZone]: north is 0 degrees, east is 90. *)
Definition toRad (deg : num) : num := deg * Math_PI / lit 180.

Definition bearing (latlngA latlngB : LatLng num) : num :=
  let dLon := toRad (lng latlngB - lng latlngA) in
  let latA := toRad (lat latlngA) in
  let latB := toRad (lat latlngB) in
  let y := Math_sin dLon * Math_cos latB in
  let x := Math_cos latA * Math_sin latB
           - Math_sin latA * Math_cos latB * Math_cos dLon in
  let bearingDeg := Math_atan2 y x * lit 180 / Math_PI in
  (bearingDeg + lit 360) mod lit 360.

(** [centerLatlng] of [drawFresnelZone]. *)
Definition centerLatlng (latlngA latlngB : LatLng num) : LatLng num :=
  {| lat := (lat latlngA + lat latlngB) / lit 2;
     lng := (lng latlngA + lng latlngB) / lit 2 |}.

(** The attributes [drawFresnelZone] computes for the towers [towerA] and
    [towerB] under the view [v]. *)
Definition fresnelEllipse (v : MapView num) (towerA towerB : Tower num) : Ellipse num :=
  let latlngA := latlng towerA in
  let latlngB := latlng towerB in
  let distanceMeters := LatLng_distanceTo latlngA latlngB in
  let frequencyHz := frequencyGHz towerA * lit 1000000000 in
  let maxFresnelRadiusMeters := calculateMaxFresnelRadius frequencyHz distanceMeters in
  let bearingDeg := bearing latlngA latlngB in
  let centerPoint := latLngToLayerPoint v (centerLatlng latlngA latlngB) in
  let pA := latLngToLayerPoint v latlngA in
  let pB := latLngToLayerPoint v latlngB in
  let mapPaneOffset := getPixelOrigin v in
  let cx := pt_x centerPoint - pt_x mapPaneOffset in
  let cy := pt_y centerPoint - pt_y mapPaneOffset in
  let lengthPixels := Point_distanceTo pA pB in
  let metersPerPixel := distanceMeters / lengthPixels in
  let rMaxPixels := maxFresnelRadiusMeters / metersPerPixel in
  {| cx := cx; cy := cy;
     rx := lengthPixels / lit 2;
     ry := rMaxPixels;
     transform := {| angle := bearingDeg - lit 90; about_x := cx; about_y := cy |} |}.

(** Step 3 of [drawFresnelZone] on the document: the overlay and the
    ellipse are looked up by their ids and created when absent; the
    attributes are written to the ellipse found, which is the first one;
    the overlay is displayed. *)
Definition renderEllipse (e : Ellipse num) (o : option (Overlay num)) : Overlay num :=
  let svgOverlay :=
    match o with
    | Some svgOverlay => svgOverlay
    | None => {| shapes := []; display := "" |}
    end in
  let shapes :=
    match shapes svgOverlay with
    | [] => [e]
    | _ :: others => e :: others
    end in
  {| shapes := shapes; display := "block" |}.

(** [function drawFresnelZone(link)] *)
Definition drawFresnelZone (link : Link) (s : State num) : outcome (State num) :=
  match find_tower (towerAId link) s, find_tower (towerBId link) s with
  | Some (_, towerA), Some (_, towerB) =>
      Done (with_svgOverlay
              (Some (renderEllipse (fresnelEllipse (view s) towerA towerB)
                       (svgOverlay s))) s)
  | _, _ => Done s
  end.

(** [function handleLinkClick(link, event)], [link] being the [j]-th
    link. *)
Definition handleLinkClick (j : nat) (s : State num) : outcome (State num) :=
  match nth_error (links s) j with
  | None => NoTarget
  | Some link =>
      let s :=
        match selectedLink s with
        | Some k => with_links (update k (set_className "leaflet-link-line") (links s)) s
        | None => s
        end in
      let s := with_selectedLink (Some j) s in
      let s := with_links (update j (set_className "leaflet-link-line-selected") (links s)) s in
      drawFresnelZone link s
  end.

(** [map.on('click', ...)] *)
Definition handleMapClick (ll : LatLng num) (s : State num) : outcome (State num) :=
  match activeLinkPhase s with
  | None => Done (addTower ll s)
  | Some first =>
      let s :=
        match find_tower first s with
        | Some (a, _) => with_towers (update a (set_borderColor "white") (towers s)) s
        | None => s
        end in
      Done (with_activeLinkPhase None s)
  end.

(** [map.on('moveend', ...)], the map having moved to the view [v]. *)
Definition handleMoveEnd (v : MapView num) (s : State num) : outcome (State num) :=
  let s := with_view v s in
  match selectedLink s with
  | Some k =>
      match nth_error (links s) k with
      | Some link => drawFresnelZone link s
      | None => NoTarget
      end
  | None => Done s
  end.

(** One event, and a sequence of events; the first handler that does not
    return ends the run. *)
Definition step (s : State num) (e : event num) : outcome (State num) :=
  match e with
  | MapClick ll => handleMapClick ll s
  | TowerClick i answer => handleTowerClick i answer s
  | LinkClick j => handleLinkClick j s
  | MoveEnd v => handleMoveEnd v s
  end.

Fixpoint run (s : State num) (es : list (event num)) : outcome (State num) :=
  match es with
  | [] => Done s
  | e :: es' =>
      match step s e with
      | Done s' => run s' es'
      | TypeError => TypeError
      | NoTarget => NoTarget
      end
  end.

(** The page as loaded: [linkPlanner] as declared, no overlay yet. *)
Definition initial (v : MapView num) : State num :=
  {| towers := []; links := []; activeLinkPhase := None;
     selectedLink := None; nextId := 1; view := v; svgOverlay := None |}.

(** The ellipses in the document, and whether one is displayed. *)
Definition ellipses (s : State num) : list (Ellipse num) :=
  match svgOverlay s with
  | Some o => shapes o
  | None => []
  end.

Definition ellipseShown (s : State num) : bool :=
  match svgOverlay s with
  | Some o => String.eqb (display o) "block" && negb (Nat.eqb (List.length (shapes o)) 0)
  | None => false
  end.

End Planner.

(** ** Reading decimals *)

(** The double nearest to [m / 10^k], for the decimal constants of the
    statements below. *)
Definition decimal (m : Z) (k : Z) : float :=
  PrimFloat.div (F64.of_Z m) (F64.of_Z (10 ^ k)).

(** [x] is [v] to the three decimals [v] is quoted with: it lies within
    half a thousandth of it. *)
Definition quoted_to_3_decimals (x v : float) : bool :=
  PrimFloat.leb (PrimFloat.abs (PrimFloat.sub x v)) (decimal 5 4).

(** A binary64 value that is neither NaN nor an infinity. *)
Definition SFfinite (x : spec_float) : bool :=
  match x with
  | S754_zero _ | S754_finite _ _ _ => true
  | _ => false
  end.

(** ** A sample environment *)

(** Concrete collaborators for the worked cases: Leaflet's pixel distance
    [sqrt(dx*dx + dy*dy)], a flat stand-in for its great-circle distance
    (111320 m to the degree), a view that scales degrees to pixels, and
    short polynomials for the [Math] functions that keep the special values
    ECMAScript fixes ([sin 0 = 0], [cos 0 = 1], [atan2 y 0 = y] for a zero
    [y] of either sign). *)
Module Sample.

Section Generic.

Context {num : Type} `{JsNumber num}.
Local Open Scope js_scope.

Definition pixelDistance (p q : Point num) : num :=
  let x := pt_x q - pt_x p in
  let y := pt_y q - pt_y p in
  sqrt (x * x + y * y).

Definition flatDistance (a b : LatLng num) : num :=
  let dLat := lat b - lat a in
  let dLng := lng b - lng a in
  lit 111320 * sqrt (dLat * dLat + dLng * dLng).

Definition leaflet : Leaflet num :=
  {| LatLng_distanceTo := flatDistance; Point_distanceTo := pixelDistance |}.

(** [scale] pixels to the degree, the pixel origin at [origin]. *)
Definition flatView (scale : num) (origin : Point num) : MapView num :=
  {| latLngToLayerPoint :=
       fun ll => {| pt_x := lng ll * scale; pt_y := (lit 0 - lat ll) * scale |};
     getPixelOrigin := origin |}.

End Generic.

Definition polySin (x : float) : float := (x - x * x * x / 6)%float.

Definition polyCos (x : float) : float := (1 - x * x / 2)%float.

Definition polyAtan2 (y x : float) : float :=
  let h := PrimFloat.sqrt (x * x + y * y)%float in
  if PrimFloat.eqb h 0 then y
  else if PrimFloat.leb 0 x then (2 * (y / (h + x)))%float
  else if PrimFloat.leb 0 y then (0x1.921fb54442d18p+1 - 2 * (y / (h - x)))%float
  else (- 0x1.921fb54442d18p+1 - 2 * (y / (h - x)))%float.

Definition math : MathLib float :=
  {| Math_PI := 0x1.921fb54442d18p+1%float;
     Math_sin := polySin; Math_cos := polyCos; Math_atan2 := polyAtan2 |}.

(** The map shown at 10000 pixels to the degree. *)
Definition view10k : MapView float :=
  flatView 10000%float {| pt_x := 770000%float; pt_y := (-131000)%float |}.

(** The office location of [app.js], and a point 0.003 degrees east and
    0.004 degrees north of it. *)
Definition office : LatLng float :=
  {| lat := decimal 13027 3; lng := decimal 77545 3 |}.

Definition nearby : LatLng float :=
  {| lat := decimal 13031 3; lng := decimal 77548 3 |}.

(** Two towers and the link between them, as the handlers leave them
    after two clicks on the map and a click on each tower. *)
Definition towerT1 (ll : LatLng float) : Tower float :=
  {| tower_id := "T1"; latlng := ll; frequencyGHz := decimal 58 1;
     borderColor := "white" |}.

Definition towerT2 (ll : LatLng float) : Tower float :=
  {| tower_id := "T2"; latlng := ll; frequencyGHz := decimal 58 1;
     borderColor := "" |}.

Definition linkL3 : Link :=
  {| link_id := "L3"; towerAId := "T1"; towerBId := "T2";
     className := "leaflet-link-line" |}.

(** [planned a b]: towers at [a] and [b], linked, nothing selected. *)
Definition planned (a b : LatLng float) : State float :=
  {| towers := [towerT1 a; towerT2 b]; links := [linkL3];
     activeLinkPhase := None; selectedLink := None; nextId := 4;
     view := view10k; svgOverlay := None |}.

(** Towers at [a] and [b], the first one clicked and waiting for its
    partner. *)
Definition pending (a b : LatLng float) : State float :=
  {| towers :=
       [{| tower_id := "T1"; latlng := a; frequencyGHz := decimal 58 1;
           borderColor := "yellow" |};
        towerT2 b];
     links := []; activeLinkPhase := Some "T1"%string; selectedLink := None;
     nextId := 3; view := view10k; svgOverlay := None |}.

(** [planned a b] with the second tower retuned to 2.4 GHz. *)
Definition retuned (a b : LatLng float) : State float :=
  {| towers :=
       [towerT1 a;
        {| tower_id := "T2"; latlng := b; frequencyGHz := decimal 24 1;
           borderColor := "" |}];
     links := [linkL3];
     activeLinkPhase := None; selectedLink := None; nextId := 4;
     view := view10k; svgOverlay := None |}.

(** A third location, and a session on three towers: they are placed,
    T1 is linked to T2 and T2 to T3, and the first link is clicked. *)
Definition farther : LatLng float :=
  {| lat := decimal 13035 3; lng := decimal 77550 3 |}.

Definition session : list (event float) :=
  [MapClick office; MapClick nearby; MapClick farther;
   TowerClick 0 None; TowerClick 1 None;
   TowerClick 1 None; TowerClick 2 None;
   LinkClick 0].

Definition firstSelected : State float :=
  Eval vm_compute in
    match @run float F64.number math leaflet (initial view10k) session with
    | Done s => s
    | _ => initial view10k
    end.

(** A link to a tower that is not in the collection. *)
Definition dangling : Link :=
  {| link_id := "L9"; towerAId := "T9"; towerBId := "T2";
     className := "leaflet-link-line" |}.

End Sample.

(** The same plan in exact arithmetic: towers at (0, 0) and at 4 degrees
    north, 3 degrees east, shown at one pixel to the degree. *)
Module SampleExact.

Definition towerT1 : Tower R :=
  {| tower_id := "T1"; latlng := {| lat := 0%R; lng := 0%R |};
     frequencyGHz := (58 / 10)%R; borderColor := "white" |}.

Definition towerT2 : Tower R :=
  {| tower_id := "T2"; latlng := {| lat := 4%R; lng := 3%R |};
     frequencyGHz := (58 / 10)%R; borderColor := "" |}.

Definition planned : State R :=
  {| towers := [towerT1; towerT2]; links := [Sample.linkL3];
     activeLinkPhase := None; selectedLink := None; nextId := 4;
     view := Sample.flatView 1%R {| pt_x := 0%R; pt_y := 0%R |};
     svgOverlay := None |}.

End SampleExact.

(** ** Observing the document *)

(** [document.getElementById('fresnel-ellipse')] *)
Definition renderedEllipse {num : Type} (s : State num) : option (Ellipse num) :=
  hd_error (ellipses s).

(** Two towers that differ at most in their frequency, and in it only when
    the tower is the one called [id]. *)
Definition same_but_frequency_of {num : Type} (id : string) (t t' : Tower num) : Prop :=
  tower_id t' = tower_id t /\ latlng t' = latlng t /\
  borderColor t' = borderColor t /\
  (tower_id t <> id -> frequencyGHz t' = frequencyGHz t).

(** ** Well-formed states *)

(** The ids of the towers in the collection. *)
Definition ids {num : Type} (s : State num) : list string :=
  map (@tower_id num) (towers s).

(** What the handlers maintain: every link joins two different towers of
    the collection; a selected link exists and has its ellipse; there is
    at most one ellipse, and exactly one once the overlay exists; only the
    selected link is highlighted. *)
Record wellFormed {num : Type} (s : State num) : Prop := {
  wf_links :
    forall l, In l (links s) ->
      towerAId l <> towerBId l /\
      In (towerAId l) (ids s) /\ In (towerBId l) (ids s);
  wf_selected :
    forall k, selectedLink s = Some k ->
      (k < List.length (links s))%nat /\ List.length (ellipses s) = 1%nat;
  wf_count : (List.length (ellipses s) <= 1)%nat;
  wf_overlay : svgOverlay s <> None -> List.length (ellipses s) = 1%nat;
  wf_highlight :
    forall k l, nth_error (links s) k = Some l ->
      className l = "leaflet-link-line-selected"%string -> selectedLink s = Some k
}.

(** The links once a click on the [j]-th link has moved the highlight:
    the two [setStyle] calls of [handleLinkClick]. *)
Definition rehighlighted {num : Type} (j : nat) (s : State num) : list Link :=
  update j (set_className "leaflet-link-line-selected")
    (match selectedLink s with
     | Some k => update k (set_className "leaflet-link-line") (links s)
     | None => links s
     end).

(** ** Bookkeeping *)

(** The test of [handleTowerClick] on the number typed in the prompt:
    [!isNaN(freq) && freq > 0]. *)
Definition validFrequency {num : Type} `{JsNumber num} (freq : num) : bool :=
  negb (isNaN freq) && ltb (lit 0) freq.

(** Every tower's frequency passes that test. *)
Definition allValid {num : Type} `{JsNumber num} (s : State num) : Prop :=
  Forall (fun t => validFrequency (frequencyGHz t) = true) (towers s).

(** What never changes of a tower and of a link once they are created. *)
Definition towerCore {num : Type} (t : Tower num) : string * LatLng num :=
  (tower_id t, latlng t).

Definition linkCore (l : Link) : string * string * string :=
  (link_id l, towerAId l, towerBId l).

(** The bookkeeping the handlers keep in order: [nextId] has counted every
    tower and link, whose ids are [T] and [L] followed by a number already
    counted and are all different; the pending tower is in the
    collection, and it is the only one whose marker is yellow. *)
Record orderly {num : Type} (s : State num) : Prop := {
  or_count :
    nextId s = (1 + N.of_nat (List.length (towers s) + List.length (links s)))%N;
  or_towers :
    forall t, In t (towers s) ->
      exists n, (n < nextId s)%N /\ tower_id t = template "T" n;
  or_links :
    forall l, In l (links s) ->
      exists n, (n < nextId s)%N /\ link_id l = template "L" n;
  or_towers_distinct : NoDup (ids s);
  or_links_distinct : NoDup (map link_id (links s));
  or_pending : forall a, activeLinkPhase s = Some a -> In a (ids s);
  or_yellow :
    forall t, In t (towers s) -> borderColor t = "yellow"%string ->
      activeLinkPhase s = Some (tower_id t)
}.

(** ** Tile layers *)

(** The keys of [TILE_CONFIGS], which are the values [changeTileLayer]
    is documented to take and the only ones the three buttons and the
    initial call pass. *)
Inductive StyleKey : Type := standard | bw | terrain.

Record TileConfig := { url : string; attribution : string }.

(** [const TILE_CONFIGS], read at a key. *)
Definition TILE_CONFIGS (styleKey : StyleKey) : TileConfig :=
  match styleKey with
  | standard =>
      {| url := "https://{s}.tile.openstreetmap.org/{z}/{x}/{y}.png";
         attribution := "© OpenStreetMap contributors" |}
  | bw =>
      {| url := "https://{s}.basemaps.cartocdn.com/light_all/{z}/{x}/{y}{r}.png";
         attribution := "© CartoDB, © OpenStreetMap contributors" |}
  | terrain =>
      {| url := "https://{s}.tile.opentopomap.org/{z}/{x}/{y}.png";
         attribution :=
           "Map data: © OpenStreetMap contributors, SRTM | Map style: © OpenTopoMap (CC-BY-SA)" |}
  end.

(** A tile layer object: the stamp stands for its identity, the other
    fields are the arguments of [L.tileLayer]; the option the code spells
    [ubdomains] is kept under that name. *)
Record TileLayer := {
  stamp : N;
  layer_url : string;
  maxZoom : Z;
  layer_attribution : string;
  ubdomains : list string
}.

(** [currentTileLayer], the tile layers on the map, and the count of the
    layer objects created so far. *)
Record Tiles := {
  currentTileLayer : option TileLayer;
  onMap : list TileLayer;
  created : N
}.

(** [map.removeLayer(layer)]: the layer with that identity leaves the
    map. *)
Definition removeLayer (layer : TileLayer) (layers : list TileLayer) : list TileLayer :=
  filter (fun l => negb (N.eqb (stamp l) (stamp layer))) layers.

(** [function changeTileLayer(styleKey)] *)
Definition changeTileLayer (styleKey : StyleKey) (t : Tiles) : Tiles :=
  let layers :=
    match currentTileLayer t with
    | Some current => removeLayer current (onMap t)
    | None => onMap t
    end in
  let config := TILE_CONFIGS styleKey in
  let layer :=
    {| stamp := created t; layer_url := url config; maxZoom := 19;
       layer_attribution := attribution config;
       ubdomains := ["a"; "b"; "c"; "d"]%string |} in
  {| currentTileLayer := Some layer; onMap := layers ++ [layer];
     created := N.succ (created t) |}.

(** The map before the first call, and the tiles after the initial
    [changeTileLayer('bw')] followed by the buttons pressed. *)
Definition noTiles : Tiles :=
  {| currentTileLayer := None; onMap := []; created := 0 |}.

Definition pressed (keys : list StyleKey) : Tiles :=
  fold_left (fun t k => changeTileLayer k t) keys (changeTileLayer bw noTiles).

(** ** Rounding, read on the real line *)

(** [SpecFloat] rounds a mantissa by shifting it to the right and keeping
    two bits of what falls off.  These definitions say where on the real
    line such a mantissa and its bits put a number. *)
Section RoundingModel.

Local Open Scope R_scope.

(** The scale [2^e]. *)
Definition pow2 (e : Z) : R := powerRZ 2 e.

(** [loc_at x m l]: [x] is the integer [m], or lies between [m] and
    [m + 1]: below the middle, at it, or above it. *)
Definition loc_at (x : R) (m : Z) (l : location) : Prop :=
  match l with
  | loc_Exact => x = IZR m
  | loc_Inexact Lt => IZR m < x < IZR m + / 2
  | loc_Inexact Eq => x = IZR m + / 2
  | loc_Inexact Gt => IZR m + / 2 < x < IZR m + 1
  end.

Definition rec_at (x : R) (mrs : shr_record) : Prop :=
  loc_at x (shr_m mrs) (loc_of_shr_record mrs).

(** The number a finite float stands for. *)
Definition val (m : positive) (e : Z) : R := IZR (Z.pos m) * pow2 e.

(** The number a float stands for; the special values count as 0. *)
Definition SF2R (x : spec_float) : R :=
  match x with
  | S754_finite s m e => if s then - val m e else val m e
  | _ => 0
  end.

Definition toR (x : float) : R := SF2R (Prim2SF x).

End RoundingModel.

(** What [binary_round_aux] makes of the rounded mantissa [m] at the
    exponent [t]: a mantissa that has grown to [2^53] moves up one
    exponent, an exponent above [emax - prec] overflows. *)
Definition pack (t m : Z) : spec_float :=
  if (m <? 9007199254740992)%Z then
    match m with
    | Z0 => S754_zero false
    | Zpos p => if (t <=? 971)%Z then S754_finite false p t else S754_infinity false
    | Zneg _ => S754_nan
    end
  else if (t + 1 <=? 971)%Z then S754_finite false 4503599627370496 (t + 1)
  else S754_infinity false.

(** A finite float with its exponent moved by [k]. *)
Definition lift (k : Z) (x : spec_float) : spec_float :=
  match x with
  | S754_finite s m e => S754_finite s m (e + k)
  | _ => x
  end.

Ltac fx := unfold fexp, emin, prec, emax in *.

(** * Properties *)

(** ** binary64: comparisons with zero and the sign of a square root *)

Module F64Facts.

Lemma zero_spec : Prim2SF PrimFloat.zero = S754_zero false.
Proof. reflexivity. Qed.

Lemma gt0_not_le0 (x : float) :
  PrimFloat.ltb PrimFloat.zero x = true -> PrimFloat.leb x PrimFloat.zero = false.
Proof.
  rewrite ltb_spec, leb_spec, zero_spec.
  destruct (Prim2SF x) as [s | s | | s m e]; cbn; try discriminate.
  - destruct s; [discriminate | reflexivity].
  - destruct s; [discriminate | reflexivity].
Qed.

Lemma round_aux_not_negative (mz ez : Z) (lz : location) :
  SFltb (binary_round_aux prec emax false mz ez lz) (S754_zero false) = false.
Proof.
  unfold binary_round_aux.
  destruct (shr_fexp prec emax mz ez lz) as [mrs' e'].
  destruct (shr_fexp prec emax _ e' loc_Exact) as [mrs'' e''].
  destruct (shr_m mrs''); [reflexivity | | reflexivity].
  destruct (e'' <=? emax - prec)%Z; reflexivity.
Qed.

Lemma sqrt_not_negative (v : float) :
  PrimFloat.ltb (PrimFloat.sqrt v) PrimFloat.zero = false.
Proof.
  rewrite ltb_spec, sqrt_spec, zero_spec.
  unfold SF64sqrt, SFsqrt.
  destruct (Prim2SF v) as [s | s | | s m e]; try reflexivity.
  - destruct s; reflexivity.
  - destruct s; [reflexivity |].
    destruct (SFsqrt_core_binary prec emax (Z.pos m) e) as [[mz ez] lz].
    apply round_aux_not_negative.
Qed.

Local Open Scope float_scope.

(** [%] on a few values, as a JavaScript console shows them. *)
Example frem_examples :
  F64.frem 540 360 = 180 /\ F64.frem 360 360 = 0 /\
  F64.frem 5.5 2 = 1.5 /\ F64.frem (-7) 3 = -1 /\
  F64.frem (decimal 1 1) (decimal 3 2) = 0x1.47ae147ae1480p-7 /\
  F64.frem 3 infinity = 3 /\
  F64.frem 3 0 = nan /\ F64.frem infinity 3 = nan.
Proof. vm_compute. repeat split. Qed.

Lemma mul_comm (x y : float) : x * y = y * x.
Proof.
  apply Prim2SF_inj. rewrite !mul_spec. unfold SF64mul, SFmul.
  destruct (Prim2SF x) as [sx | sx | | sx mx ex],
           (Prim2SF y) as [sy | sy | | sy my ey];
    try reflexivity; try (rewrite xorb_comm; reflexivity).
  rewrite xorb_comm, Pos.mul_comm, Z.add_comm. reflexivity.
Qed.

(** A canonical mantissa shifted left by 52 bits rounds back to itself. *)
Lemma round_exact_shift (s : bool) (m : positive) (e : Z) :
  SpecFloat.bounded prec emax m e = true ->
  binary_round_aux prec emax s (Zpos (m * 4503599627370496)) (e + -52) loc_Exact
  = S754_finite s m e.
Proof.
  intros Hb. unfold SpecFloat.bounded in Hb. apply andb_prop in Hb.
  destruct Hb as [Hc He].
  unfold canonical_mantissa in Hc. apply Z.eqb_eq in Hc.
  unfold binary_round_aux, shr_fexp.
  rewrite Pos.mul_comm.
  change (4503599627370496 * m)%positive with (Pos.iter xO m 52%positive).
  assert (Hd : Zdigits2 (Zpos (Pos.iter xO m 52)) = (Zpos (digits2_pos m) + 52)%Z).
  { cbn. rewrite !Pos2Z.inj_succ. lia. }
  rewrite Hd.
  replace (Zpos (digits2_pos m) + 52 + (e + -52))%Z
    with (Zpos (digits2_pos m) + e)%Z by lia.
  rewrite Hc.
  replace (e - (e + -52))%Z with 52%Z by lia.
  cbn [shr_record_of_loc shr].
  replace (SpecFloat.iter_pos shr_1 52
             {| shr_m := Zpos (Pos.iter xO m 52); shr_r := false; shr_s := false |})
    with {| shr_m := Zpos m; shr_r := false; shr_s := false |} by reflexivity.
  cbn [shr_m loc_of_shr_record round_nearest_even Zdigits2].
  replace (e + -52 + 52)%Z with e by lia.
  rewrite Hc, Z.sub_diag. cbn [shr shr_record_of_loc shr_m].
  rewrite He. reflexivity.
Qed.

Lemma mul_1_r (x : float) : x * 1 = x.
Proof.
  apply Prim2SF_inj. rewrite mul_spec.
  change (Prim2SF 1) with (S754_finite false 4503599627370496 (-52)).
  pose proof (Prim2SF_valid x) as Hv.
  unfold SF64mul, SFmul.
  destruct (Prim2SF x) as [sx | sx | | sx mx ex]; cbn [valid_binary] in Hv;
    rewrite ?xorb_false_r; try reflexivity.
  apply round_exact_shift. exact Hv.
Qed.

Lemma is_finite_spec (x : float) : is_finite x = SFfinite (Prim2SF x).
Proof.
  unfold is_finite, is_nan, is_infinity.
  rewrite !FloatAxioms.eqb_spec, abs_spec.
  change (Prim2SF infinity) with (S754_infinity false).
  destruct (Prim2SF x) as [s | s | | s m e]; cbn; try reflexivity.
  - destruct s; reflexivity.
  - rewrite Z.compare_refl, Pos.compare_cont_refl. destruct s; reflexivity.
Qed.

Lemma sub_diag (x : float) : is_finite x = true -> x - x = 0.
Proof.
  rewrite is_finite_spec. intros Hf. apply Prim2SF_inj. rewrite sub_spec.
  change (Prim2SF 0) with (S754_zero false). unfold SF64sub, SFsub.
  destruct (Prim2SF x) as [s | s | | s m e]; try discriminate.
  - destruct s; reflexivity.
  - rewrite Z.sub_diag. reflexivity.
Qed.

Lemma finite_mul_l (x y : float) : is_finite (x * y) = true -> is_finite x = true.
Proof.
  rewrite !is_finite_spec, mul_spec. unfold SF64mul, SFmul.
  destruct (Prim2SF x) as [sx | sx | | sx mx ex]; try reflexivity;
    destruct (Prim2SF y) as [sy | sy | | sy my ey]; intros Hf; try discriminate.
Qed.

Lemma zero_mul (c : float) :
  is_finite c = true -> 0 * c = 0 \/ 0 * c = neg_zero.
Proof.
  rewrite is_finite_spec. intros Hf.
  assert (E : exists s, Prim2SF (0 * c) = S754_zero s).
  { rewrite mul_spec. change (Prim2SF 0) with (S754_zero false).
    unfold SF64mul, SFmul.
    destruct (Prim2SF c) as [s | s | | s m e]; try discriminate; eauto. }
  destruct E as [s E]. rewrite <- (SF2Prim_Prim2SF (0 * c)), E.
  destruct s; [right | left]; reflexivity.
Qed.

End F64Facts.

(** ** Exact arithmetic: the comparisons *)

Module ExactFacts.

Lemma leb_true (x y : R) : leb x y = true <-> (x <= y)%R.
Proof. cbn. destruct (Rle_dec x y); split; intros; try discriminate; tauto. Qed.

Lemma leb_false (x y : R) : leb x y = false <-> (y < x)%R.
Proof.
  cbn. destruct (Rle_dec x y); split; intros; try discriminate; try lra;
    reflexivity.
Qed.

Lemma radius_of_positive (f d : R) :
  (0 < f)%R -> (0 < d)%R ->
  calculateMaxFresnelRadius f d = R_sqrt.sqrt (300000000 / f * d / 4).
Proof.
  intros Hf Hd. unfold calculateMaxFresnelRadius, SPEED_OF_LIGHT.
  assert (E1 : leb f (lit 0) = false) by (apply leb_false; cbn; lra).
  assert (E2 : leb d (lit 0) = false) by (apply leb_false; cbn; lra).
  rewrite E1, E2. reflexivity.
Qed.

Lemma radicand_positive (f d : R) :
  (0 < f)%R -> (0 < d)%R -> (0 < 300000000 / f * d / 4)%R.
Proof.
  intros Hf Hd.
  assert (0 < / f)%R by (apply Rinv_0_lt_compat; exact Hf).
  unfold Rdiv. repeat apply Rmult_lt_0_compat; lra.
Qed.

End ExactFacts.

(** ** binary64: what rounding computes *)

Unset Implicit Arguments.

(** *** Powers of two *)

Module Pow2Facts.

Local Open Scope R_scope.

Lemma pow2_pos (e : Z) : 0 < pow2 e.
Proof. apply powerRZ_lt. lra. Qed.

Lemma pow2_add (a b : Z) : pow2 (a + b) = pow2 a * pow2 b.
Proof. apply powerRZ_add. lra. Qed.

Lemma pow2_zero : pow2 0 = 1.
Proof. reflexivity. Qed.

Lemma pow2_one : pow2 1 = 2.
Proof. unfold pow2, powerRZ. simpl. lra. Qed.

Lemma pow2_half : pow2 (-1) = / 2.
Proof. unfold pow2, powerRZ. simpl. lra. Qed.

Lemma pow2_opp (a : Z) : pow2 (- a) = / pow2 a.
Proof. apply powerRZ_neg'. Qed.

Lemma pow2_cancel (a : Z) : pow2 a * pow2 (- a) = 1.
Proof. rewrite <- pow2_add. replace (a + - a)%Z with 0%Z by lia. reflexivity. Qed.

Lemma pow2_of_Z (k : Z) : (0 <= k)%Z -> pow2 k = IZR (2 ^ k).
Proof.
  intros Hk. destruct k as [| p | p]; [reflexivity | | lia].
  unfold pow2. rewrite <- Zpower_pos_powerRZ. reflexivity.
Qed.

Lemma pow2_ge_1 (k : Z) : (0 <= k)%Z -> 1 <= pow2 k.
Proof.
  intros Hk. rewrite (pow2_of_Z k Hk). apply IZR_le.
  assert (0 < 2 ^ k)%Z by (apply Z.pow_pos_nonneg; lia). lia.
Qed.

Lemma pow2_le (a b : Z) : (a <= b)%Z -> pow2 a <= pow2 b.
Proof.
  intros Hab. replace b with (a + (b - a))%Z by lia. rewrite pow2_add.
  pose proof (pow2_pos a). pose proof (@pow2_ge_1 (b - a) ltac:(lia)). nra.
Qed.

Lemma pow2_lt (a b : Z) : (a < b)%Z -> pow2 a < pow2 b.
Proof.
  intros Hab. replace b with (a + 1 + (b - a - 1))%Z by lia. rewrite !pow2_add, pow2_one.
  pose proof (pow2_pos a). pose proof (@pow2_ge_1 (b - a - 1) ltac:(lia)). nra.
Qed.

Lemma pow2_lt_inv (a b : Z) : pow2 a < pow2 b -> (a < b)%Z.
Proof.
  intros H. destruct (Z_lt_le_dec a b) as [Hl | Hl]; [exact Hl |].
  pose proof (pow2_le _ _ Hl). lra.
Qed.

End Pow2Facts.

(** *** The digits of a mantissa *)

Module DigitFacts.

Lemma size (p : positive) : digits2_pos p = Pos.size p.
Proof. induction p; cbn; congruence. Qed.

Lemma bounds (p : positive) :
  (2 ^ (Z.pos (digits2_pos p) - 1) <= Z.pos p < 2 ^ Z.pos (digits2_pos p))%Z.
Proof.
  rewrite size. pose proof (Pos.size_gt p) as Hg. pose proof (Pos.size_le p) as Hl.
  assert (E : (2 ^ Z.pos (Pos.size p) = Z.pos (2 ^ Pos.size p))%Z)
    by (rewrite Pos2Z.inj_pow; reflexivity).
  split; [| lia].
  assert (2 * 2 ^ (Z.pos (Pos.size p) - 1) = 2 ^ Z.pos (Pos.size p))%Z.
  { rewrite <- Z.pow_succ_r by lia. f_equal. lia. }
  lia.
Qed.

(** [Zdigits2] of a number above zero *)
Lemma Zbounds (m : Z) :
  (0 < m)%Z -> (2 ^ (Zdigits2 m - 1) <= m < 2 ^ Zdigits2 m)%Z /\ (0 < Zdigits2 m)%Z.
Proof.
  destruct m as [| p | p]; try lia. intros _. cbn [Zdigits2].
  split; [apply bounds | lia].
Qed.

Lemma le_of_lt_pow (m k : Z) : (0 < m)%Z -> (0 <= k)%Z -> (m < 2 ^ k)%Z -> (Zdigits2 m <= k)%Z.
Proof.
  intros Hm Hk Hlt. destruct (Zbounds m Hm) as [[Hl _] Hd].
  destruct (Z_le_gt_dec (Zdigits2 m) k) as [H | H]; [exact H |].
  assert (2 ^ k <= 2 ^ (Zdigits2 m - 1))%Z by (apply Z.pow_le_mono_r; lia). lia.
Qed.

Lemma gt_of_pow_le (m k : Z) : (0 <= k)%Z -> (2 ^ k <= m)%Z -> (k < Zdigits2 m)%Z.
Proof.
  intros Hk Hle.
  assert (Hm : (0 < m)%Z) by (assert (0 < 2 ^ k)%Z by (apply Z.pow_pos_nonneg; lia); lia).
  destruct (Zbounds m Hm) as [[_ Hu] Hd].
  destruct (Z_lt_le_dec k (Zdigits2 m)) as [H | H]; [exact H |].
  assert (2 ^ Zdigits2 m <= 2 ^ k)%Z by (apply Z.pow_le_mono_r; lia). lia.
Qed.

End DigitFacts.

(** *** Shifting to the right *)

Module ShiftFacts.

Local Open Scope R_scope.

Lemma loc_of_record (m : Z) (l : location) :
  loc_of_shr_record (shr_record_of_loc m l) = l /\ shr_m (shr_record_of_loc m l) = m.
Proof. destruct l as [| []]; split; reflexivity. Qed.

Lemma rec_of_loc (x : R) (m : Z) (l : location) :
  loc_at x m l -> rec_at x (shr_record_of_loc m l).
Proof. unfold rec_at. destruct (loc_of_record m l) as [-> ->]. auto. Qed.

(** One step to the right halves the scale. *)
Lemma shr_1_at (x : R) (mrs : shr_record) :
  (0 <= shr_m mrs)%Z -> rec_at x mrs ->
  (0 <= shr_m (shr_1 mrs))%Z /\ rec_at (x / 2) (shr_1 mrs).
Proof.
  destruct mrs as [m r s]. unfold rec_at. cbn [shr_m]. intros Hm H.
  destruct m as [| p | p]; [| | lia].
  - destruct r, s; cbn in *; split; try lia; lra.
  - destruct p as [p | p |].
    + assert (E : IZR (Z.pos p~1) = 2 * IZR (Z.pos p) + 1)
        by (change (Z.pos p~1) with (2 * Z.pos p + 1)%Z;
            rewrite plus_IZR, mult_IZR; reflexivity).
      destruct r, s; cbn [shr_1 shr_m loc_of_shr_record orb loc_at] in *;
        rewrite E in H; split; try lia; lra.
    + assert (E : IZR (Z.pos p~0) = 2 * IZR (Z.pos p))
        by (change (Z.pos p~0) with (2 * Z.pos p)%Z; rewrite mult_IZR; reflexivity).
      destruct r, s; cbn [shr_1 shr_m loc_of_shr_record orb loc_at] in *;
        rewrite E in H; split; try lia; lra.
    + destruct r, s; cbn [shr_1 shr_m loc_of_shr_record orb loc_at] in *;
        split; try lia; lra.
Qed.

Lemma iter_at (p : positive) :
  forall (x : R) (mrs : shr_record),
    (0 <= shr_m mrs)%Z -> rec_at x mrs ->
    (0 <= shr_m (SpecFloat.iter_pos shr_1 p mrs))%Z /\
    rec_at (x * pow2 (- Z.pos p)) (SpecFloat.iter_pos shr_1 p mrs).
Proof.
  induction p as [p IH | p IH |]; intros x mrs Hm H; cbn [SpecFloat.iter_pos].
  - destruct (@shr_1_at x mrs Hm H) as [Hm1 H1].
    destruct (IH _ _ Hm1 H1) as [Hm2 H2].
    destruct (IH _ _ Hm2 H2) as [Hm3 H3].
    split; [exact Hm3 |].
    replace (x * pow2 (- Z.pos p~1))
      with (x / 2 * pow2 (- Z.pos p) * pow2 (- Z.pos p)); [exact H3 |].
    replace (- Z.pos p~1)%Z with (- 1 + (- Z.pos p + - Z.pos p))%Z by lia.
    rewrite !Pow2Facts.pow2_add, Pow2Facts.pow2_half. lra.
  - destruct (IH _ _ Hm H) as [Hm2 H2].
    destruct (IH _ _ Hm2 H2) as [Hm3 H3].
    split; [exact Hm3 |].
    replace (x * pow2 (- Z.pos p~0))
      with (x * pow2 (- Z.pos p) * pow2 (- Z.pos p)); [exact H3 |].
    replace (- Z.pos p~0)%Z with (- Z.pos p + - Z.pos p)%Z by lia.
    rewrite !Pow2Facts.pow2_add. lra.
  - destruct (@shr_1_at x mrs Hm H) as [Hm1 H1]. split; [exact Hm1 |].
    change (Z.opp (Zpos xH)) with (Zneg xH). rewrite Pow2Facts.pow2_half. exact H1.
Qed.

(** [shr] by [n >= 0] steps takes the scale from [e] to [e + n]. *)
Lemma shr_at (q : R) (mrs : shr_record) (e n : Z) :
  (0 <= n)%Z -> (0 <= shr_m mrs)%Z -> rec_at (q * pow2 (- e)) mrs ->
  snd (shr mrs e n) = (e + n)%Z /\
  (0 <= shr_m (fst (shr mrs e n)))%Z /\
  rec_at (q * pow2 (- (e + n))) (fst (shr mrs e n)).
Proof.
  intros Hn Hm H. destruct n as [| p | p]; [| | lia]; cbn [shr fst snd].
  - rewrite Z.add_0_r. auto.
  - destruct (@iter_at p _ mrs Hm H) as [Hm1 H1]. split; [reflexivity |].
    split; [exact Hm1 |].
    replace (- (e + Z.pos p))%Z with (- e + - Z.pos p)%Z by lia.
    rewrite Pow2Facts.pow2_add, <- Rmult_assoc. exact H1.
Qed.

End ShiftFacts.

(** *** Rounding to the nearest mantissa *)

Module RoundFacts.

Local Open Scope R_scope.

Lemma loc_floor (x : R) (m : Z) (l : location) :
  loc_at x m l -> IZR m <= x < IZR m + 1.
Proof. destruct l as [| []]; cbn; lra. Qed.

Lemma nearest_even_range (m : Z) (l : location) :
  (m <= round_nearest_even m l <= m + 1)%Z.
Proof. destruct l as [| []]; cbn; try destruct (Z.even m); lia. Qed.

(** The position of a number fixes the position of a larger one. *)
Lemma nearest_even_mono (x1 x2 : R) (m1 m2 : Z) (l1 l2 : location) :
  loc_at x1 m1 l1 -> loc_at x2 m2 l2 -> x1 <= x2 ->
  (round_nearest_even m1 l1 <= round_nearest_even m2 l2)%Z.
Proof.
  intros H1 H2 Hx.
  pose proof (loc_floor _ _ _ H1) as F1. pose proof (loc_floor _ _ _ H2) as F2.
  destruct (Z_lt_le_dec m1 m2) as [Hlt | Hge].
  - pose proof (nearest_even_range m1 l1). pose proof (nearest_even_range m2 l2). lia.
  - assert (Hle : (m1 <= m2)%Z).
    { destruct (Z_le_gt_dec m1 m2) as [Hl | Hg]; [exact Hl |].
      assert (IZR (m2 + 1) <= IZR m1) by (apply IZR_le; lia).
      rewrite plus_IZR in *. lra. }
    assert (m1 = m2) by lia. subst m2.
    destruct l1 as [| []], l2 as [| []]; cbn in *;
      try destruct (Z.even m1); try lia; lra.
Qed.

Lemma shr_none (mrs : shr_record) (e n : Z) : (n <= 0)%Z -> shr mrs e n = (mrs, e).
Proof. destruct n; [reflexivity | lia | reflexivity]. Qed.

(** [binary_round_aux] on a mantissa with digits enough: the number is
    brought to the scale [t] of its magnitude, rounded there to the nearest
    mantissa, and packed. *)
Lemma round_aux_at (q : R) (m e : Z) (l : location) :
  (0 <= m)%Z -> loc_at (q * pow2 (- e)) m l ->
  (e <= fexp prec emax (Zdigits2 m + e))%Z ->
  exists (m' : Z) (l' : location),
    (0 <= m' < 9007199254740992)%Z /\
    ((-1074 < fexp prec emax (Zdigits2 m + e))%Z -> (4503599627370496 <= m')%Z) /\
    loc_at (q * pow2 (- fexp prec emax (Zdigits2 m + e))) m' l' /\
    binary_round_aux prec emax false m e l
    = pack (fexp prec emax (Zdigits2 m + e)) (round_nearest_even m' l').
Proof.
  intros Hm Hq He. set (t := fexp prec emax (Zdigits2 m + e)) in *.
  assert (Ht : (-1074 <= t)%Z) by (unfold t; fx; lia).
  destruct (@ShiftFacts.shr_at q (shr_record_of_loc m l) e (t - e))
    as (Es & Hm' & Hq').
  { lia. }
  { destruct (ShiftFacts.loc_of_record m l) as [_ ->]. exact Hm. }
  { apply ShiftFacts.rec_of_loc. exact Hq. }
  replace (e + (t - e))%Z with t in * by lia.
  unfold binary_round_aux, shr_fexp. fold t.
  destruct (shr (shr_record_of_loc m l) e (t - e)) as [mrs' e'].
  cbn [fst snd] in *. subst e'.
  set (m' := shr_m mrs') in *. set (l' := loc_of_shr_record mrs') in *.
  unfold rec_at in Hq'. fold m' l' in Hq'.
  pose proof (loc_floor _ _ _ Hq') as F'. pose proof (loc_floor _ _ _ Hq) as F.
  (* the size of the shifted mantissa *)
  assert (Hup : (m' < 9007199254740992)%Z).
  { destruct (Z.eq_dec m 0) as [-> | Hnz].
    - (* below the smallest scale *)
      apply lt_IZR.
      assert (q * pow2 (- t) < 1); [| lra].
      replace (- t)%Z with (- e + (e - t))%Z by lia.
      rewrite Pow2Facts.pow2_add, <- Rmult_assoc.
      assert (pow2 (e - t) <= pow2 0) by (apply Pow2Facts.pow2_le; lia).
      rewrite Pow2Facts.pow2_zero in *. pose proof (Pow2Facts.pow2_pos (e - t)).
      change (IZR 0) with 0 in F.
      set (a := q * pow2 (- e)) in *. set (b := pow2 (e - t)) in *.
      clearbody a b. assert (a * b <= a) by nra. lra.
    - destruct (@DigitFacts.Zbounds m ltac:(lia)) as [[Hl Hu] Hd].
      apply lt_IZR. change (IZR 9007199254740992) with (IZR (2 ^ 53)).
      rewrite <- Pow2Facts.pow2_of_Z by lia.
      assert (q * pow2 (- t) < pow2 53); [| lra].
      replace (- t)%Z with (- e + (e - t))%Z by lia. rewrite Pow2Facts.pow2_add, <- Rmult_assoc.
      assert (Hq1 : q * pow2 (- e) < pow2 (Zdigits2 m)).
      { rewrite (Pow2Facts.pow2_of_Z (Zdigits2 m)) by lia.
        assert (IZR (m + 1) <= IZR (2 ^ Zdigits2 m)) by (apply IZR_le; lia).
        rewrite plus_IZR in *. lra. }
      assert (pow2 (Zdigits2 m) * pow2 (e - t) <= pow2 53).
      { rewrite <- Pow2Facts.pow2_add. apply Pow2Facts.pow2_le. unfold t. fx. lia. }
      pose proof (Pow2Facts.pow2_pos (e - t)). nra. }
  assert (Hlow : (-1074 < t)%Z -> (4503599627370496 <= m')%Z).
  { intros Hn.
    assert (Hnz : (0 < m)%Z).
    { destruct (Z.eq_dec m 0) as [E | E]; [| lia]. exfalso.
      subst m. unfold t in *. cbn [Zdigits2] in *. fx. lia. }
    destruct (@DigitFacts.Zbounds m Hnz) as [[Hl Hu] Hd].
    assert (Et : (t = Zdigits2 m + e - 53)%Z) by (unfold t in *; fx; lia).
    assert (IZR (2 ^ 52) < IZR (m' + 1)); [| apply lt_IZR in H; lia].
    rewrite plus_IZR, <- Pow2Facts.pow2_of_Z by lia.
    assert (pow2 52 <= q * pow2 (- t)); [| lra].
    replace (- t)%Z with (- e + (e - t))%Z by lia. rewrite Pow2Facts.pow2_add, <- Rmult_assoc.
    assert (Hq1 : pow2 (Zdigits2 m - 1) <= q * pow2 (- e)).
    { rewrite (Pow2Facts.pow2_of_Z (Zdigits2 m - 1)) by lia.
      assert (IZR (2 ^ (Zdigits2 m - 1)) <= IZR m) by (apply IZR_le; lia). lra. }
    replace 52%Z with (Zdigits2 m - 1 + (e - t))%Z by lia. rewrite Pow2Facts.pow2_add.
    pose proof (Pow2Facts.pow2_pos (e - t)). nra. }
  exists m', l'. split; [lia |]. split; [exact Hlow |]. split; [exact Hq' |].
  pose proof (nearest_even_range m' l') as Hr.
  set (m1 := round_nearest_even m' l') in *.
  unfold pack.
  destruct (Z.ltb_spec m1 9007199254740992) as [Hm1 | Hm1].
  - assert (Hn : (fexp prec emax (Zdigits2 m1 + t) - t <= 0)%Z).
    { destruct (Z.eq_dec m1 0) as [-> | Hnz]; [cbn [Zdigits2]; fx; lia |].
      pose proof (@DigitFacts.le_of_lt_pow m1 53 ltac:(lia) ltac:(lia) Hm1). fx. lia. }
    rewrite (shr_none _ _ _ Hn).
    destruct (ShiftFacts.loc_of_record m1 loc_Exact) as [_ ->].
    destruct m1 as [| p | p]; [reflexivity | reflexivity | lia].
  - assert (E : m1 = 9007199254740992%Z) by lia. rewrite E. 
    replace (fexp prec emax (Zdigits2 9007199254740992 + t) - t)%Z with 1%Z
      by (cbn [Zdigits2 digits2_pos Pos.succ]; fx; lia).
    reflexivity.
Qed.

Lemma scale (q : R) (e : Z) : q = q * pow2 (- e) * pow2 e.
Proof.
  rewrite Rmult_assoc, <- Pow2Facts.pow2_add. replace (- e + e)%Z with 0%Z by lia.
  rewrite Pow2Facts.pow2_zero. lra.
Qed.

(** The magnitude of a number read off its mantissa. *)
Lemma below_magnitude (q : R) (m e : Z) (l : location) :
  (0 <= m)%Z -> loc_at (q * pow2 (- e)) m l -> q < pow2 (Zdigits2 m + e).
Proof.
  intros Hm Hq. pose proof (loc_floor _ _ _ Hq) as F.
  rewrite (scale q e), Pow2Facts.pow2_add. pose proof (Pow2Facts.pow2_pos e).
  assert (q * pow2 (- e) < pow2 (Zdigits2 m)); [| nra].
  destruct (Z.eq_dec m 0) as [-> | Hnz].
  - cbn [Zdigits2]. rewrite Pow2Facts.pow2_zero. change (IZR 0) with 0 in F. lra.
  - destruct (DigitFacts.Zbounds m ltac:(lia)) as [[Hl Hu] Hd].
    rewrite (Pow2Facts.pow2_of_Z (Zdigits2 m)) by lia.
    assert (IZR (m + 1) <= IZR (2 ^ Zdigits2 m)) by (apply IZR_le; lia).
    rewrite plus_IZR in *. lra.
Qed.

Lemma above_magnitude (q : R) (m e : Z) (l : location) :
  (0 < m)%Z -> loc_at (q * pow2 (- e)) m l -> pow2 (Zdigits2 m + e - 1) <= q.
Proof.
  intros Hm Hq. pose proof (loc_floor _ _ _ Hq) as F.
  rewrite (scale q e).
  replace (Zdigits2 m + e - 1)%Z with (Zdigits2 m - 1 + e)%Z by lia.
  rewrite Pow2Facts.pow2_add. pose proof (Pow2Facts.pow2_pos e).
  assert (pow2 (Zdigits2 m - 1) <= q * pow2 (- e)); [| nra].
  destruct (DigitFacts.Zbounds m Hm) as [[Hl Hu] Hd].
  rewrite (Pow2Facts.pow2_of_Z (Zdigits2 m - 1)) by lia.
  assert (IZR (2 ^ (Zdigits2 m - 1)) <= IZR m) by (apply IZR_le; lia). lra.
Qed.

Lemma finite_le (p1 p2 : positive) (t1 t2 : Z) :
  (t1 < t2)%Z \/ (t1 = t2 /\ (Z.pos p1 <= Z.pos p2)%Z) ->
  SFleb (S754_finite false p1 t1) (S754_finite false p2 t2) = true.
Proof.
  intros H. unfold SFleb, SFcompare.
  destruct (Z.compare_spec t1 t2) as [E | E | E]; try reflexivity; [| lia].
  change (Pos.compare_cont Eq p1 p2) with (Pos.compare p1 p2).
  destruct (Pos.compare_spec p1 p2) as [E' | E' | E']; try reflexivity. lia.
Qed.

Lemma pack_le (t1 t2 a b : Z) :
  (0 <= a <= 9007199254740992)%Z -> (0 <= b <= 9007199254740992)%Z ->
  ((t1 < t2)%Z /\ (4503599627370496 <= b)%Z) \/ (t1 = t2 /\ (a <= b)%Z) ->
  SFleb (pack t1 a) (pack t2 b) = true.
Proof.
  intros Ha Hb H. unfold pack.
  destruct (Z.ltb_spec a 9007199254740992), (Z.ltb_spec b 9007199254740992),
    (Z.leb_spec t1 971), (Z.leb_spec t2 971),
    (Z.leb_spec (t1 + 1) 971), (Z.leb_spec (t2 + 1) 971);
    try lia;
    destruct a as [| pa | pa], b as [| pb | pb]; try lia; try reflexivity;
    try (apply finite_le; lia).
Qed.

(** [binary_round_aux] is monotone in the number it rounds. *)
Lemma round_aux_mono (q1 q2 : R) (m1 e1 : Z) (l1 : location) (m2 e2 : Z) (l2 : location) :
  (0 <= m1)%Z -> loc_at (q1 * pow2 (- e1)) m1 l1 ->
  (e1 <= fexp prec emax (Zdigits2 m1 + e1))%Z ->
  (0 <= m2)%Z -> loc_at (q2 * pow2 (- e2)) m2 l2 ->
  (e2 <= fexp prec emax (Zdigits2 m2 + e2))%Z ->
  q1 <= q2 ->
  SFleb (binary_round_aux prec emax false m1 e1 l1)
        (binary_round_aux prec emax false m2 e2 l2) = true.
Proof.
  intros Hm1 Hq1 He1 Hm2 Hq2 He2 Hq.
  destruct (round_aux_at q1 m1 e1 l1 Hm1 Hq1 He1) as (a & la & Ha & _ & Hla & ->).
  destruct (round_aux_at q2 m2 e2 l2 Hm2 Hq2 He2) as (b & lb & Hb & Hlow & Hlb & ->).
  pose proof (nearest_even_range a la). pose proof (nearest_even_range b lb).
  set (t1 := fexp prec emax (Zdigits2 m1 + e1)) in *.
  set (t2 := fexp prec emax (Zdigits2 m2 + e2)) in *.
  assert (Ht : (t1 <= t2)%Z).
  { destruct (Z.eq_dec m1 0) as [E | E].
    - subst m1. unfold t1, t2 in *. cbn [Zdigits2] in *. fx. lia.
    - pose proof (above_magnitude q1 m1 e1 l1 ltac:(lia) Hq1).
      pose proof (below_magnitude q2 m2 e2 l2 Hm2 Hq2).
      assert (Zdigits2 m1 + e1 - 1 < Zdigits2 m2 + e2)%Z by (apply Pow2Facts.pow2_lt_inv; lra).
      unfold t1, t2. fx. lia. }
  apply pack_le; try lia.
  destruct (Z.eq_dec t1 t2) as [E | E].
  - right. split; [exact E |].
    apply (nearest_even_mono (q1 * pow2 (- t1)) (q2 * pow2 (- t2))); try assumption.
    rewrite E. pose proof (Pow2Facts.pow2_pos (- t2)). nra.
  - left. split; [lia |].
    assert (4503599627370496 <= b)%Z by (apply Hlow; unfold t1 in *; fx; lia). lia.
Qed.

End RoundFacts.

(** *** Finite floats as numbers *)

Module ValueFacts.

Local Open Scope R_scope.

Import RoundFacts.

Lemma above_zero (m : positive) (e : Z) : 0 < val m e.
Proof.
  unfold val. pose proof (Pow2Facts.pow2_pos e).
  assert (0 < IZR (Z.pos m)) by (apply IZR_lt; lia). nra.
Qed.

Lemma canonical (m : positive) (e : Z) :
  SpecFloat.bounded prec emax m e = true ->
  e = fexp prec emax (Zdigits2 (Z.pos m) + e) /\ (e <= 971)%Z.
Proof.
  unfold SpecFloat.bounded, canonical_mantissa. intros H. apply andb_prop in H.
  destruct H as [Hc He]. apply Z.eqb_eq in Hc. apply Z.leb_le in He.
  cbn [Zdigits2]. split; [symmetry; exact Hc | exact He].
Qed.

(** The order of two valid floats above zero is the order of their
    numbers. *)
Lemma le_of_leb (m1 : positive) (e1 : Z) (m2 : positive) (e2 : Z) :
  SpecFloat.bounded prec emax m1 e1 = true -> SpecFloat.bounded prec emax m2 e2 = true ->
  SFleb (S754_finite false m1 e1) (S754_finite false m2 e2) = true ->
  val m1 e1 <= val m2 e2.
Proof.
  intros B1 B2 H.
  destruct (canonical _ _ B1) as [C1 _]. destruct (canonical _ _ B2) as [C2 _].
  destruct (DigitFacts.Zbounds (Z.pos m1) ltac:(lia)) as [[L1 U1] D1].
  destruct (DigitFacts.Zbounds (Z.pos m2) ltac:(lia)) as [[L2 U2] D2].
  unfold SFleb, SFcompare in H. unfold val.
  destruct (Z.compare_spec e1 e2) as [E | E | E]; [| | discriminate].
  - subst e2. change (Pos.compare_cont Eq m1 m2) with (Pos.compare m1 m2) in H.
    assert (Hle : (Z.pos m1 <= Z.pos m2)%Z).
    { destruct (Pos.compare_spec m1 m2); try discriminate; lia. }
    apply IZR_le in Hle. pose proof (Pow2Facts.pow2_pos e1). nra.
  - (* a smaller exponent: the second float is normal *)
    assert (Hd2 : Zdigits2 (Z.pos m2) = 53%Z) by (fx; lia).
    assert (Hd1 : (Zdigits2 (Z.pos m1) <= 53)%Z) by (fx; lia).
    assert (H1 : IZR (Z.pos m1) < pow2 53).
    { rewrite Pow2Facts.pow2_of_Z by lia. apply IZR_lt.
      assert (2 ^ Zdigits2 (Z.pos m1) <= 2 ^ 53)%Z by (apply Z.pow_le_mono_r; lia).
      lia. }
    assert (H2 : pow2 52 <= IZR (Z.pos m2)).
    { rewrite Pow2Facts.pow2_of_Z by lia. apply IZR_le. rewrite Hd2 in L2. exact L2. }
    assert (H3 : pow2 (53 + e1) <= pow2 (52 + e2)) by (apply Pow2Facts.pow2_le; lia).
    rewrite !Pow2Facts.pow2_add in H3.
    pose proof (Pow2Facts.pow2_pos e1). pose proof (Pow2Facts.pow2_pos e2). nra.
Qed.

End ValueFacts.

(** *** The product, the quotient and the root before rounding *)

Module CoreFacts.

Local Open Scope R_scope.

Import RoundFacts.

(** The product of two valid floats has digits enough. *)
Lemma mul_at (mx : positive) (ex : Z) (my : positive) (ey : Z) :
  SpecFloat.bounded prec emax mx ex = true -> SpecFloat.bounded prec emax my ey = true ->
  loc_at (val mx ex * val my ey * pow2 (- (ex + ey))) (Z.pos (mx * my)) loc_Exact /\
  (ex + ey <= fexp prec emax (Zdigits2 (Z.pos (mx * my)) + (ex + ey)))%Z.
Proof.
  intros Bx By. split.
  - cbn [loc_at]. unfold val. rewrite Pos2Z.inj_mul, mult_IZR.
    replace (- (ex + ey))%Z with (- ex + - ey)%Z by lia. rewrite Pow2Facts.pow2_add.
    pose proof (Pow2Facts.pow2_cancel ex). pose proof (Pow2Facts.pow2_cancel ey).
    set (a := pow2 ex) in *. set (a' := pow2 (- ex)) in *.
    set (b := pow2 ey) in *. set (b' := pow2 (- ey)) in *.
    clearbody a a' b b'.
    replace (IZR (Z.pos mx) * a * (IZR (Z.pos my) * b) * (a' * b'))
      with (IZR (Z.pos mx) * IZR (Z.pos my) * (a * a') * (b * b')) by ring.
    rewrite H, H0. ring.
  - destruct (ValueFacts.canonical _ _ Bx) as [Cx _].
    destruct (ValueFacts.canonical _ _ By) as [Cy _].
    destruct (DigitFacts.Zbounds (Z.pos mx) ltac:(lia)) as [[Lx Ux] Dx].
    destruct (DigitFacts.Zbounds (Z.pos my) ltac:(lia)) as [[Ly Uy] Dy].
    assert (Hd : (Zdigits2 (Z.pos mx) - 1 + (Zdigits2 (Z.pos my) - 1)
                  < Zdigits2 (Z.pos (mx * my)))%Z).
    { apply DigitFacts.gt_of_pow_le; [lia |].
      rewrite Z.pow_add_r by lia. rewrite Pos2Z.inj_mul.
      apply Z.mul_le_mono_nonneg; try lia;
        apply Z.pow_nonneg; lia. }
    fx. lia.
Qed.

Lemma shifted (m s : Z) :
  (0 <= s)%Z ->
  match s with Z.pos _ => Z.shiftl m s | Z0 => m | Z.neg _ => 0%Z end = (m * 2 ^ s)%Z.
Proof.
  intros Hs. destruct s as [| p | p]; [| | lia].
  - cbn. lia.
  - apply Z.shiftl_mul_pow2. lia.
Qed.

(** Where a remainder puts the quotient between two integers. *)
Lemma new_location_at (n k : Z) :
  (0 <= k < n)%Z -> forall q : Z,
  loc_at (IZR q + IZR k / IZR n) q (new_location n k).
Proof.
  intros Hk q.
  assert (Hn : 0 < IZR n) by (apply IZR_lt; lia).
  assert (Hk0 : 0 <= IZR k) by (apply IZR_le; lia).
  set (rho := IZR k / IZR n).
  assert (Hrho : rho * IZR n = IZR k) by (unfold rho; field; lra).
  assert (Hlt : forall a b : Z, (a < b)%Z -> IZR a < IZR b) by (intros; apply IZR_lt; assumption).
  unfold new_location, new_location_even, new_location_odd.
  destruct (Z.even n) eqn:Hev; destruct (Z.eqb_spec k 0) as [E | E].
  - subst k. cbn. assert (rho = 0) by (change (IZR 0) with 0 in Hrho; nra). lra.
  - assert (0 < IZR k) by (apply (Hlt 0%Z k); lia).
    destruct (Z.compare_spec (2 * k) n) as [C | C | C]; cbn.
    + assert (2 * IZR k = IZR n) by (rewrite <- C, mult_IZR; reflexivity).
      assert (rho = / 2) by nra. lra.
    + apply Hlt in C. rewrite mult_IZR in C. change (IZR 2) with 2 in C.
      assert (0 < rho < / 2) by (split; nra). lra.
    + apply Hlt in C. rewrite mult_IZR in C. change (IZR 2) with 2 in C.
      assert (Hkn : IZR k < IZR n) by (apply Hlt; lia).
      assert (/ 2 < rho < 1) by (split; nra). lra.
  - subst k. cbn. assert (rho = 0) by (change (IZR 0) with 0 in Hrho; nra). lra.
  - assert (0 < IZR k) by (apply (Hlt 0%Z k); lia).
    assert (Hodd : (2 * k <> n)%Z).
    { intros <-. rewrite Z.even_mul in Hev. discriminate. }
    destruct (Z.compare_spec (2 * k + 1) n) as [C | C | C]; cbn.
    + assert (C' : (2 * k < n)%Z) by lia.
      apply Hlt in C'. rewrite mult_IZR in C'. change (IZR 2) with 2 in C'.
      assert (0 < rho < / 2) by (split; nra). lra.
    + assert (C' : (2 * k < n)%Z) by lia.
      apply Hlt in C'. rewrite mult_IZR in C'. change (IZR 2) with 2 in C'.
      assert (0 < rho < / 2) by (split; nra). lra.
    + assert (C' : (n < 2 * k)%Z) by lia.
      apply Hlt in C'. rewrite mult_IZR in C'. change (IZR 2) with 2 in C'.
      assert (Hkn : IZR k < IZR n) by (apply Hlt; lia).
      assert (/ 2 < rho < 1) by (split; nra). lra.
Qed.

(** The quotient computed by [SFdiv_core_binary] sits where the quotient
    of the two numbers is, and has digits enough. *)
Lemma div_at (mx : positive) (ex : Z) (my : positive) (ey : Z) :
  exists (mz ez : Z) (lz : location),
    SFdiv_core_binary prec emax (Z.pos mx) ex (Z.pos my) ey = (mz, ez, lz) /\
    (0 <= mz)%Z /\
    loc_at (val mx ex / val my ey * pow2 (- ez)) mz lz /\
    (ez <= fexp prec emax (Zdigits2 mz + ez))%Z.
Proof.
  unfold SFdiv_core_binary.
  set (d1 := Zdigits2 (Z.pos mx)). set (d2 := Zdigits2 (Z.pos my)).
  set (e' := Z.min (fexp prec emax (d1 + ex - (d2 + ey))) (ex - ey)).
  set (s := (ex - ey - e')%Z).
  assert (Hs : (0 <= s)%Z) by (unfold s, e'; lia).
  rewrite (shifted (Z.pos mx) s Hs).
  pose proof (Z_div_mod (Z.pos mx * 2 ^ s) (Z.pos my) ltac:(lia)) as Hdiv.
  destruct (Z.div_eucl (Z.pos mx * 2 ^ s) (Z.pos my)) as [q r].
  destruct Hdiv as [Hqr Hr].
  assert (Hpow : (0 < 2 ^ s)%Z) by (apply Z.pow_pos_nonneg; lia).
  assert (Hq : (0 <= q)%Z) by nia.
  exists q, e', (new_location (Z.pos my) r).
  split; [reflexivity |]. split; [exact Hq |]. split.
  - replace (val mx ex / val my ey * pow2 (- e'))
      with (IZR q + IZR r / IZR (Z.pos my)); [apply new_location_at; exact Hr |].
    assert (Hmy : 0 < IZR (Z.pos my)) by (apply IZR_lt; lia).
    assert (E : IZR (Z.pos mx) * pow2 s = IZR (Z.pos my) * IZR q + IZR r).
    { rewrite (Pow2Facts.pow2_of_Z s Hs), <- mult_IZR, Hqr, plus_IZR, mult_IZR. reflexivity. }
    unfold val. unfold s in E.
    replace (ex - ey - e')%Z with (ex + (- ey + - e'))%Z in E by lia.
    rewrite !Pow2Facts.pow2_add in E. rewrite (Pow2Facts.pow2_opp ey) in E.
    pose proof (Pow2Facts.pow2_pos ex). pose proof (Pow2Facts.pow2_pos ey). pose proof (Pow2Facts.pow2_pos (- e')).
    set (a := pow2 ex) in *. set (b := pow2 ey) in *. set (c := pow2 (- e')) in *.
    clearbody a b c.
    apply (Rmult_eq_reg_r (IZR (Z.pos my))); [| lra].
    replace ((IZR q + IZR r / IZR (Z.pos my)) * IZR (Z.pos my))
      with (IZR (Z.pos my) * IZR q + IZR r) by (field; lra).
    rewrite <- E. field. lra.
  - destruct (Z_le_gt_dec e' (-1074)) as [Hsub | Hnorm]; [fx; lia |].
    assert (Hs' : (d2 + 52 <= d1 - 1 + s)%Z) by (unfold s, e' in *; fx; lia).
    destruct (DigitFacts.Zbounds (Z.pos mx) ltac:(lia)) as [[L1 U1] D1].
    destruct (DigitFacts.Zbounds (Z.pos my) ltac:(lia)) as [[L2 U2] D2].
    fold d1 in L1, U1, D1. fold d2 in L2, U2, D2.
    assert (H52 : (2 ^ 52 <= q)%Z).
    { destruct (Z_le_gt_dec (2 ^ 52) q) as [H | H]; [exact H | exfalso].
      assert (2 ^ (d2 + 52) <= 2 ^ (d1 - 1 + s))%Z by (apply Z.pow_le_mono_r; lia).
      rewrite !Z.pow_add_r in H0 by lia.
      assert (2 ^ (d1 - 1) * 2 ^ s <= Z.pos mx * 2 ^ s)%Z
        by (apply Z.mul_le_mono_nonneg_r; lia).
      assert (Z.pos my * (q + 1) <= Z.pos my * 2 ^ 52)%Z
        by (apply Z.mul_le_mono_nonneg_l; lia).
      assert (Z.pos my * 2 ^ 52 < 2 ^ d2 * 2 ^ 52)%Z
        by (apply Z.mul_lt_mono_pos_r; lia).
      lia. }
    pose proof (DigitFacts.gt_of_pow_le q 52 ltac:(lia) H52). fx. lia.
Qed.

Lemma sqrt_between (a b M : R) :
  0 <= a -> 0 < b -> a * a < M -> M < b * b -> a < R_sqrt.sqrt M < b.
Proof.
  intros Ha Hb H1 H2. split.
  - rewrite <- (sqrt_square a Ha). apply sqrt_lt_1_alt. nra.
  - rewrite <- (sqrt_square b) by lra. apply sqrt_lt_1_alt. nra.
Qed.

(** The root computed by [SFsqrt_core_binary] sits where the square root
    of the number is, and has digits enough. *)
Lemma sqrt_at (m : positive) (e : Z) :
  exists (mz ez : Z) (lz : location),
    SFsqrt_core_binary prec emax (Z.pos m) e = (mz, ez, lz) /\
    (0 <= mz)%Z /\
    loc_at (R_sqrt.sqrt (val m e) * pow2 (- ez)) mz lz /\
    (ez <= fexp prec emax (Zdigits2 mz + ez))%Z.
Proof.
  unfold SFsqrt_core_binary.
  set (d := Zdigits2 (Z.pos m)).
  set (h := Z.div2 (d + e + 1)).
  set (e' := Z.min (fexp prec emax h) (Z.div2 e)).
  set (s := (e - 2 * e')%Z).
  pose proof (Z.div2_odd e) as He2. pose proof (Z.div2_odd (d + e + 1)) as Hh2.
  fold h in Hh2.
  assert (Hs : (0 <= s)%Z).
  { unfold s, e'. destruct (Z.odd e); cbn [Z.b2z] in He2; lia. }
  rewrite (shifted (Z.pos m) s Hs).
  assert (Hpow : (0 < 2 ^ s)%Z) by (apply Z.pow_pos_nonneg; lia).
  pose proof (Z.sqrtrem_spec (Z.pos m * 2 ^ s) ltac:(lia)) as Hsq.
  destruct (Z.sqrtrem (Z.pos m * 2 ^ s)) as [q r].
  destruct Hsq as [Hqr Hr].
  assert (Hq : (0 <= q)%Z) by lia.
  eexists q, e', _. split; [reflexivity |]. split; [exact Hq |]. split.
  - assert (EM : R_sqrt.sqrt (val m e) * pow2 (- e') = R_sqrt.sqrt (IZR (Z.pos m * 2 ^ s))).
    { unfold val. rewrite mult_IZR, <- (Pow2Facts.pow2_of_Z s Hs).
      replace e with (s + (e' + e'))%Z at 1 by (unfold s; lia).
      rewrite !Pow2Facts.pow2_add, <- !Rmult_assoc.
      pose proof (Pow2Facts.pow2_pos e'). pose proof (Pow2Facts.pow2_pos s).
      assert (0 < IZR (Z.pos m)) by (apply IZR_lt; lia).
      rewrite (Rmult_assoc (IZR (Z.pos m) * pow2 s)).
      rewrite sqrt_mult by nra. rewrite sqrt_square by lra.
      rewrite Rmult_assoc, Pow2Facts.pow2_cancel. ring. }
    rewrite EM, Hqr, plus_IZR, mult_IZR.
    assert (Hq0 : 0 <= IZR q) by (apply IZR_le; exact Hq).
    destruct (Z.eqb_spec r 0) as [E | E].
    + subst r. cbn [loc_at]. change (IZR 0) with 0. rewrite Rplus_0_r.
      apply sqrt_square. exact Hq0.
    + assert (Hr0 : 0 < IZR r) by (apply IZR_lt; lia).
      assert (Hr2 : IZR r <= 2 * IZR q).
      { change 2 with (IZR 2). rewrite <- mult_IZR. apply IZR_le. lia. }
      destruct (Z.leb_spec r q) as [C | C]; cbn [loc_at].
      * apply IZR_le in C.
        apply sqrt_between; nra.
      * assert (C' : IZR (q + 1) <= IZR r) by (apply IZR_le; lia).
        rewrite plus_IZR in C'.
        apply sqrt_between; nra.
  - destruct (Z_le_gt_dec e' (-1074)) as [Hsub | Hnorm]; [fx; lia |].
    destruct (DigitFacts.Zbounds (Z.pos m) ltac:(lia)) as [[L1 U1] D1].
    fold d in L1, U1, D1.
    assert (Hs' : (52 + 52 <= d - 1 + s)%Z).
    { unfold s, e' in *. destruct (Z.odd (d + e + 1)); cbn [Z.b2z] in Hh2; fx; lia. }
    assert (H52 : (2 ^ 52 <= q)%Z).
    { destruct (Z_le_gt_dec (2 ^ 52) q) as [H | H]; [exact H | exfalso].
      assert (2 ^ (52 + 52) <= 2 ^ (d - 1 + s))%Z by (apply Z.pow_le_mono_r; lia).
      rewrite !Z.pow_add_r in H0 by lia.
      assert (2 ^ (d - 1) * 2 ^ s <= Z.pos m * 2 ^ s)%Z
        by (apply Z.mul_le_mono_nonneg_r; lia).
      assert ((q + 1) * (q + 1) <= 2 ^ 52 * 2 ^ 52)%Z
        by (apply Z.mul_le_mono_nonneg; lia).
      lia. }
    pose proof (DigitFacts.gt_of_pow_le q 52 ltac:(lia) H52). fx. lia.
Qed.

End CoreFacts.

(** ** binary64: multiplication, division and square root are monotone *)

Module F64Order.

Import RoundFacts.

Local Open Scope float_scope.

Lemma round_aux_range (q : R) (m e : Z) (l : location) :
  (0 <= m)%Z -> loc_at (q * pow2 (- e)) m l ->
  (e <= fexp prec emax (Zdigits2 m + e))%Z ->
  SFleb (S754_zero false) (binary_round_aux prec emax false m e l) = true /\
  SFleb (binary_round_aux prec emax false m e l) (S754_infinity false) = true.
Proof.
  intros Hm Hq He.
  destruct (round_aux_at q m e l Hm Hq He) as (a & la & Ha & _ & _ & ->).
  pose proof (nearest_even_range a la) as Hr.
  unfold pack.
  destruct (Z.ltb_spec (round_nearest_even a la) 9007199254740992).
  - destruct (round_nearest_even a la) as [| p | p]; [| | lia].
    + split; reflexivity.
    + destruct (Z.leb_spec (fexp prec emax (Zdigits2 m + e)) 971); split; reflexivity.
  - destruct (Z.leb_spec (fexp prec emax (Zdigits2 m + e) + 1) 971); split; reflexivity.
Qed.

(** A float above zero is a valid finite float or +Infinity. *)
Lemma above_zero_view (x : float) :
  PrimFloat.ltb 0 x = true ->
  Prim2SF x = S754_infinity false \/
  exists (m : positive) (e : Z),
    Prim2SF x = S754_finite false m e /\ SpecFloat.bounded prec emax m e = true.
Proof.
  rewrite ltb_spec. pose proof (Prim2SF_valid x) as Hv.
  change (Prim2SF 0) with (S754_zero false).
  destruct (Prim2SF x) as [s | s | | s m e]; cbn; try discriminate;
    destruct s; try discriminate; intros _.
  - left. reflexivity.
  - right. exists m, e. split; [reflexivity | exact Hv].
Qed.

Lemma not_below_zero_view (x : float) :
  PrimFloat.leb 0 x = true ->
  (exists s : bool, Prim2SF x = S754_zero s) \/
  Prim2SF x = S754_infinity false \/
  exists (m : positive) (e : Z),
    Prim2SF x = S754_finite false m e /\ SpecFloat.bounded prec emax m e = true.
Proof.
  rewrite leb_spec. pose proof (Prim2SF_valid x) as Hv.
  change (Prim2SF 0) with (S754_zero false).
  destruct (Prim2SF x) as [s | s | | s m e]; cbn; try discriminate.
  - intros _. left. exists s. reflexivity.
  - destruct s; try discriminate. intros _. right. left. reflexivity.
  - destruct s; try discriminate. intros _. right. right.
    exists m, e. split; [reflexivity | exact Hv].
Qed.

Lemma finite_view (x : float) :
  PrimFloat.ltb 0 x = true -> is_finite x = true ->
  exists (m : positive) (e : Z),
    Prim2SF x = S754_finite false m e /\ SpecFloat.bounded prec emax m e = true.
Proof.
  intros Hp Hf. destruct (above_zero_view x Hp) as [E | H]; [| exact H].
  exfalso. unfold is_finite, is_infinity, is_nan in Hf.
  rewrite !FloatAxioms.eqb_spec, abs_spec, E in Hf. cbn in Hf. discriminate.
Qed.

(** What is not below a float above zero is above zero. *)
Lemma above_zero_le (a b : float) :
  PrimFloat.ltb 0 a = true -> PrimFloat.leb a b = true -> PrimFloat.ltb 0 b = true.
Proof.
  intros Ha. destruct (above_zero_view a Ha) as [E | (m & e & E & _)];
    rewrite leb_spec, ltb_spec, E; change (Prim2SF 0) with (S754_zero false);
    destruct (Prim2SF b) as [s | s | | s m' e']; cbn; try discriminate;
    destruct s; try discriminate; reflexivity.
Qed.

Lemma not_below_zero_le (a b : float) :
  PrimFloat.leb 0 a = true -> PrimFloat.leb a b = true -> PrimFloat.leb 0 b = true.
Proof.
  intros Ha.
  destruct (not_below_zero_view a Ha) as [[s E] | [E | (m & e & E & _)]];
    rewrite !leb_spec, E; change (Prim2SF 0) with (S754_zero false);
    destruct (Prim2SF b) as [s' | s' | | s' m' e']; cbn; try discriminate;
    destruct s'; try discriminate; reflexivity.
Qed.

Lemma above_zero_not_below (a : float) :
  PrimFloat.ltb 0 a = true -> PrimFloat.leb 0 a = true.
Proof.
  rewrite ltb_spec, leb_spec. unfold SFltb, SFleb.
  destruct (SFcompare (Prim2SF 0) (Prim2SF a)) as [[] |]; try discriminate; reflexivity.
Qed.

(** Multiplication is monotone in both factors, on floats above zero. *)
Lemma mul_mono (a1 b1 a2 b2 : float) :
  PrimFloat.ltb 0 a1 = true -> PrimFloat.leb a1 b1 = true ->
  PrimFloat.ltb 0 a2 = true -> PrimFloat.leb a2 b2 = true ->
  PrimFloat.leb (a1 * a2) (b1 * b2) = true /\ PrimFloat.leb 0 (a1 * a2) = true.
Proof.
  intros Ha1 H1 Ha2 H2.
  pose proof (above_zero_le a1 b1 Ha1 H1) as Hb1.
  pose proof (above_zero_le a2 b2 Ha2 H2) as Hb2.
  rewrite !leb_spec in *. rewrite !mul_spec.
  change (Prim2SF 0) with (S754_zero false).
  destruct (above_zero_view a1 Ha1) as [A1 | (ma1 & ea1 & A1 & Ba1)];
    destruct (above_zero_view a2 Ha2) as [A2 | (ma2 & ea2 & A2 & Ba2)];
    destruct (above_zero_view b1 Hb1) as [B1 | (mb1 & eb1 & B1 & Bb1)];
    destruct (above_zero_view b2 Hb2) as [B2 | (mb2 & eb2 & B2 & Bb2)];
    rewrite A1, A2, B1, B2 in *; try discriminate;
    unfold SF64mul; cbn [SFmul xorb];
    try (split; reflexivity).
  - destruct (CoreFacts.mul_at ma1 ea1 ma2 ea2 Ba1 Ba2) as [L R].
    split; [| apply (round_aux_range _ _ _ _ (Pos2Z.is_nonneg _) L R)].
    apply (round_aux_range _ _ _ _ (Pos2Z.is_nonneg _) L R).
  - destruct (CoreFacts.mul_at ma1 ea1 ma2 ea2 Ba1 Ba2) as [L R].
    split; [| apply (round_aux_range _ _ _ _ (Pos2Z.is_nonneg _) L R)].
    apply (round_aux_range _ _ _ _ (Pos2Z.is_nonneg _) L R).
  - destruct (CoreFacts.mul_at ma1 ea1 ma2 ea2 Ba1 Ba2) as [L R].
    split; [| apply (round_aux_range _ _ _ _ (Pos2Z.is_nonneg _) L R)].
    apply (round_aux_range _ _ _ _ (Pos2Z.is_nonneg _) L R).
  - destruct (CoreFacts.mul_at ma1 ea1 ma2 ea2 Ba1 Ba2) as [L R].
    destruct (CoreFacts.mul_at mb1 eb1 mb2 eb2 Bb1 Bb2) as [L' R'].
    split; [| apply (round_aux_range _ _ _ _ (Pos2Z.is_nonneg _) L R)].
    apply (round_aux_mono _ _ _ _ _ _ _ _ (Pos2Z.is_nonneg _) L R (Pos2Z.is_nonneg _) L' R').
    pose proof (ValueFacts.le_of_leb _ _ _ _ Ba1 Bb1 H1).
    pose proof (ValueFacts.le_of_leb _ _ _ _ Ba2 Bb2 H2).
    pose proof (ValueFacts.above_zero ma1 ea1). pose proof (ValueFacts.above_zero ma2 ea2).
    nra.
Qed.

Lemma zero_le (s : bool) (y : spec_float) :
  SFleb (S754_zero s) y = SFleb (S754_zero false) y.
Proof. destruct y; reflexivity. Qed.

Lemma div_finite_range (ma : positive) (ea : Z) (mc : positive) (ec : Z) :
  SFleb (S754_zero false)
        (SF64div (S754_finite false ma ea) (S754_finite false mc ec)) = true /\
  SFleb (SF64div (S754_finite false ma ea) (S754_finite false mc ec))
        (S754_infinity false) = true.
Proof.
  unfold SF64div. cbn [SFdiv xorb].
  destruct (CoreFacts.div_at ma ea mc ec) as (mz & ez & lz & -> & Hm & L & R).
  apply (round_aux_range _ _ _ _ Hm L R).
Qed.

Lemma div_finite_mono (ma : positive) (ea : Z) (mc : positive) (ec : Z)
    (mb : positive) (eb : Z) (mc' : positive) (ec' : Z) :
  (val ma ea / val mc ec <= val mb eb / val mc' ec')%R ->
  SFleb (SF64div (S754_finite false ma ea) (S754_finite false mc ec))
        (SF64div (S754_finite false mb eb) (S754_finite false mc' ec')) = true.
Proof.
  intros Hq. unfold SF64div. cbn [SFdiv xorb].
  destruct (CoreFacts.div_at ma ea mc ec) as (mz & ez & lz & -> & Hm & L & R).
  destruct (CoreFacts.div_at mb eb mc' ec') as (mz' & ez' & lz' & -> & Hm' & L' & R').
  apply (round_aux_mono _ _ _ _ _ _ _ _ Hm L R Hm' L' R' Hq).
Qed.

(** Division is monotone in the dividend and antitone in the divisor, for
    a dividend not below zero and finite divisors above zero. *)
Lemma div_mono (a b c c' : float) :
  PrimFloat.leb 0 a = true -> PrimFloat.leb a b = true ->
  PrimFloat.ltb 0 c' = true -> PrimFloat.leb c' c = true -> is_finite c = true ->
  PrimFloat.leb (a / c) (b / c') = true /\ PrimFloat.leb 0 (a / c) = true.
Proof.
  intros Ha Hab Hc' Hcc Hf.
  pose proof (not_below_zero_le a b Ha Hab) as Hb.
  pose proof (above_zero_le c' c Hc' Hcc) as Hc.
  destruct (finite_view c Hc Hf) as (mc & ec & C & Bc).
  pose proof (not_below_zero_view a Ha) as Va.
  pose proof (not_below_zero_view b Hb) as Vb.
  rewrite !leb_spec in *. rewrite !div_spec.
  change (Prim2SF 0) with (S754_zero false).
  destruct (above_zero_view c' Hc') as [C' | (mc' & ec' & C' & Bc')];
    rewrite C, C' in *; [discriminate |].
  pose proof (ValueFacts.le_of_leb _ _ _ _ Bc' Bc Hcc) as Vc.
  pose proof (ValueFacts.above_zero mc ec) as Pc.
  pose proof (ValueFacts.above_zero mc' ec') as Pc'.
  destruct Va as [[sa A] | [A | (ma & ea & A & Ba)]];
    destruct Vb as [[sb B] | [B | (mb & eb & B & Bb)]];
    rewrite A, B in *; try discriminate.
  - unfold SF64div; cbn [SFdiv xorb]. destruct sa, sb; split; reflexivity.
  - unfold SF64div; cbn [SFdiv xorb]. destruct sa; split; reflexivity.
  - split.
    + replace (SF64div (S754_zero sa) (S754_finite false mc ec))
        with (S754_zero (xorb sa false)) by reflexivity.
      rewrite zero_le. apply div_finite_range.
    + unfold SF64div; cbn [SFdiv xorb]. destruct sa; reflexivity.
  - unfold SF64div; cbn [SFdiv xorb]. split; reflexivity.
  - split; [| apply div_finite_range].
    replace (SF64div (S754_infinity false) (S754_finite false mc' ec'))
      with (S754_infinity false) by reflexivity.
    apply div_finite_range.
  - split; [| apply div_finite_range].
    apply div_finite_mono.
    pose proof (ValueFacts.le_of_leb _ _ _ _ Ba Bb Hab) as Vab.
    pose proof (ValueFacts.above_zero ma ea). pose proof (ValueFacts.above_zero mb eb).
    apply Rle_trans with (val mb eb / val mc ec)%R.
    + unfold Rdiv. apply Rmult_le_compat_r; [| exact Vab].
      apply Rlt_le, Rinv_0_lt_compat. exact Pc.
    + unfold Rdiv. apply Rmult_le_compat_l; [lra |].
      apply Rinv_le_contravar; assumption.
Qed.

Lemma sqrt_finite_range (m : positive) (e : Z) :
  SFleb (S754_zero false) (SF64sqrt (S754_finite false m e)) = true /\
  SFleb (SF64sqrt (S754_finite false m e)) (S754_infinity false) = true.
Proof.
  unfold SF64sqrt. cbn [SFsqrt].
  destruct (CoreFacts.sqrt_at m e) as (mz & ez & lz & -> & Hm & L & R).
  apply (round_aux_range _ _ _ _ Hm L R).
Qed.

Lemma sqrt_finite_mono (ma : positive) (ea : Z) (mb : positive) (eb : Z) :
  (val ma ea <= val mb eb)%R ->
  SFleb (SF64sqrt (S754_finite false ma ea)) (SF64sqrt (S754_finite false mb eb)) = true.
Proof.
  intros Hq. unfold SF64sqrt. cbn [SFsqrt].
  destruct (CoreFacts.sqrt_at ma ea) as (mz & ez & lz & -> & Hm & L & R).
  destruct (CoreFacts.sqrt_at mb eb) as (mz' & ez' & lz' & -> & Hm' & L' & R').
  apply (round_aux_mono _ _ _ _ _ _ _ _ Hm L R Hm' L' R').
  apply sqrt_le_1_alt. exact Hq.
Qed.

(** The square root is monotone on floats not below zero. *)
Lemma sqrt_mono (a b : float) :
  PrimFloat.leb 0 a = true -> PrimFloat.leb a b = true ->
  PrimFloat.leb (PrimFloat.sqrt a) (PrimFloat.sqrt b) = true /\
  PrimFloat.leb 0 (PrimFloat.sqrt a) = true.
Proof.
  intros Ha Hab.
  pose proof (not_below_zero_le a b Ha Hab) as Hb.
  pose proof (not_below_zero_view a Ha) as Va.
  pose proof (not_below_zero_view b Hb) as Vb.
  rewrite !leb_spec in *. rewrite !sqrt_spec.
  change (Prim2SF 0) with (S754_zero false).
  destruct Va as [[sa A] | [A | (ma & ea & A & Ba)]];
    destruct Vb as [[sb B] | [B | (mb & eb & B & Bb)]];
    rewrite A, B in *; try discriminate.
  - unfold SF64sqrt; cbn [SFsqrt]. destruct sa, sb; split; reflexivity.
  - unfold SF64sqrt; cbn [SFsqrt]. destruct sa; split; reflexivity.
  - split.
    + replace (SF64sqrt (S754_zero sa)) with (S754_zero sa) by reflexivity.
      rewrite zero_le. apply sqrt_finite_range.
    + unfold SF64sqrt; cbn [SFsqrt]. destruct sa; reflexivity.
  - unfold SF64sqrt; cbn [SFsqrt]. split; reflexivity.
  - split; [| apply sqrt_finite_range].
    replace (SF64sqrt (S754_infinity false)) with (S754_infinity false) by reflexivity.
    apply sqrt_finite_range.
  - split; [| apply sqrt_finite_range].
    apply sqrt_finite_mono. apply (ValueFacts.le_of_leb _ _ _ _ Ba Bb Hab).
Qed.

End F64Order.

(** ** binary64: the radius in the wavelength and the distance *)

Module F64Radius.

Local Open Scope float_scope.

Import F64Order.

Lemma of_positive (f d : float) :
  PrimFloat.ltb 0 f = true -> PrimFloat.ltb 0 d = true ->
  calculateMaxFresnelRadius f d = PrimFloat.sqrt (300000000 / f * d / 4).
Proof.
  intros Hf Hd. unfold calculateMaxFresnelRadius.
  change (leb f (lit 0)) with (PrimFloat.leb f PrimFloat.zero).
  change (leb d (lit 0)) with (PrimFloat.leb d PrimFloat.zero).
  rewrite (@F64Facts.gt0_not_le0 f Hf), (@F64Facts.gt0_not_le0 d Hd).
  reflexivity.
Qed.

Lemma leb_refl (x : float) : PrimFloat.ltb 0 x = true -> PrimFloat.leb x x = true.
Proof.
  intros Hx. rewrite leb_spec.
  destruct (above_zero_view x Hx) as [E | (m & e & E & _)]; rewrite E.
  - reflexivity.
  - apply RoundFacts.finite_le. right. split; lia.
Qed.

(** No finite float is above [Number.MAX_VALUE]. *)
Lemma le_max (x : float) :
  PrimFloat.ltb 0 x = true -> is_finite x = true ->
  PrimFloat.leb x 0x1.fffffffffffffp+1023 = true.
Proof.
  intros Hx Hf. destruct (finite_view x Hx Hf) as (m & e & E & B).
  rewrite leb_spec, E.
  change (Prim2SF 0x1.fffffffffffffp+1023)
    with (S754_finite false 9007199254740991 971).
  destruct (ValueFacts.canonical m e B) as [C He].
  destruct (DigitFacts.Zbounds (Z.pos m) ltac:(lia)) as [[L U] D].
  apply RoundFacts.finite_le.
  destruct (Z.eq_dec e 971) as [E971 | N]; [right | left; lia].
  split; [exact E971 |].
  assert (Zdigits2 (Z.pos m) <= 53)%Z by (fx; lia).
  assert (2 ^ Zdigits2 (Z.pos m) <= 2 ^ 53)%Z by (apply Z.pow_le_mono_r; lia).
  lia.
Qed.

(** The wavelength of a finite frequency above zero is above zero, and
    longer at a lower frequency. *)
Lemma wavelength_mono (f f' : float) :
  PrimFloat.ltb 0 f = true -> PrimFloat.leb f f' = true -> is_finite f' = true ->
  PrimFloat.leb (300000000 / f') (300000000 / f) = true /\
  PrimFloat.ltb 0 (300000000 / f') = true.
Proof.
  intros Hf Hff Hfin.
  pose proof (above_zero_le f f' Hf Hff) as Hf'.
  split.
  - apply (div_mono 300000000 300000000 f' f); try assumption; reflexivity.
  - apply (above_zero_le (300000000 / 0x1.fffffffffffffp+1023)); [reflexivity |].
    apply (div_mono 300000000 300000000 0x1.fffffffffffffp+1023 f');
      try assumption; try reflexivity.
    apply le_max; assumption.
Qed.

(** The radius is monotone in the wavelength and in the distance. *)
Lemma radius_mono (w w' d d' : float) :
  PrimFloat.ltb 0 w = true -> PrimFloat.leb w w' = true ->
  PrimFloat.ltb 0 d = true -> PrimFloat.leb d d' = true ->
  PrimFloat.leb (PrimFloat.sqrt (w * d / 4)) (PrimFloat.sqrt (w' * d' / 4)) = true /\
  PrimFloat.leb 0 (PrimFloat.sqrt (w * d / 4)) = true.
Proof.
  intros Hw Hww Hd Hdd.
  destruct (mul_mono w w' d d' Hw Hww Hd Hdd) as [M M0].
  destruct (div_mono (w * d) (w' * d') 4 4 M0 M) as [D D0]; try reflexivity.
  apply sqrt_mono; assumption.
Qed.

(** No float above zero is below the least one, 2^-1074. *)
Lemma least_positive (x : float) :
  PrimFloat.ltb 0 x = true -> PrimFloat.leb 0x1p-1074 x = true.
Proof.
  intros Hx. rewrite leb_spec.
  change (Prim2SF 0x1p-1074) with (S754_finite false 1 (-1074)).
  destruct (above_zero_view x Hx) as [E | (m & e & E & B)]; rewrite E; [reflexivity |].
  destruct (ValueFacts.canonical m e B) as [C _].
  apply RoundFacts.finite_le.
  destruct (Z.eq_dec e (-1074)) as [-> | N]; [right; split; lia | left; fx; lia].
Qed.

(** The square root of a float not below zero is above zero exactly when
    the float is. *)
Lemma sqrt_sign (x : float) :
  PrimFloat.leb 0 x = true ->
  PrimFloat.ltb 0 (PrimFloat.sqrt x) = PrimFloat.ltb 0 x.
Proof.
  intros Hx. destruct (PrimFloat.ltb 0 x) eqn:Hp.
  - apply (above_zero_le (PrimFloat.sqrt 0x1p-1074)); [reflexivity |].
    apply sqrt_mono; [reflexivity | apply least_positive; exact Hp].
  - rewrite ltb_spec in *. rewrite sqrt_spec.
    change (Prim2SF 0) with (S754_zero false) in *.
    destruct (not_below_zero_view x Hx) as [[s E] | [E | (m & e & E & _)]];
      rewrite E in *; try discriminate.
    destruct s; reflexivity.
Qed.

(** [rSquared] is not below zero. *)
Lemma radicand_sign (w d : float) :
  PrimFloat.ltb 0 w = true -> PrimFloat.ltb 0 d = true ->
  PrimFloat.leb 0 (w * d / 4) = true.
Proof.
  intros Hw Hd.
  destruct (mul_mono w w d d Hw (leb_refl w Hw) Hd (leb_refl d Hd)) as [M M0].
  apply (div_mono (w * d) (w * d) 4 4 M0 M); reflexivity.
Qed.

End F64Radius.

Set Implicit Arguments.

(** ** The Fresnel radius *)

(** C1, as the code has it.  On binary64, for every [frequencyHz > 0] and
    [distanceMeters > 0] [calculateMaxFresnelRadius] returns
    [sqrt((3e8 / frequencyHz) * distanceMeters / 4)], and it returns 0
    whenever [frequencyHz <= 0] or [distanceMeters <= 0]; for 5.8e9 Hz and
    1000 m the result is 3.596 to three decimals (3.5959747611403809). *)
Theorem calculateMaxFresnelRadius_reference :
  (forall frequencyHz distanceMeters : float,
      PrimFloat.ltb 0 frequencyHz = true ->
      PrimFloat.ltb 0 distanceMeters = true ->
      calculateMaxFresnelRadius frequencyHz distanceMeters
      = PrimFloat.sqrt (3e8 / frequencyHz * distanceMeters / 4)%float) /\
  (forall frequencyHz distanceMeters : float,
      PrimFloat.leb frequencyHz 0 = true \/ PrimFloat.leb distanceMeters 0 = true ->
      calculateMaxFresnelRadius frequencyHz distanceMeters = 0%float) /\
  quoted_to_3_decimals (calculateMaxFresnelRadius 5.8e9 1000)%float (decimal 3596 3) = true.
Proof.
  split; [| split].
  - intros f d Hf Hd. unfold calculateMaxFresnelRadius.
    change (leb f (lit 0)) with (PrimFloat.leb f PrimFloat.zero).
    change (leb d (lit 0)) with (PrimFloat.leb d PrimFloat.zero).
    rewrite (F64Facts.gt0_not_le0 Hf), (F64Facts.gt0_not_le0 Hd).
    reflexivity.
  - intros f d Hfd. unfold calculateMaxFresnelRadius.
    change (leb f (lit 0)) with (PrimFloat.leb f PrimFloat.zero).
    change (leb d (lit 0)) with (PrimFloat.leb d PrimFloat.zero).
    destruct Hfd as [E | E].
    + change (PrimFloat.leb f PrimFloat.zero = true) in E. rewrite E.
      reflexivity.
    + change (PrimFloat.leb d PrimFloat.zero = true) in E. rewrite E.
      rewrite orb_true_r. reflexivity.
  - vm_compute. reflexivity.
Qed.

(** The case of C1's worked example: the hypotheses hold at 5.8e9 Hz and
    1000 m, and at a zero distance. *)
Lemma calculateMaxFresnelRadius_reference_witness :
  calculateMaxFresnelRadius 5.8e9%float 1000%float
  = PrimFloat.sqrt (3e8 / 5.8e9 * 1000 / 4)%float
  /\ calculateMaxFresnelRadius 5.8e9%float 0%float = 0%float.
Proof.
  split.
  - apply (proj1 calculateMaxFresnelRadius_reference); reflexivity.
  - apply (proj1 (proj2 calculateMaxFresnelRadius_reference)).
    right. reflexivity.
Defined.

(** C1 as the specification words it fails on its worked example: the
    radius for 5.8e9 Hz and 1000 m is not 3.597 to three decimals. *)
Lemma calculateMaxFresnelRadius_not_3_597 :
  quoted_to_3_decimals (calculateMaxFresnelRadius 5.8e9 1000)%float (decimal 3597 3) = false.
Proof. vm_compute. reflexivity. Qed.

(** C6, as the code has it.  On binary64, for every finite
    [frequencyHz > 0] and every [distanceMeters > 0]: the radius is not
    below zero (so it is no NaN); it is above zero exactly when [rSquared]
    is, which it is from a distance of 2^-70 m on; it does not decrease
    when the distance grows and does not grow when the frequency grows.  In exact arithmetic the radius is
    strictly positive, strictly increasing in the distance and strictly
    decreasing in the frequency.  On binary64 the radius is never
    negative, whatever the arguments. *)
Theorem calculateMaxFresnelRadius_positive_monotone :
  (forall frequencyHz distanceMeters : float,
      PrimFloat.ltb 0 frequencyHz = true -> is_finite frequencyHz = true ->
      PrimFloat.ltb 0 distanceMeters = true ->
      PrimFloat.leb 0 (calculateMaxFresnelRadius frequencyHz distanceMeters) = true /\
      PrimFloat.ltb 0 (calculateMaxFresnelRadius frequencyHz distanceMeters)
      = PrimFloat.ltb 0 (3e8 / frequencyHz * distanceMeters / 4)%float /\
      (PrimFloat.leb 0x1p-70 distanceMeters = true ->
       PrimFloat.ltb 0 (calculateMaxFresnelRadius frequencyHz distanceMeters) = true) /\
      (forall farther : float,
          PrimFloat.leb distanceMeters farther = true ->
          PrimFloat.leb (calculateMaxFresnelRadius frequencyHz distanceMeters)
                        (calculateMaxFresnelRadius frequencyHz farther) = true) /\
      (forall higher : float,
          PrimFloat.leb frequencyHz higher = true -> is_finite higher = true ->
          PrimFloat.leb (calculateMaxFresnelRadius higher distanceMeters)
                        (calculateMaxFresnelRadius frequencyHz distanceMeters) = true)) /\
  (forall frequencyHz distanceMeters : R,
      (0 < frequencyHz)%R -> (0 < distanceMeters)%R ->
      (0 < calculateMaxFresnelRadius frequencyHz distanceMeters)%R /\
      (forall farther : R,
          (distanceMeters < farther)%R ->
          (calculateMaxFresnelRadius frequencyHz distanceMeters
           < calculateMaxFresnelRadius frequencyHz farther)%R) /\
      (forall higher : R,
          (frequencyHz < higher)%R ->
          (calculateMaxFresnelRadius higher distanceMeters
           < calculateMaxFresnelRadius frequencyHz distanceMeters)%R)) /\
  (forall frequencyHz distanceMeters : float,
      PrimFloat.ltb (calculateMaxFresnelRadius frequencyHz distanceMeters) 0 = false).
Proof.
  split; [| split].
  - intros f d Hf Hfin Hd.
    pose proof (F64Radius.leb_refl f Hf) as Rf.
    pose proof (F64Radius.leb_refl d Hd) as Rd.
    destruct (F64Radius.wavelength_mono f f Hf Rf Hfin) as [_ Hw].
    pose proof (F64Radius.leb_refl _ Hw) as Rw.
    rewrite (F64Radius.of_positive f d Hf Hd).
    split; [apply (F64Radius.radius_mono _ _ _ _ Hw Rw Hd Rd) |].
    split; [apply F64Radius.sqrt_sign, F64Radius.radicand_sign; assumption |].
    split; [| split].
    + intros Hmin.
      apply (F64Order.above_zero_le
               (PrimFloat.sqrt (300000000 / 0x1.fffffffffffffp+1023 * 0x1p-70 / 4)));
        [reflexivity |].
      apply F64Radius.radius_mono; try reflexivity; try assumption.
      apply (F64Order.div_mono 300000000 300000000 0x1.fffffffffffffp+1023 f);
        try assumption; try reflexivity.
      apply F64Radius.le_max; assumption.
    + intros d' Hdd.
      rewrite (F64Radius.of_positive f d' Hf (F64Order.above_zero_le d d' Hd Hdd)).
      apply (F64Radius.radius_mono _ _ _ _ Hw Rw Hd Hdd).
    + intros f' Hff Hfin'.
      rewrite (F64Radius.of_positive f' d (F64Order.above_zero_le f f' Hf Hff) Hd).
      destruct (F64Radius.wavelength_mono f f' Hf Hff Hfin') as [Hww Hw'].
      apply (F64Radius.radius_mono _ _ _ _ Hw' Hww Hd Rd).
  - intros f d Hf Hd.
    pose proof (ExactFacts.radicand_positive Hf Hd) as Hpos.
    rewrite (ExactFacts.radius_of_positive Hf Hd).
    split; [| split].
    + apply sqrt_lt_R0. exact Hpos.
    + intros d' Hd'.
      rewrite (ExactFacts.radius_of_positive Hf (Rlt_trans _ _ _ Hd Hd')).
      apply sqrt_lt_1_alt. split; [lra |].
      assert (0 < / f)%R by (apply Rinv_0_lt_compat; exact Hf).
      unfold Rdiv. apply Rmult_lt_compat_r; [lra |].
      apply Rmult_lt_compat_l; [| exact Hd'].
      apply Rmult_lt_0_compat; lra.
    + intros f' Hf'.
      rewrite (ExactFacts.radius_of_positive (Rlt_trans _ _ _ Hf Hf') Hd).
      apply sqrt_lt_1_alt. split.
      * left. apply ExactFacts.radicand_positive; lra.
      * assert (/ f' < / f)%R by (apply Rinv_lt_contravar;
          [apply Rmult_lt_0_compat; lra | exact Hf']).
        unfold Rdiv. apply Rmult_lt_compat_r; [lra |].
        apply Rmult_lt_compat_r; [exact Hd |].
        apply Rmult_lt_compat_l; lra.
  - intros f d. unfold calculateMaxFresnelRadius.
    destruct (leb f (lit 0) || leb d (lit 0)).
    + reflexivity.
    + apply F64Facts.sqrt_not_negative.
Qed.

(** C6 at work on binary64: at 5.8e9 Hz the radius for 1000 m is above
    zero and not above the one for 2000 m, and the radius at 11.6e9 Hz is
    not above the one at 5.8e9 Hz. *)
Lemma calculateMaxFresnelRadius_positive_monotone_witness :
  PrimFloat.ltb 0 (calculateMaxFresnelRadius 5.8e9 1000)%float = true /\
  PrimFloat.leb (calculateMaxFresnelRadius 5.8e9 1000)%float
                (calculateMaxFresnelRadius 5.8e9 2000)%float = true /\
  PrimFloat.leb (calculateMaxFresnelRadius 11.6e9 1000)%float
                (calculateMaxFresnelRadius 5.8e9 1000)%float = true.
Proof.
  destruct (proj1 calculateMaxFresnelRadius_positive_monotone
              5.8e9%float 1000%float eq_refl eq_refl eq_refl)
    as (_ & _ & Hpos & Hdist & Hfreq).
  split; [apply Hpos; reflexivity |].
  split; [apply Hdist; reflexivity | apply Hfreq; reflexivity].
Defined.

(** C6 as the specification words it fails on binary64, which is what the
    function receives.  [Infinity] is a frequency above zero, and one the
    prompt of [handleTowerClick] accepts: there the wavelength is 0 and so
    is the radius.  For the finite arguments 1e308 Hz and 5e-324 m the
    product of wavelength and distance underflows and the radius is 0.
    The distances 1000.0000000000001 m and 1000.0000000000002 m have the
    same radius at 5.8e9 Hz, and so have the frequencies 5.8e9 Hz and the
    next number above it at 1000 m: the radius is not strictly monotone. *)
Lemma calculateMaxFresnelRadius_not_strict_on_binary64 :
  (PrimFloat.ltb 0 infinity = true /\
   PrimFloat.ltb 0 1000 = true /\
   calculateMaxFresnelRadius infinity 1000%float = 0%float /\
   PrimFloat.ltb 0 (calculateMaxFresnelRadius infinity 1000%float) = false) /\
  (PrimFloat.ltb 0 0x1.1ccf385ebc8ap+1023 = true /\
   is_finite 0x1.1ccf385ebc8ap+1023 = true /\
   PrimFloat.ltb 0 0x1p-1074 = true /\
   is_finite 0x1p-1074 = true /\
   calculateMaxFresnelRadius 0x1.1ccf385ebc8ap+1023%float 0x1p-1074%float = 0%float /\
   PrimFloat.ltb 0 (calculateMaxFresnelRadius 0x1.1ccf385ebc8ap+1023%float
                                              0x1p-1074%float) = false) /\
  (PrimFloat.ltb 0x1.f400000000001p+9 0x1.f400000000002p+9 = true /\
   calculateMaxFresnelRadius 5.8e9%float 0x1.f400000000001p+9%float
   = calculateMaxFresnelRadius 5.8e9%float 0x1.f400000000002p+9%float /\
   PrimFloat.ltb (calculateMaxFresnelRadius 5.8e9%float 0x1.f400000000001p+9%float)
                 (calculateMaxFresnelRadius 5.8e9%float 0x1.f400000000002p+9%float)
   = false) /\
  (PrimFloat.ltb 5.8e9 0x1.59b4fa0000001p+32 = true /\
   calculateMaxFresnelRadius 0x1.59b4fa0000001p+32%float 1000%float
   = calculateMaxFresnelRadius 5.8e9%float 1000%float /\
   PrimFloat.ltb (calculateMaxFresnelRadius 0x1.59b4fa0000001p+32%float 1000%float)
                 (calculateMaxFresnelRadius 5.8e9%float 1000%float) = false).
Proof. vm_compute. repeat split. Qed.

(** ** Arrays *)

Module ArrayFacts.

Section Find.

Context {A : Type}.

Lemma find_from_found (p : A -> bool) (l : list A) (i k : nat) (a : A) :
  find_from p l i = Some (k, a) ->
  p a = true /\ (i <= k)%nat /\ nth_error l (k - i) = Some a.
Proof.
  revert i. induction l as [| b l IH]; intros i Hf; cbn in Hf.
  - discriminate.
  - destruct (p b) eqn:Hb.
    + injection Hf as <- <-. rewrite Nat.sub_diag. auto.
    + apply IH in Hf. destruct Hf as (Hp & Hle & Hn).
      repeat split; [exact Hp | lia |].
      replace (k - i)%nat with (S (k - S i)) by lia. exact Hn.
Qed.

Lemma find_ref_found (p : A -> bool) (l : list A) (k : nat) (a : A) :
  find_ref p l = Some (k, a) -> p a = true /\ nth_error l k = Some a.
Proof.
  intros Hf. apply find_from_found in Hf.
  rewrite Nat.sub_0_r in Hf. tauto.
Qed.

Lemma find_from_exists (p : A -> bool) (l : list A) (i : nat) (a : A) :
  In a l -> p a = true -> find_from p l i <> None.
Proof.
  revert i. induction l as [| b l IH]; intros i Hin Hp; cbn.
  - contradiction.
  - destruct (p b) eqn:Hb; [discriminate |].
    destruct Hin as [-> | Hin]; [congruence |].
    apply IH; assumption.
Qed.

Lemma find_from_app (p : A -> bool) (l l' : list A) (i : nat) :
  find_from p l i <> None -> find_from p (l ++ l') i = find_from p l i.
Proof.
  revert i. induction l as [| b l IH]; intros i Hf; cbn in *.
  - congruence.
  - destruct (p b); [reflexivity | apply IH; exact Hf].
Qed.

(** A write that keeps what [p] looks at does not move what [find]
    finds. *)
Lemma find_from_update (p : A -> bool) (f : A -> A) (l : list A) (n i : nat) :
  (forall a, p (f a) = p a) ->
  find_from p (update n f l) i
  = match find_from p l i with
    | Some (k, a) => Some (k, if Nat.eqb (k - i) n then f a else a)
    | None => None
    end.
Proof.
  intros Hp. revert n i. induction l as [| b l IH]; intros n i; cbn.
  - destruct n; reflexivity.
  - destruct n as [| n]; cbn.
    + rewrite Hp. destruct (p b).
      * rewrite Nat.sub_diag. reflexivity.
      * destruct (find_from p l (S i)) as [[k a] |] eqn:Hf; [| reflexivity].
        apply find_from_found in Hf. destruct Hf as (_ & Hle & _).
        replace (Nat.eqb (k - i) 0) with false; [reflexivity |].
        symmetry. apply Nat.eqb_neq. lia.
    + destruct (p b).
      * rewrite Nat.sub_diag. reflexivity.
      * rewrite IH.
        destruct (find_from p l (S i)) as [[k a] |] eqn:Hf; [| reflexivity].
        apply find_from_found in Hf. destruct Hf as (_ & Hle & _).
        replace (k - i)%nat with (S (k - S i)) by lia. reflexivity.
Qed.

Lemma update_length (f : A -> A) (l : list A) (n : nat) :
  List.length (update n f l) = List.length l.
Proof.
  revert n. induction l as [| b l IH]; intros [| n]; cbn; auto.
Qed.

Lemma nth_error_update (f : A -> A) (l : list A) (n k : nat) :
  nth_error (update n f l) k
  = if Nat.eqb k n then option_map f (nth_error l k) else nth_error l k.
Proof.
  revert n k. induction l as [| b l IH]; intros n k; cbn.
  - destruct n, k; cbn; try reflexivity; destruct (Nat.eqb k n); reflexivity.
  - destruct n as [| n], k as [| k]; cbn; try reflexivity. apply IH.
Qed.

End Find.

(** Towers related pairwise are found at the same place. *)
Lemma find_from_related {A : Type} (R : A -> A -> Prop) (p : A -> bool)
      (l l' : list A) (i : nat) :
  Forall2 R l l' ->
  (forall a a', R a a' -> p a' = p a) ->
  match find_from p l i, find_from p l' i with
  | Some (k, a), Some (k', a') => k' = k /\ R a a'
  | None, None => True
  | _, _ => False
  end.
Proof.
  intros HR Hp. revert i. induction HR as [| a a' l l' Ha HR IH]; intros i; cbn.
  - exact I.
  - rewrite (Hp _ _ Ha). destruct (p a); [split; [reflexivity | exact Ha] |].
    apply IH.
Qed.

End ArrayFacts.

(** ** Rendering *)

Module RenderFacts.

Section Generic.

Context {num : Type} `{JsNumber num} `{MathLib num} `{Leaflet num}.

(** With both towers in the collection, [drawFresnelZone] writes the
    attributes computed from them and touches nothing but the overlay. *)
Lemma draw_found (link : Link) (s : State num) (a b : nat) (towerA towerB : Tower num) :
  find_tower (towerAId link) s = Some (a, towerA) ->
  find_tower (towerBId link) s = Some (b, towerB) ->
  drawFresnelZone link s
  = Done (with_svgOverlay
            (Some (renderEllipse (fresnelEllipse (view s) towerA towerB)
                     (svgOverlay s))) s).
Proof. intros HA HB. unfold drawFresnelZone. rewrite HA, HB. reflexivity. Qed.

(** Without one of them it returns at once. *)
Lemma draw_missing (link : Link) (s : State num) :
  find_tower (towerAId link) s = None \/ find_tower (towerBId link) s = None ->
  drawFresnelZone link s = Done s.
Proof.
  intros [E | E]; unfold drawFresnelZone; rewrite E.
  - reflexivity.
  - destruct (find_tower (towerAId link) s) as [[a towerA] |]; reflexivity.
Qed.

(** It returns in every case. *)
Lemma draw_returns (link : Link) (s : State num) :
  exists s', drawFresnelZone link s = Done s'.
Proof.
  unfold drawFresnelZone.
  destruct (find_tower (towerAId link) s) as [[a towerA] |];
    [destruct (find_tower (towerBId link) s) as [[b towerB] |] |]; eauto.
Qed.

Lemma rendered_after_render (e : Ellipse num) (s : State num) :
  renderedEllipse (with_svgOverlay (Some (renderEllipse e (svgOverlay s))) s) = Some e.
Proof.
  unfold renderedEllipse, ellipses, renderEllipse. cbn.
  destruct (svgOverlay s) as [o |]; cbn; [destruct (shapes o) |]; reflexivity.
Qed.

(** The render writes to the ellipse that is there, and appends one only
    when there is none. *)
Lemma count_after_render (e : Ellipse num) (s : State num) :
  List.length (ellipses (with_svgOverlay (Some (renderEllipse e (svgOverlay s))) s))
  = Nat.max 1 (List.length (ellipses s)).
Proof.
  unfold ellipses, renderEllipse. cbn.
  destruct (svgOverlay s) as [o |]; cbn; [destruct (shapes o) |]; reflexivity.
Qed.

Lemma shown_after_render (e : Ellipse num) (s : State num) :
  ellipseShown (with_svgOverlay (Some (renderEllipse e (svgOverlay s))) s) = true.
Proof.
  unfold ellipseShown, renderEllipse. cbn.
  destruct (svgOverlay s) as [o |]; cbn; [destruct (shapes o) |]; reflexivity.
Qed.

(** Of tower B, only the position enters the attributes. *)
Lemma fresnelEllipse_towerB (v : MapView num) (towerA towerB towerB' : Tower num) :
  latlng towerB' = latlng towerB ->
  fresnelEllipse v towerA towerB' = fresnelEllipse v towerA towerB.
Proof. intros E. unfold fresnelEllipse. rewrite E. reflexivity. Qed.

End Generic.

End RenderFacts.

(** C3.  For every link whose two towers exist, the center ([cx], [cy]) of
    the rendered ellipse is the projection of the link's midpoint minus the
    current pixel origin, the midpoint being the arithmetic mean of the two
    latitudes and of the two longitudes.  This holds in every number
    system, binary64 included. *)
Theorem ellipse_center_is_projected_midpoint
    (num : Type) (N : JsNumber num) (M : MathLib num) (Lf : Leaflet num)
    (link : Link) (s : State num) (a b : nat) (towerA towerB : Tower num) :
  find_tower (towerAId link) s = Some (a, towerA) ->
  find_tower (towerBId link) s = Some (b, towerB) ->
  exists (s' : State num) (e : Ellipse num),
    drawFresnelZone link s = Done s' /\
    renderedEllipse s' = Some e /\
    let midpoint :=
      {| lat := (lat (latlng towerA) + lat (latlng towerB)) / lit 2;
         lng := (lng (latlng towerA) + lng (latlng towerB)) / lit 2 |}%js in
    cx e = (pt_x (latLngToLayerPoint (view s) midpoint)
            - pt_x (getPixelOrigin (view s)))%js /\
    cy e = (pt_y (latLngToLayerPoint (view s) midpoint)
            - pt_y (getPixelOrigin (view s)))%js.
Proof.
  intros HA HB. eexists. eexists.
  split; [apply (RenderFacts.draw_found _ _ HA HB) |].
  split; [apply RenderFacts.rendered_after_render |].
  split; reflexivity.
Qed.

(** C9, as the code has it.  When one of the link's towers is missing,
    [drawFresnelZone] returns normally and leaves the whole state as it
    was: it creates, changes and shows nothing, so what is displayed after
    the call is what was displayed before it. *)
Theorem drawFresnelZone_missing_tower_changes_nothing
    (num : Type) (N : JsNumber num) (M : MathLib num) (Lf : Leaflet num)
    (link : Link) (s : State num) :
  find_tower (towerAId link) s = None \/ find_tower (towerBId link) s = None ->
  drawFresnelZone link s = Done s /\
  (ellipseShown s = false ->
   forall s', drawFresnelZone link s = Done s' -> ellipseShown s' = false).
Proof.
  intros Hmiss. pose proof (RenderFacts.draw_missing link s Hmiss) as E.
  split; [exact E |].
  intros Hs s' Hd. rewrite E in Hd. injection Hd as <-. exact Hs.
Qed.

(** The failing case of C2: towers at identical coordinates.  With a link
    of length 0 in meters and in pixels, [metersPerPixel] is [0 / 0], and
    the [ry] written to the ellipse is NaN; [rx] is 0 and the overlay is
    displayed.  Whatever the [Math] functions and the projection are. *)
Theorem drawFresnelZone_identical_towers_ry_NaN
    (M : MathLib float) (Lf : Leaflet float)
    (link : Link) (s : State float) (a b : nat) (towerA towerB : Tower float) :
  find_tower (towerAId link) s = Some (a, towerA) ->
  find_tower (towerBId link) s = Some (b, towerB) ->
  latlng towerA = latlng towerB ->
  LatLng_distanceTo (latlng towerA) (latlng towerB) = 0%float ->
  Point_distanceTo (latLngToLayerPoint (view s) (latlng towerA))
                   (latLngToLayerPoint (view s) (latlng towerB)) = 0%float ->
  exists (s' : State float) (e : Ellipse float),
    drawFresnelZone link s = Done s' /\
    renderedEllipse s' = Some e /\
    rx e = 0%float /\ ry e = PrimFloat.nan /\
    ellipseShown s' = true.
Proof.
  intros HA HB _ Hmeters Hpixels. eexists. eexists.
  split; [apply (RenderFacts.draw_found _ _ HA HB) |].
  split; [apply RenderFacts.rendered_after_render |].
  split; [| split; [| apply RenderFacts.shown_after_render]].
  - unfold fresnelEllipse. cbn [rx]. rewrite Hpixels. reflexivity.
  - unfold fresnelEllipse. cbn [ry]. rewrite Hmeters, Hpixels.
    unfold calculateMaxFresnelRadius.
    replace (leb 0%float (lit 0)) with true by reflexivity.
    rewrite orb_true_r. reflexivity.
Qed.

Section SampleCases.

Local Existing Instance Sample.math.
Local Existing Instance Sample.leaflet.

(** C2 at work: two towers at the office location, linked; drawing the
    link writes [ry = NaN]. *)
Lemma drawFresnelZone_identical_towers_ry_NaN_witness :
  exists (s' : State float) (e : Ellipse float),
    drawFresnelZone Sample.linkL3 (Sample.planned Sample.office Sample.office) = Done s' /\
    renderedEllipse s' = Some e /\
    rx e = 0%float /\ ry e = PrimFloat.nan /\
    ellipseShown s' = true.
Proof.
  apply (@drawFresnelZone_identical_towers_ry_NaN Sample.math Sample.leaflet
           Sample.linkL3 (Sample.planned Sample.office Sample.office)
           0%nat 1%nat (Sample.towerT1 Sample.office) (Sample.towerT2 Sample.office));
    reflexivity.
Defined.

(** The handlers reach that state by themselves: two map clicks carrying
    the same position, a click on each tower with the prompt cancelled, a
    click on the link.  The bearing of the two identical points is 0 there
    (the rotation is -90), and [ry] is NaN. *)
Example identical_towers_reached :
  exists s : State float,
    run (initial Sample.view10k)
        [MapClick Sample.office; MapClick Sample.office;
         TowerClick 0 None; TowerClick 1 None; LinkClick 0] = Done s /\
    option_map (fun e => angle (transform e)) (renderedEllipse s) = Some (-90)%float /\
    option_map (@ry float) (renderedEllipse s) = Some PrimFloat.nan.
Proof. eexists. repeat split; vm_compute; reflexivity. Qed.

(** C3 at work: the link from the office to the point nearby, at 10000
    pixels to the degree. *)
Lemma ellipse_center_is_projected_midpoint_witness :
  exists (s' : State float) (e : Ellipse float),
    drawFresnelZone Sample.linkL3 (Sample.planned Sample.office Sample.nearby) = Done s' /\
    renderedEllipse s' = Some e /\
    cx e = 0x1.559000000008p+12%float /\ cy e = 710%float.
Proof.
  destruct (@ellipse_center_is_projected_midpoint float F64.number Sample.math
              Sample.leaflet Sample.linkL3
              (Sample.planned Sample.office Sample.nearby)
              0%nat 1%nat (Sample.towerT1 Sample.office) (Sample.towerT2 Sample.nearby)
              eq_refl eq_refl) as (s' & e & Hd & He & Hx & Hy).
  exists s', e. repeat split; assumption.
Defined.

(** C9 as the specification words it fails: after a render for the link
    L3, drawing a link whose first tower is missing returns and leaves the
    ellipse of L3 displayed. *)
Lemma drawFresnelZone_missing_tower_ellipse_still_shown :
  exists s : State float,
    drawFresnelZone Sample.linkL3 (Sample.planned Sample.office Sample.nearby) = Done s /\
    find_tower (towerAId Sample.dangling) s = None /\
    drawFresnelZone Sample.dangling s = Done s /\
    ellipseShown s = true.
Proof. eexists. repeat split; vm_compute; reflexivity. Qed.

(** C9 at work, on the state in which nothing is displayed yet. *)
Lemma drawFresnelZone_missing_tower_changes_nothing_witness :
  drawFresnelZone Sample.dangling (Sample.planned Sample.office Sample.nearby)
  = Done (Sample.planned Sample.office Sample.nearby).
Proof.
  apply (@drawFresnelZone_missing_tower_changes_nothing float F64.number
           Sample.math Sample.leaflet Sample.dangling
           (Sample.planned Sample.office Sample.nearby)).
  left. reflexivity.
Defined.

End SampleCases.

(** ** Exact arithmetic: the bearing *)

Module BearingFacts.

Import Exact.
Local Open Scope R_scope.

Lemma atan2_range (y x : R) : - PI < atan2 y x <= PI.
Proof.
  pose proof PI_RGT_0 as Hpi. pose proof (atan_bound (y / x)) as Hb.
  unfold atan2.
  destruct (Rlt_dec 0 x) as [Hx | Hx]; [lra |].
  destruct (Rlt_dec x 0) as [Hx' | Hx'].
  - destruct (Rle_dec 0 y) as [Hy | Hy].
    + assert (Hq : y / x <= 0).
      { unfold Rdiv. assert (/ x < 0) by (apply Rinv_lt_0_compat; exact Hx').
        nra. }
      assert (atan (y / x) <= 0).
      { destruct Hq as [Hq | Hq].
        - left. rewrite <- atan_0. apply atan_increasing. exact Hq.
        - rewrite Hq, atan_0. lra. }
      lra.
    + assert (Hq : 0 < y / x).
      { unfold Rdiv. assert (/ x < 0) by (apply Rinv_lt_0_compat; exact Hx').
        nra. }
      assert (0 < atan (y / x))
        by (rewrite <- atan_0; apply atan_increasing; exact Hq).
      lra.
  - destruct (Rlt_dec 0 y); [lra |]. destruct (Rlt_dec y 0); lra.
Qed.

Lemma Rrem_range (x y : R) : 0 <= x -> 0 < y -> 0 <= Rrem x y < y.
Proof.
  intros Hx Hy. unfold Rrem, Rtrunc.
  assert (Hq : 0 <= x / y).
  { unfold Rdiv. assert (0 < / y) by (apply Rinv_0_lt_compat; exact Hy). nra. }
  destruct (Rle_dec 0 (x / y)) as [_ | Hn]; [| contradiction].
  destruct (base_Int_part (x / y)) as [Hlo Hhi].
  assert (Ex : x = y * (x / y)) by (field; lra).
  set (q := x / y) in *. set (f := IZR (Int_part q)) in *.
  split; nra.
Qed.

(** One full turn leaves nothing, a turn and a quarter leaves the
    quarter. *)
Lemma Rrem_full_turn (r : R) : 0 <= r < 360 -> Rrem (r + 360) 360 = r.
Proof.
  intros Hr. unfold Rrem, Rtrunc.
  assert (Hq : 1 <= (r + 360) / 360 < 2) by (split; lra).
  destruct (Rle_dec 0 ((r + 360) / 360)) as [_ | Hn]; [| lra].
  destruct (base_Int_part ((r + 360) / 360)) as [Hlo Hhi].
  assert (Int_part ((r + 360) / 360) = 1)%Z as ->.
  { assert (Int_part ((r + 360) / 360) < 2)%Z by (apply lt_IZR; lra).
    assert (0 < Int_part ((r + 360) / 360))%Z by (apply lt_IZR; lra).
    lia. }
  lra.
Qed.

Lemma bearing_formula (pA pB : LatLng R) :
  bearing pA pB
  = let dLon := (lng pB - lng pA) * PI / 180 in
    let latA := lat pA * PI / 180 in
    let latB := lat pB * PI / 180 in
    let y := sin dLon * cos latB in
    let x := cos latA * sin latB - sin latA * cos latB * cos dLon in
    Rrem (atan2 y x * 180 / PI + 360) 360.
Proof. reflexivity. Qed.

Lemma degrees_range (y x : R) : -180 < atan2 y x * 180 / PI <= 180.
Proof.
  pose proof PI_RGT_0 as Hpi. pose proof (atan2_range y x) as [Hlo Hhi].
  assert (Hinv : 0 < / PI) by (apply Rinv_0_lt_compat; exact Hpi).
  assert (E : forall t, t * 180 / PI = 180 * (t * / PI)) by (intros; field; lra).
  rewrite E.
  assert (-1 < atan2 y x * / PI).
  { replace (-1) with (- PI * / PI) by (field; lra). nra. }
  assert (atan2 y x * / PI <= 1).
  { replace 1 with (PI * / PI) by (field; lra). nra. }
  lra.
Qed.

Lemma bearing_range (pA pB : LatLng R) : 0 <= bearing pA pB < 360.
Proof.
  rewrite bearing_formula. cbv zeta.
  match goal with
  | |- context [atan2 ?y ?x] => pose proof (degrees_range y x) as Hd
  end.
  apply Rrem_range; lra.
Qed.

Lemma bearing_identical (p : LatLng R) : bearing p p = 0.
Proof.
  rewrite bearing_formula. cbv zeta.
  replace ((lng p - lng p) * PI / 180) with 0 by (field; lra).
  rewrite sin_0, cos_0, Rmult_0_l.
  replace (cos (lat p * PI / 180) * sin (lat p * PI / 180) -
           sin (lat p * PI / 180) * cos (lat p * PI / 180) * 1) with 0 by ring.
  replace (atan2 0 0) with 0.
  - replace (0 * 180 / PI + 360) with (0 + 360) by (field; apply PI_neq0).
    apply Rrem_full_turn. lra.
  - unfold atan2. destruct (Rlt_dec 0 0); [lra | reflexivity].
Qed.

(** Due north, along a meridian, the bearing is 0. *)
Lemma bearing_north (latA latB lon : R) :
  latA < latB < latA + 180 ->
  bearing {| lat := latA; lng := lon |} {| lat := latB; lng := lon |} = 0.
Proof.
  intros Hl. pose proof PI_RGT_0 as Hpi.
  rewrite bearing_formula. cbn [lat lng]. cbv zeta.
  replace ((lon - lon) * PI / 180) with 0 by (field; lra).
  rewrite sin_0, cos_0, Rmult_0_l, Rmult_1_r.
  set (a := latA * PI / 180). set (b := latB * PI / 180).
  replace (cos a * sin b - sin a * cos b) with (sin (b - a))
    by (rewrite sin_minus; ring).
  assert (Hs : 0 < sin (b - a)).
  { apply sin_gt_0; unfold a, b.
    - assert (0 < (latB - latA) * PI / 180) by (apply Rdiv_lt_0_compat; nra).
      lra.
    - assert ((latB - latA) * PI / 180 < 180 * PI / 180)
        by (apply Rmult_lt_compat_r; [lra | nra]).
      lra. }
  replace (atan2 0 (sin (b - a))) with 0.
  - replace (0 * 180 / PI + 360) with (0 + 360) by (field; lra).
    apply Rrem_full_turn. lra.
  - unfold atan2. destruct (Rlt_dec 0 (sin (b - a))); [| contradiction].
    rewrite Rdiv_0_l, atan_0. reflexivity.
Qed.

(** Due east, along the equator, the bearing is 90. *)
Lemma bearing_east (lonA lonB : R) :
  lonA < lonB < lonA + 180 ->
  bearing {| lat := 0; lng := lonA |} {| lat := 0; lng := lonB |} = 90.
Proof.
  intros Hl. pose proof PI_RGT_0 as Hpi.
  rewrite bearing_formula. cbn [lat lng]. cbv zeta.
  replace (0 * PI / 180) with 0 by (field; lra).
  rewrite sin_0, cos_0.
  set (d := (lonB - lonA) * PI / 180).
  assert (Hs : 0 < sin d).
  { apply sin_gt_0; unfold d.
    - apply Rdiv_lt_0_compat; nra.
    - assert ((lonB - lonA) * PI / 180 < 180 * PI / 180)
        by (apply Rmult_lt_compat_r; [lra | nra]).
      lra. }
  replace (1 * 0 - 0 * 1 * cos d) with 0 by ring.
  rewrite Rmult_1_r.
  replace (atan2 (sin d) 0) with (PI / 2).
  - replace (PI / 2 * 180 / PI + 360) with (90 + 360) by (field; lra).
    apply Rrem_full_turn. lra.
  - unfold atan2. destruct (Rlt_dec 0 0); [lra |].
    destruct (Rlt_dec 0 (sin d)); [reflexivity | contradiction].
Qed.

End BearingFacts.

(** ** binary64: the bearing of a point to itself *)

Module F64Bearing.

Local Open Scope float_scope.

(** With the special values ECMAScript fixes for [Math.sin], [Math.cos]
    and [Math.atan2], and a finite product of cosine and sine of the
    latitude, the bearing from a point of finite longitude to itself
    is +0. *)
Lemma bearing_identical_binary64 (M : MathLib float) (p : LatLng float) :
  Math_PI = 0x1.921fb54442d18p+1 ->
  Math_sin 0 = 0 -> Math_cos 0 = 1 ->
  Math_atan2 0 0 = 0 -> Math_atan2 neg_zero 0 = neg_zero ->
  is_finite (lng p) = true ->
  is_finite (Math_cos (toRad (lat p)) * Math_sin (toRad (lat p))) = true ->
  bearing p p = 0.
Proof.
  intros Hpi Hsin Hcos Hat Hat' Hlng Hprod.
  unfold bearing. cbv zeta.
  set (c := Math_cos (toRad (lat p))) in *.
  set (s := Math_sin (toRad (lat p))) in *.
  assert (Ed : toRad (sub (lng p) (lng p)) = 0).
  { unfold toRad. cbn [sub mul div lit F64.number].
    rewrite (F64Facts.sub_diag _ Hlng), Hpi. reflexivity. }
  rewrite Ed, Hsin, Hcos.
  cbn [sub mul div add rem lit F64.number].
  rewrite (F64Facts.mul_comm s c), F64Facts.mul_1_r, (F64Facts.sub_diag _ Hprod).
  rewrite Hpi.
  destruct (@F64Facts.zero_mul c (@F64Facts.finite_mul_l c s Hprod)) as [E | E];
    rewrite E.
  - rewrite Hat. reflexivity.
  - rewrite Hat'. reflexivity.
Qed.

End F64Bearing.

(** ** Rotation and semi-axes *)

(** C4.  For every link whose two towers exist, the ellipse is rotated by
    [bearing - 90] degrees about its center ([cx], [cy]), in every number
    system; [bearing] is the atan2 formula of the initial bearing from
    tower A to tower B, reduced modulo 360.  In exact arithmetic the
    bearing lies in [0, 360), it is 0 for identical points, 0 due north
    and 90 due east.  On binary64 the bearing of identical points is 0
    too, for every [Math] implementation that has the special values
    ECMAScript fixes. *)
Theorem ellipse_rotation_is_bearing_minus_90 :
  (forall (num : Type) (N : JsNumber num) (M : MathLib num) (Lf : Leaflet num)
          (link : Link) (s : State num) (a b : nat) (towerA towerB : Tower num),
      find_tower (towerAId link) s = Some (a, towerA) ->
      find_tower (towerBId link) s = Some (b, towerB) ->
      exists (s' : State num) (e : Ellipse num),
        drawFresnelZone link s = Done s' /\
        renderedEllipse s' = Some e /\
        angle (transform e) = (bearing (latlng towerA) (latlng towerB) - lit 90)%js /\
        about_x (transform e) = cx e /\ about_y (transform e) = cy e) /\
  (forall (num : Type) (N : JsNumber num) (M : MathLib num) (pA pB : LatLng num),
      bearing pA pB
      = (let dLon := (lng pB - lng pA) * Math_PI / lit 180 in
         let latA := lat pA * Math_PI / lit 180 in
         let latB := lat pB * Math_PI / lit 180 in
         let y := Math_sin dLon * Math_cos latB in
         let x := Math_cos latA * Math_sin latB
                  - Math_sin latA * Math_cos latB * Math_cos dLon in
         (Math_atan2 y x * lit 180 / Math_PI + lit 360) mod lit 360)%js) /\
  (forall pA pB : LatLng R, (0 <= bearing pA pB < 360)%R) /\
  (forall p : LatLng R, bearing p p = 0%R) /\
  (forall latA latB lon : R,
      (latA < latB < latA + 180)%R ->
      bearing {| lat := latA; lng := lon |} {| lat := latB; lng := lon |} = 0%R) /\
  (forall lonA lonB : R,
      (lonA < lonB < lonA + 180)%R ->
      bearing {| lat := 0%R; lng := lonA |} {| lat := 0%R; lng := lonB |} = 90%R) /\
  (forall (M : MathLib float) (p : LatLng float),
      Math_PI = 0x1.921fb54442d18p+1%float ->
      Math_sin 0%float = 0%float ->
      Math_cos 0%float = 1%float ->
      Math_atan2 0%float 0%float = 0%float ->
      Math_atan2 neg_zero 0%float = neg_zero ->
      is_finite (lng p) = true ->
      is_finite (Math_cos (toRad (lat p)) * Math_sin (toRad (lat p)))%float = true ->
      bearing p p = 0%float).
Proof.
  split; [| split; [| split; [| split; [| split; [| split]]]]].
  - intros num N M Lf link s a b towerA towerB HA HB. eexists. eexists.
    split; [apply (RenderFacts.draw_found _ _ HA HB) |].
    split; [apply RenderFacts.rendered_after_render |].
    repeat split.
  - reflexivity.
  - exact BearingFacts.bearing_range.
  - exact BearingFacts.bearing_identical.
  - exact BearingFacts.bearing_north.
  - exact BearingFacts.bearing_east.
  - exact F64Bearing.bearing_identical_binary64.
Qed.

(** C5.  For every link whose two towers exist, [rx] is half the pixel
    distance between the two projected towers and [ry] is the Fresnel
    radius divided by [distanceMeters / lengthPixels], in every number
    system; in exact arithmetic, the two projections being apart, that is
    the radius multiplied by the scale [lengthPixels / distanceMeters]. *)
Theorem ellipse_semi_axes :
  (forall (num : Type) (N : JsNumber num) (M : MathLib num) (Lf : Leaflet num)
          (link : Link) (s : State num) (a b : nat) (towerA towerB : Tower num),
      find_tower (towerAId link) s = Some (a, towerA) ->
      find_tower (towerBId link) s = Some (b, towerB) ->
      exists (s' : State num) (e : Ellipse num),
        drawFresnelZone link s = Done s' /\
        renderedEllipse s' = Some e /\
        let distanceMeters := LatLng_distanceTo (latlng towerA) (latlng towerB) in
        let lengthPixels :=
          Point_distanceTo (latLngToLayerPoint (view s) (latlng towerA))
                           (latLngToLayerPoint (view s) (latlng towerB)) in
        let maxFresnelRadius :=
          calculateMaxFresnelRadius (frequencyGHz towerA * lit 1000000000)%js
                                    distanceMeters in
        rx e = (lengthPixels / lit 2)%js /\
        ry e = (maxFresnelRadius / (distanceMeters / lengthPixels))%js) /\
  (forall (M : MathLib R) (Lf : Leaflet R)
          (link : Link) (s : State R) (a b : nat) (towerA towerB : Tower R),
      find_tower (towerAId link) s = Some (a, towerA) ->
      find_tower (towerBId link) s = Some (b, towerB) ->
      Point_distanceTo (latLngToLayerPoint (view s) (latlng towerA))
                       (latLngToLayerPoint (view s) (latlng towerB)) <> 0%R ->
      exists (s' : State R) (e : Ellipse R),
        drawFresnelZone link s = Done s' /\
        renderedEllipse s' = Some e /\
        let distanceMeters := LatLng_distanceTo (latlng towerA) (latlng towerB) in
        let lengthPixels :=
          Point_distanceTo (latLngToLayerPoint (view s) (latlng towerA))
                           (latLngToLayerPoint (view s) (latlng towerB)) in
        let maxFresnelRadius :=
          calculateMaxFresnelRadius (frequencyGHz towerA * 1000000000)%R
                                    distanceMeters in
        rx e = (lengthPixels / 2)%R /\
        ry e = (maxFresnelRadius * (lengthPixels / distanceMeters))%R).
Proof.
  split.
  - intros num N M Lf link s a b towerA towerB HA HB. eexists. eexists.
    split; [apply (RenderFacts.draw_found _ _ HA HB) |].
    split; [apply RenderFacts.rendered_after_render |].
    split; reflexivity.
  - intros M Lf link s a b towerA towerB HA HB Hpx. eexists. eexists.
    split; [apply (RenderFacts.draw_found _ _ HA HB) |].
    split; [apply RenderFacts.rendered_after_render |].
    split; [reflexivity |].
    unfold fresnelEllipse. cbn [ry]. cbn [div mul Exact.number lit].
    unfold Rdiv. rewrite Rinv_mult, Rinv_inv.
    f_equal. apply Rmult_comm.
Qed.

Section SampleAxes.

Local Existing Instance Sample.math.
Local Existing Instance Sample.leaflet.

(** C4 at work: the link from the office to the point nearby, whose
    bearing in the sample environment is about 37.4 degrees. *)
Lemma ellipse_rotation_is_bearing_minus_90_witness :
  (exists (s' : State float) (e : Ellipse float),
      drawFresnelZone Sample.linkL3 (Sample.planned Sample.office Sample.nearby) = Done s' /\
      renderedEllipse s' = Some e /\
      angle (transform e) = (-0x1.a4d8857d8b748p+5)%float /\
      about_x (transform e) = cx e /\ about_y (transform e) = cy e) /\
  bearing Sample.office Sample.office = 0%float.
Proof.
  split; [| apply (proj2 (proj2 (proj2 (proj2 (proj2
                     (proj2 ellipse_rotation_is_bearing_minus_90)))))
                     Sample.math Sample.office); reflexivity].
  destruct (proj1 ellipse_rotation_is_bearing_minus_90 float F64.number Sample.math
              Sample.leaflet Sample.linkL3
              (Sample.planned Sample.office Sample.nearby)
              0%nat 1%nat (Sample.towerT1 Sample.office) (Sample.towerT2 Sample.nearby)
              eq_refl eq_refl) as (s' & e & Hd & He & Ha & Hx & Hy).
  exists s', e. repeat split; assumption.
Defined.

(** C5 at work, in exact arithmetic: the projections of the two sample
    towers are 5 pixels apart. *)
Lemma ellipse_semi_axes_witness :
  exists (s' : State R) (e : Ellipse R),
    drawFresnelZone Sample.linkL3 SampleExact.planned = Done s' /\
    renderedEllipse s' = Some e /\
    rx e = (Sample.pixelDistance
              (latLngToLayerPoint (view SampleExact.planned) (latlng SampleExact.towerT1))
              (latLngToLayerPoint (view SampleExact.planned) (latlng SampleExact.towerT2))
            / 2)%R.
Proof.
  destruct (proj2 ellipse_semi_axes Exact.math Sample.leaflet Sample.linkL3
              SampleExact.planned 0%nat 1%nat SampleExact.towerT1 SampleExact.towerT2
              eq_refl eq_refl) as (s' & e & Hd & He & Hx & _).
  - cbn. apply Rgt_not_eq. apply sqrt_lt_R0. lra.
  - exists s', e. repeat split; assumption.
Defined.

End SampleAxes.

(** ** The handlers *)

Module PlannerFacts.

Lemma map_update {A B : Type} (g : A -> B) (f : A -> A) (l : list A) (n : nat) :
  (forall a, g (f a) = g a) -> map g (update n f l) = map g l.
Proof.
  intros Hg. revert n. induction l as [| a l IH]; intros [| n]; cbn;
    try reflexivity.
  - rewrite Hg. reflexivity.
  - rewrite IH. reflexivity.
Qed.

Lemma in_update {A : Type} (f : A -> A) (l : list A) (n : nat) (x : A) :
  In x (update n f l) -> In x l \/ exists a, In a l /\ x = f a.
Proof.
  revert n. induction l as [| a l IH]; intros [| n] Hin; cbn in *;
    try contradiction.
  - destruct Hin as [<- | Hin]; [right; exists a; auto | auto].
  - destruct Hin as [<- | Hin]; [auto |].
    destruct (IH _ Hin) as [H | (a' & H & ->)]; [auto |].
    right. exists a'. auto.
Qed.

Section Generic.

Context {num : Type} `{JsNumber num} `{MathLib num} `{Leaflet num}.

Lemma find_tower_id (id : string) (s : State num) (k : nat) (t : Tower num) :
  find_tower id s = Some (k, t) -> tower_id t = id /\ nth_error (towers s) k = Some t.
Proof.
  intros Hf. apply ArrayFacts.find_ref_found in Hf. destruct Hf as [Hp Hn].
  apply String.eqb_eq in Hp. auto.
Qed.

Lemma find_tower_in (id : string) (s : State num) :
  In id (ids s) -> exists k t, find_tower id s = Some (k, t).
Proof.
  intros Hin. apply in_map_iff in Hin. destruct Hin as (t & Hid & Hin).
  assert (Hne : find_tower id s <> None).
  { apply ArrayFacts.find_from_exists with (a := t); [exact Hin |].
    apply String.eqb_eq. exact Hid. }
  destruct (find_tower id s) as [[k t'] |]; [eauto | congruence].
Qed.

Lemma found_in (id : string) (s : State num) (k : nat) (t : Tower num) :
  find_tower id s = Some (k, t) -> In id (ids s).
Proof.
  intros Hf. apply find_tower_id in Hf. destruct Hf as [<- Hn].
  apply in_map. eapply nth_error_In. exact Hn.
Qed.

(** Step 1 of [handleTowerClick] writes a frequency and nothing else. *)
Lemma editFrequency_frame (i : nat) (answer : option num) (s : State num) :
  let s1 := editFrequency i answer s in
  links s1 = links s /\ activeLinkPhase s1 = activeLinkPhase s /\
  selectedLink s1 = selectedLink s /\ nextId s1 = nextId s /\
  view s1 = view s /\ svgOverlay s1 = svgOverlay s /\ ids s1 = ids s.
Proof.
  unfold editFrequency, ids. destruct answer as [freq |]; cbn.
  - destruct (negb (isNaN freq) && ltb (lit 0) freq); cbn;
      repeat split; try reflexivity.
    apply map_update. reflexivity.
  - repeat split; reflexivity.
Qed.

(** What a click on a tower can do to the state: it never touches the
    selection, the view or the overlay, it keeps the towers' ids, and it
    leaves the links alone or appends one link between two different
    towers of the collection. *)
Lemma handleTowerClick_frame (i : nat) (answer : option num) (s s' : State num) :
  handleTowerClick i answer s = Done s' ->
  selectedLink s' = selectedLink s /\ view s' = view s /\
  svgOverlay s' = svgOverlay s /\ ids s' = ids s /\
  (links s' = links s \/
   exists l, links s' = links s ++ [l] /\
             className l = "leaflet-link-line"%string /\
             towerAId l <> towerBId l /\
             In (towerAId l) (ids s) /\ In (towerBId l) (ids s)).
Proof.
  unfold handleTowerClick.
  destruct (editFrequency_frame i answer s) as (El & Ea & Es & En & Ev & Eo & Ei).
  set (s1 := editFrequency i answer s) in *.
  destruct (nth_error (towers s1) i) as [tower |] eqn:Hi; [| discriminate].
  destruct (activeLinkPhase s1) as [first |] eqn:Hph.
  - destruct (String.eqb first (tower_id tower)) eqn:Hsame.
    + intros Hd. injection Hd as <-. unfold ids in *. cbn.
      repeat split; try assumption; [| auto].
      rewrite map_update; [exact Ei | reflexivity].
    + destruct (find_tower first s1) as [[a towerA] |] eqn:HA; [| discriminate].
      intros Hd. injection Hd as <-.
      destruct (find_tower_id _ _ HA) as [HidA _].
      destruct (eqb (frequencyGHz towerA) (frequencyGHz tower)); unfold ids in *; cbn.
      * repeat split; try assumption.
        -- rewrite map_update; [exact Ei | reflexivity].
        -- right. eexists. split; [rewrite El; reflexivity |]. cbn.
           split; [reflexivity |]. rewrite <- Ei. repeat split.
           ++ rewrite HidA. intros E. apply String.eqb_neq in Hsame. auto.
           ++ rewrite HidA. eapply found_in. exact HA.
           ++ apply in_map. eapply nth_error_In. exact Hi.
      * repeat split; try assumption; [| auto].
        rewrite map_update; [exact Ei | reflexivity].
  - intros Hd. injection Hd as <-. unfold ids in *. cbn.
    repeat split; try assumption; [| auto].
    rewrite map_update; [exact Ei | reflexivity].
Qed.

End Generic.

End PlannerFacts.

(** C7.  A click on a second tower whose frequency, once the prompt is
    answered, differs from the frequency of the pending first tower is
    rejected as a whole: the handler returns, [links] is as it was (no
    link is created and no id is used up), [selectedLink] is as it was,
    and [activeLinkPhase] is back to [null]. *)
Theorem frequency_mismatch_rejects_link
    (num : Type) (N : JsNumber num) (M : MathLib num) (Lf : Leaflet num)
    (s : State num) (i : nat) (answer : option num)
    (first : string) (towerB : Tower num) (a : nat) (towerA : Tower num) :
  activeLinkPhase s = Some first ->
  nth_error (towers (editFrequency i answer s)) i = Some towerB ->
  first <> tower_id towerB ->
  find_tower first (editFrequency i answer s) = Some (a, towerA) ->
  (frequencyGHz towerA =? frequencyGHz towerB)%js = false ->
  exists s' : State num,
    handleTowerClick i answer s = Done s' /\
    links s' = links s /\
    nextId s' = nextId s /\
    selectedLink s' = selectedLink s /\
    activeLinkPhase s' = None.
Proof.
  intros Hph Hi Hne HA Hfreq.
  destruct (PlannerFacts.editFrequency_frame i answer s)
    as (El & Ea & Es & En & _).
  unfold handleTowerClick. rewrite Hi, Ea, Hph.
  apply String.eqb_neq in Hne. rewrite Hne, HA, Hfreq.
  eexists. split; [reflexivity |]. cbn. auto.
Qed.

Section SampleLinks.

Local Existing Instance Sample.math.
Local Existing Instance Sample.leaflet.

(** C7 at work: T1 at 5.8 GHz is pending, T2 is clicked and retuned to
    2.4 GHz in the prompt. *)
Lemma frequency_mismatch_rejects_link_witness :
  exists s' : State float,
    handleTowerClick 1 (Some (decimal 24 1))
                     (Sample.pending Sample.office Sample.nearby) = Done s' /\
    links s' = [] /\
    nextId s' = 3%N /\
    selectedLink s' = None /\
    activeLinkPhase s' = None.
Proof.
  apply (@frequency_mismatch_rejects_link float F64.number Sample.math Sample.leaflet
           (Sample.pending Sample.office Sample.nearby) 1%nat (Some (decimal 24 1))
           "T1"%string
           {| tower_id := "T2"; latlng := Sample.nearby;
              frequencyGHz := decimal 24 1; borderColor := "" |}
           0%nat
           {| tower_id := "T1"; latlng := Sample.office;
              frequencyGHz := decimal 58 1; borderColor := "yellow" |});
    try reflexivity.
  discriminate.
Defined.

End SampleLinks.

(** ** Well-formed states are kept *)

Module Invariants.

Section Generic.

Context {num : Type} `{JsNumber num} `{MathLib num} `{Leaflet num}.

Lemma initial_wellFormed (v : MapView num) : wellFormed (initial v).
Proof.
  constructor; cbn.
  - intros l [].
  - discriminate.
  - lia.
  - congruence.
  - intros [| k] l; discriminate.
Qed.

(** Well-formedness looks at the links, the towers' ids, the selection
    and the overlay only. *)
Lemma wellFormed_ext (s s' : State num) :
  links s' = links s -> incl (ids s) (ids s') ->
  selectedLink s' = selectedLink s -> svgOverlay s' = svgOverlay s ->
  wellFormed s -> wellFormed s'.
Proof.
  intros El Ei Es Eo [Hl Hs Hc Ho Hh].
  constructor; unfold ellipses in *; rewrite ?El, ?Es, ?Eo; try assumption.
  intros l Hin. destruct (Hl l Hin) as (Hne & HA & HB). auto.
Qed.

(** A render on a well-formed state leaves exactly one ellipse. *)
Lemma one_after_render (e : Ellipse num) (s : State num) :
  (List.length (ellipses s) <= 1)%nat ->
  List.length (ellipses (with_svgOverlay (Some (renderEllipse e (svgOverlay s))) s))
  = 1%nat.
Proof. intros Hc. rewrite RenderFacts.count_after_render. lia. Qed.

Lemma wellFormed_render (e : Ellipse num) (s : State num) :
  wellFormed s ->
  wellFormed (with_svgOverlay (Some (renderEllipse e (svgOverlay s))) s).
Proof.
  intros [Hl Hs Hc Ho Hh]. pose proof (one_after_render e s Hc) as Hone.
  constructor.
  - exact Hl.
  - intros k Hk. split; [apply (Hs k Hk) | exact Hone].
  - rewrite Hone. lia.
  - intros _. exact Hone.
  - exact Hh.
Qed.

Lemma wellFormed_draw (link : Link) (s s' : State num) :
  wellFormed s -> drawFresnelZone link s = Done s' -> wellFormed s'.
Proof.
  intros Hwf. unfold drawFresnelZone.
  destruct (find_tower (towerAId link) s) as [[a towerA] |];
    [destruct (find_tower (towerBId link) s) as [[b towerB] |] |];
    intros Hd; injection Hd as <-; try exact Hwf.
  apply wellFormed_render. exact Hwf.
Qed.

(** The towers of a link of a well-formed state are found. *)
Lemma link_towers_found (s : State num) (link : Link) :
  wellFormed s -> In link (links s) ->
  towerAId link <> towerBId link /\
  exists a towerA b towerB,
    find_tower (towerAId link) s = Some (a, towerA) /\
    find_tower (towerBId link) s = Some (b, towerB).
Proof.
  intros Hwf Hin. destruct (wf_links Hwf link Hin) as (Hne & HA & HB).
  destruct (PlannerFacts.find_tower_in _ _ HA) as (a & towerA & EA).
  destruct (PlannerFacts.find_tower_in _ _ HB) as (b & towerB & EB).
  split; [exact Hne |]. exists a, towerA, b, towerB. auto.
Qed.

(** A click on a link of a well-formed state, in full. *)
Lemma handleLinkClick_result (j : nat) (link : Link) (s : State num) :
  wellFormed s -> nth_error (links s) j = Some link ->
  exists a towerA b towerB,
    find_tower (towerAId link) s = Some (a, towerA) /\
    find_tower (towerBId link) s = Some (b, towerB) /\
    handleLinkClick j s
    = Done {| towers := towers s; links := rehighlighted j s;
              activeLinkPhase := activeLinkPhase s; selectedLink := Some j;
              nextId := nextId s; view := view s;
              svgOverlay :=
                Some (renderEllipse (fresnelEllipse (view s) towerA towerB)
                        (svgOverlay s)) |}.
Proof.
  intros Hwf Hj.
  destruct (link_towers_found link Hwf (nth_error_In _ _ Hj))
    as (_ & a & towerA & b & towerB & EA & EB).
  exists a, towerA, b, towerB. split; [exact EA |]. split; [exact EB |].
  unfold handleLinkClick, rehighlighted. rewrite Hj.
  unfold drawFresnelZone, find_tower in *.
  destruct (selectedLink s) as [k |];
    cbn [towers with_links with_selectedLink]; rewrite EA, EB; reflexivity.
Qed.

Lemma rehighlighted_ids (j : nat) (s : State num) (l : Link) :
  In l (rehighlighted j s) ->
  exists l0, In l0 (links s) /\ towerAId l = towerAId l0 /\ towerBId l = towerBId l0.
Proof.
  unfold rehighlighted. intros Hin.
  apply PlannerFacts.in_update in Hin.
  assert (Hinner : forall x,
             In x (match selectedLink s with
                   | Some k => update k (set_className "leaflet-link-line") (links s)
                   | None => links s
                   end) ->
             exists l0, In l0 (links s) /\ towerAId x = towerAId l0
                        /\ towerBId x = towerBId l0).
  { intros x Hx. destruct (selectedLink s) as [k |].
    - apply PlannerFacts.in_update in Hx.
      destruct Hx as [Hx | (l0 & Hl0 & ->)]; [exists x; auto | exists l0; auto].
    - exists x; auto. }
  destruct Hin as [Hin | (x & Hx & ->)].
  - apply Hinner. exact Hin.
  - destruct (Hinner x Hx) as (l0 & Hl0 & EA & EB). exists l0. auto.
Qed.

Lemma rehighlighted_length (j : nat) (s : State num) :
  List.length (rehighlighted j s) = List.length (links s).
Proof.
  unfold rehighlighted. rewrite ArrayFacts.update_length.
  destruct (selectedLink s); [apply ArrayFacts.update_length | reflexivity].
Qed.

(** After the click only the [j]-th link is highlighted. *)
Lemma rehighlighted_only (j : nat) (s : State num) (m : nat) (l : Link) :
  wellFormed s ->
  nth_error (rehighlighted j s) m = Some l ->
  className l = "leaflet-link-line-selected"%string -> m = j.
Proof.
  intros Hwf Hm Hc. unfold rehighlighted in Hm.
  rewrite ArrayFacts.nth_error_update in Hm.
  destruct (Nat.eqb m j) eqn:Emj; [apply Nat.eqb_eq; exact Emj |].
  exfalso. destruct (selectedLink s) as [k |] eqn:Hsel.
  - rewrite ArrayFacts.nth_error_update in Hm.
    destruct (Nat.eqb m k) eqn:Emk.
    + destruct (nth_error (links s) m) as [l0 |]; [| discriminate].
      cbn in Hm. injection Hm as <-. cbn in Hc. discriminate.
    + pose proof (wf_highlight Hwf m Hm Hc) as Hk. rewrite Hsel in Hk.
      injection Hk as ->. rewrite Nat.eqb_refl in Emk. discriminate.
  - pose proof (wf_highlight Hwf m Hm Hc) as Hk. rewrite Hsel in Hk.
    discriminate.
Qed.

(** The old highlight is gone, the new one is there. *)
Lemma rehighlighted_at (j : nat) (link : Link) (s : State num) :
  nth_error (links s) j = Some link ->
  option_map className (nth_error (rehighlighted j s) j)
  = Some "leaflet-link-line-selected"%string /\
  (forall k, selectedLink s = Some k -> k <> j ->
             (k < List.length (links s))%nat ->
             option_map className (nth_error (rehighlighted j s) k)
             = Some "leaflet-link-line"%string).
Proof.
  intros Hj. unfold rehighlighted. split.
  - rewrite ArrayFacts.nth_error_update, Nat.eqb_refl.
    destruct (selectedLink s) as [k |].
    + rewrite ArrayFacts.nth_error_update, Hj.
      destruct (Nat.eqb j k); reflexivity.
    + rewrite Hj. reflexivity.
  - intros k Hk Hne Hlt. rewrite Hk.
    rewrite ArrayFacts.nth_error_update.
    replace (Nat.eqb k j) with false by (symmetry; apply Nat.eqb_neq; exact Hne).
    rewrite ArrayFacts.nth_error_update, Nat.eqb_refl.
    destruct (nth_error (links s) k) as [l0 |] eqn:Hl0; [reflexivity |].
    apply nth_error_None in Hl0. lia.
Qed.

Lemma wellFormed_handleLinkClick (j : nat) (s s' : State num) :
  wellFormed s -> handleLinkClick j s = Done s' -> wellFormed s'.
Proof.
  intros Hwf Hd.
  destruct (nth_error (links s) j) as [link |] eqn:Hj;
    [| unfold handleLinkClick in Hd; rewrite Hj in Hd; discriminate].
  destruct (handleLinkClick_result j Hwf Hj)
    as (a & towerA & b & towerB & _ & _ & E).
  rewrite E in Hd. injection Hd as <-.
  constructor; cbn [links towers selectedLink svgOverlay ellipses ids].
  - intros l Hin. apply rehighlighted_ids in Hin.
    destruct Hin as (l0 & Hl0 & -> & ->). apply (wf_links Hwf l0 Hl0).
  - intros k Hk. injection Hk as <-. split.
    + rewrite rehighlighted_length. apply nth_error_Some. congruence.
    + pose proof (wf_count Hwf) as Hc. unfold ellipses, renderEllipse in *.
      destruct (svgOverlay s) as [o |]; cbn; [| reflexivity].
      destruct (shapes o); cbn in *; [reflexivity | lia].
  - pose proof (wf_count Hwf) as Hc. unfold ellipses, renderEllipse in *.
    destruct (svgOverlay s) as [o |]; cbn; [| lia].
    destruct (shapes o); cbn in *; lia.
  - intros _. pose proof (wf_count Hwf) as Hc.
    unfold ellipses, renderEllipse in *.
    destruct (svgOverlay s) as [o |]; cbn; [| reflexivity].
    destruct (shapes o); cbn in *; [reflexivity | lia].
  - intros m l Hm Hc. f_equal. symmetry.
    eapply rehighlighted_only; eassumption.
Qed.

Lemma wellFormed_handleMapClick (ll : LatLng num) (s s' : State num) :
  wellFormed s -> handleMapClick ll s = Done s' -> wellFormed s'.
Proof.
  intros Hwf. unfold handleMapClick.
  destruct (activeLinkPhase s) as [first |]; intros Hd; injection Hd as <-.
  - destruct (find_tower first s) as [[a towerA] |];
      apply (wellFormed_ext (s := s)); try reflexivity; try exact Hwf;
      unfold ids; cbn; [| apply incl_refl].
    rewrite PlannerFacts.map_update; [apply incl_refl | reflexivity].
  - apply (wellFormed_ext (s := s)); try reflexivity; try exact Hwf.
    unfold ids, addTower. cbn. rewrite map_app. apply incl_appl, incl_refl.
Qed.

Lemma wellFormed_handleTowerClick (i : nat) (answer : option num) (s s' : State num) :
  wellFormed s -> handleTowerClick i answer s = Done s' -> wellFormed s'.
Proof.
  intros Hwf Hd.
  destruct (PlannerFacts.handleTowerClick_frame _ _ _ Hd)
    as (Es & Ev & Eo & Ei & [El | (l & El & Hc & Hne & HA & HB)]).
  - apply (wellFormed_ext (s := s)); try assumption.
    rewrite Ei. apply incl_refl.
  - constructor; unfold ellipses; rewrite ?El, ?Es, ?Eo, ?Ei.
    + intros l' Hin. apply in_app_or in Hin. destruct Hin as [Hin | [<- | []]].
      * apply (wf_links Hwf l' Hin).
      * auto.
    + intros k Hk. destruct (wf_selected Hwf Hk) as [Hlt Hone].
      split; [rewrite length_app; lia | exact Hone].
    + apply (wf_count Hwf).
    + apply (wf_overlay Hwf).
    + intros k l' Hk Hsel.
      destruct (Nat.lt_ge_cases k (List.length (links s))) as [Hlt | Hge].
      * rewrite nth_error_app1 in Hk by exact Hlt.
        apply (wf_highlight Hwf k Hk Hsel).
      * rewrite nth_error_app2 in Hk by exact Hge.
        destruct (k - List.length (links s))%nat as [| n]; cbn in Hk.
        -- injection Hk as <-. rewrite Hc in Hsel. discriminate.
        -- destruct n; discriminate.
Qed.

Lemma wellFormed_handleMoveEnd (v : MapView num) (s s' : State num) :
  wellFormed s -> handleMoveEnd v s = Done s' -> wellFormed s'.
Proof.
  intros Hwf. unfold handleMoveEnd.
  assert (Hwf1 : wellFormed (with_view v s))
    by (apply (wellFormed_ext (s := s)); try reflexivity;
        [apply incl_refl | exact Hwf]).
  destruct (selectedLink (with_view v s)) as [k |].
  - destruct (nth_error (links (with_view v s)) k) as [link |]; [| discriminate].
    apply wellFormed_draw. exact Hwf1.
  - intros Hd. injection Hd as <-. exact Hwf1.
Qed.

Lemma wellFormed_step (e : event num) (s s' : State num) :
  wellFormed s -> step s e = Done s' -> wellFormed s'.
Proof.
  destruct e; cbn.
  - apply wellFormed_handleMapClick.
  - apply wellFormed_handleTowerClick.
  - apply wellFormed_handleLinkClick.
  - apply wellFormed_handleMoveEnd.
Qed.

Lemma wellFormed_run (es : list (event num)) (s s' : State num) :
  wellFormed s -> run s es = Done s' -> wellFormed s'.
Proof.
  revert s. induction es as [| e es IH]; intros s Hwf; cbn.
  - intros Hd. injection Hd as <-. exact Hwf.
  - destruct (step s e) as [s1 | |] eqn:He; try discriminate.
    apply IH. eapply wellFormed_step; eassumption.
Qed.

(** Every state the page reaches is well-formed. *)
Lemma reachable_wellFormed (v : MapView num) (es : list (event num)) (s : State num) :
  run (initial v) es = Done s -> wellFormed s.
Proof. apply wellFormed_run. apply initial_wellFormed. Qed.

(** With one ellipse in the document, no handler makes a second one or
    removes the first. *)
Lemma one_ellipse_draw (link : Link) (s s' : State num) :
  List.length (ellipses s) = 1%nat -> drawFresnelZone link s = Done s' ->
  List.length (ellipses s') = 1%nat.
Proof.
  intros Hone. unfold drawFresnelZone.
  destruct (find_tower (towerAId link) s) as [[a towerA] |];
    [destruct (find_tower (towerBId link) s) as [[b towerB] |] |];
    intros Hd; injection Hd as <-; try exact Hone.
  rewrite RenderFacts.count_after_render, Hone. reflexivity.
Qed.

Lemma one_ellipse_step (e : event num) (s s' : State num) :
  List.length (ellipses s) = 1%nat -> step s e = Done s' ->
  List.length (ellipses s') = 1%nat.
Proof.
  intros Hone. destruct e as [ll | i answer | j | v]; cbn.
  - unfold handleMapClick.
    destruct (activeLinkPhase s) as [first |]; intros Hd; injection Hd as <-.
    + destruct (find_tower first s) as [[a towerA] |]; exact Hone.
    + exact Hone.
  - intros Hd. apply PlannerFacts.handleTowerClick_frame in Hd.
    destruct Hd as (_ & _ & Eo & _). unfold ellipses in *. rewrite Eo. exact Hone.
  - unfold handleLinkClick.
    destruct (nth_error (links s) j) as [link |]; [| discriminate].
    apply one_ellipse_draw. destruct (selectedLink s); exact Hone.
  - unfold handleMoveEnd.
    destruct (selectedLink (with_view v s)) as [k |].
    + destruct (nth_error (links (with_view v s)) k) as [link |]; [| discriminate].
      apply one_ellipse_draw. exact Hone.
    + intros Hd. injection Hd as <-. exact Hone.
Qed.

Lemma one_ellipse_run (es : list (event num)) (s s' : State num) :
  List.length (ellipses s) = 1%nat -> run s es = Done s' ->
  List.length (ellipses s') = 1%nat.
Proof.
  revert s. induction es as [| e es IH]; intros s Hone; cbn.
  - intros Hd. injection Hd as <-. exact Hone.
  - destruct (step s e) as [s1 | |] eqn:He; try discriminate.
    apply IH. eapply one_ellipse_step; eassumption.
Qed.

End Generic.

End Invariants.

(** ** One ellipse, one selection *)

(** C8.  In every state the page reaches: once the overlay exists (a
    render has succeeded) or a link is selected there is exactly one
    ellipse, and from a state with one ellipse every further run of events
    ends with exactly one.  Selecting a link L2 while L1 is
    selected writes L2's attributes to the ellipse that is there, puts
    L1's polyline back to the plain style, and leaves L2 the only selected
    and the only highlighted link. *)
Theorem one_ellipse_one_selection
    (num : Type) (N : JsNumber num) (M : MathLib num) (Lf : Leaflet num)
    (v : MapView num) (es : list (event num)) (s : State num) :
  run (initial v) es = Done s ->
  (svgOverlay s <> None \/ selectedLink s <> None ->
   List.length (ellipses s) = 1%nat) /\
  (List.length (ellipses s) = 1%nat ->
   forall (es' : list (event num)) (s' : State num),
     run s es' = Done s' -> List.length (ellipses s') = 1%nat) /\
  (forall (j1 j2 : nat) (l2 : Link),
      selectedLink s = Some j1 ->
      nth_error (links s) j2 = Some l2 ->
      j2 <> j1 ->
      exists (s' : State num) (a b : nat) (towerA towerB : Tower num) (e1 : Ellipse num),
        find_tower (towerAId l2) s = Some (a, towerA) /\
        find_tower (towerBId l2) s = Some (b, towerB) /\
        handleLinkClick j2 s = Done s' /\
        ellipses s = [e1] /\
        ellipses s' = [fresnelEllipse (view s) towerA towerB] /\
        option_map className (nth_error (links s') j1) = Some "leaflet-link-line"%string /\
        option_map className (nth_error (links s') j2)
        = Some "leaflet-link-line-selected"%string /\
        selectedLink s' = Some j2 /\
        (forall (k : nat) (l : Link),
            nth_error (links s') k = Some l ->
            className l = "leaflet-link-line-selected"%string -> k = j2)).
Proof.
  intros Hrun. pose proof (Invariants.reachable_wellFormed _ _ Hrun) as Hwf.
  split; [| split].
  - intros [Ho | Hs]; [apply (wf_overlay Hwf Ho) |].
    destruct (selectedLink s) as [k |] eqn:Hk; [| congruence].
    apply (wf_selected Hwf Hk).
  - intros Hone es' s' Hrun'. eapply Invariants.one_ellipse_run; eassumption.
  - intros j1 j2 l2 Hsel Hj2 Hne.
    destruct (Invariants.handleLinkClick_result j2 Hwf Hj2)
      as (a & towerA & b & towerB & EA & EB & E).
    destruct (wf_selected Hwf Hsel) as [Hlt Hone].
    destruct (ellipses s) as [| e1 [| e2 rest]] eqn:He; try discriminate.
    eexists. exists a, b, towerA, towerB, e1.
    split; [exact EA |]. split; [exact EB |]. split; [exact E |].
    split; [reflexivity |].
    destruct (Invariants.rehighlighted_at j2 s Hj2) as [Hnew Hold].
    cbn [links selectedLink]. repeat split.
    + unfold ellipses in *. cbn. unfold renderEllipse.
      destruct (svgOverlay s) as [o |]; [| discriminate].
      rewrite He. reflexivity.
    + apply Hold; [exact Hsel | congruence | exact Hlt].
    + exact Hnew.
    + intros k l Hk Hc. eapply Invariants.rehighlighted_only; eassumption.
Qed.

(** C10.  For a link of a state the page reaches, the render does not
    depend on the frequency of the link's second tower: in a state that
    differs only in that frequency, under the same view and with the same
    document, [drawFresnelZone] leaves the same overlay with the same
    ellipse. *)
Theorem ellipse_independent_of_towerB_frequency
    (num : Type) (N : JsNumber num) (M : MathLib num) (Lf : Leaflet num)
    (v : MapView num) (es : list (event num)) (s1 s2 : State num) (link : Link) :
  run (initial v) es = Done s1 ->
  In link (links s1) ->
  Forall2 (same_but_frequency_of (towerBId link)) (towers s1) (towers s2) ->
  view s2 = view s1 ->
  svgOverlay s2 = svgOverlay s1 ->
  exists (s1' s2' : State num) (e : Ellipse num),
    drawFresnelZone link s1 = Done s1' /\
    drawFresnelZone link s2 = Done s2' /\
    svgOverlay s2' = svgOverlay s1' /\
    renderedEllipse s1' = Some e /\
    renderedEllipse s2' = Some e.
Proof.
  intros Hrun Hin Hrel Ev Eo.
  pose proof (Invariants.reachable_wellFormed _ _ Hrun) as Hwf.
  destruct (Invariants.link_towers_found link Hwf Hin)
    as (Hne & a & towerA & b & towerB & EA & EB).
  assert (Hp : forall id (t t' : Tower num),
             same_but_frequency_of (towerBId link) t t' ->
             String.eqb (tower_id t') id = String.eqb (tower_id t) id).
  { intros id t t' (Hid & _). rewrite Hid. reflexivity. }
  pose proof (ArrayFacts.find_from_related
                (fun t => String.eqb (tower_id t) (towerAId link)) 0 Hrel
                (Hp (towerAId link))) as HrA.
  pose proof (ArrayFacts.find_from_related
                (fun t => String.eqb (tower_id t) (towerBId link)) 0 Hrel
                (Hp (towerBId link))) as HrB.
  unfold find_tower, find_ref in EA, EB. rewrite EA in HrA. rewrite EB in HrB.
  destruct (find_from _ (towers s2) 0) as [[a' towerA'] |] eqn:EA2 in HrA;
    [| contradiction].
  destruct (find_from _ (towers s2) 0) as [[b' towerB'] |] eqn:EB2 in HrB;
    [| contradiction].
  destruct HrA as (-> & HidA & HllA & HbcA & HfA).
  destruct HrB as (-> & _ & HllB & _).
  assert (EtA : towerA' = towerA).
  { destruct (PlannerFacts.find_tower_id (towerAId link) s1 EA) as [HA _].
    assert (frequencyGHz towerA' = frequencyGHz towerA)
      by (apply HfA; rewrite HA; exact Hne).
    destruct towerA, towerA'; cbn in *; congruence. }
  subst towerA'.
  exists (with_svgOverlay
            (Some (renderEllipse (fresnelEllipse (view s1) towerA towerB)
                     (svgOverlay s1))) s1).
  exists (with_svgOverlay
            (Some (renderEllipse (fresnelEllipse (view s2) towerA towerB')
                     (svgOverlay s2))) s2).
  exists (fresnelEllipse (view s1) towerA towerB).
  split; [apply (RenderFacts.draw_found link s1 EA EB) |].
  split; [apply (RenderFacts.draw_found link s2 EA2 EB2) |].
  rewrite Ev, Eo.
  rewrite (@RenderFacts.fresnelEllipse_towerB _ _ _ _ (view s1) towerA _ _ HllB).
  split; [reflexivity |].
  split; [apply RenderFacts.rendered_after_render |].
  rewrite <- Eo at 1. apply RenderFacts.rendered_after_render.
Qed.

Section SampleSessions.

Local Existing Instance Sample.math.
Local Existing Instance Sample.leaflet.

Lemma session_runs :
  run (initial Sample.view10k) Sample.session = Done Sample.firstSelected.
Proof. vm_compute. reflexivity. Defined.

Lemma plan_runs :
  run (initial Sample.view10k)
      [MapClick Sample.office; MapClick Sample.nearby;
       TowerClick 0 None; TowerClick 1 None]
  = Done (Sample.planned Sample.office Sample.nearby).
Proof. vm_compute. reflexivity. Defined.

(** C8 at work: in the sample session the link L4 is selected; a click on
    L5 moves the selection and the highlight and keeps the one ellipse. *)
Lemma one_ellipse_one_selection_witness :
  exists s' : State float,
    handleLinkClick 1 Sample.firstSelected = Done s' /\
    List.length (ellipses Sample.firstSelected) = 1%nat /\
    List.length (ellipses s') = 1%nat /\
    option_map className (nth_error (links s') 0) = Some "leaflet-link-line"%string /\
    option_map className (nth_error (links s') 1)
    = Some "leaflet-link-line-selected"%string /\
    selectedLink s' = Some 1%nat.
Proof.
  destruct (@one_ellipse_one_selection float F64.number Sample.math Sample.leaflet
              _ _ _ session_runs) as (Hone & _ & Hnext).
  destruct (Hnext 0%nat 1%nat
              {| link_id := "L5"; towerAId := "T2"; towerBId := "T3";
                 className := "leaflet-link-line" |}
              eq_refl eq_refl ltac:(discriminate))
    as (s' & a & b & towerA & towerB & e1 & _ & _ & Hd & _ & He & H0s & H1s & Hs & _).
  exists s'. split; [exact Hd |].
  split; [apply Hone; right; discriminate |].
  split; [rewrite He; reflexivity |].
  auto.
Defined.

(** C10 at work: the planned state and the one in which T2 is retuned to
    2.4 GHz render the link L3 alike. *)
Lemma ellipse_independent_of_towerB_frequency_witness :
  exists (s1' s2' : State float) (e : Ellipse float),
    drawFresnelZone Sample.linkL3 (Sample.planned Sample.office Sample.nearby) = Done s1' /\
    drawFresnelZone Sample.linkL3 (Sample.retuned Sample.office Sample.nearby) = Done s2' /\
    svgOverlay s2' = svgOverlay s1' /\
    renderedEllipse s1' = Some e /\
    renderedEllipse s2' = Some e.
Proof.
  apply (@ellipse_independent_of_towerB_frequency float F64.number Sample.math
           Sample.leaflet Sample.view10k _
           (Sample.planned Sample.office Sample.nearby)
           (Sample.retuned Sample.office Sample.nearby)
           Sample.linkL3 plan_runs).
  - left. reflexivity.
  - repeat constructor; try discriminate.
    cbn. intros Hne. exfalso. apply Hne. reflexivity.
  - reflexivity.
  - reflexivity.
Defined.

End SampleSessions.

(** * Further properties of the handlers *)

(** ** Ids *)

Module IdFacts.

Lemma append_inj_r (p a b : string) : (p ++ a = p ++ b)%string -> a = b.
Proof.
  induction p as [| c p IH]; cbn; intros E; [exact E |].
  injection E as E. apply IH. exact E.
Qed.

(** Different numbers give different ids. *)
Lemma template_inj (prefix : string) (n m : N) :
  template prefix n = template prefix m -> n = m.
Proof.
  unfold template. intros E. apply append_inj_r in E.
  apply DecimalN.Unsigned.to_uint_inj.
  assert (E' : Some (N.to_uint n) = Some (N.to_uint m)).
  { rewrite <- !NilEmpty.usu. rewrite E. reflexivity. }
  injection E' as E'. exact E'.
Qed.

(** In a list without duplicates under [g], an element is where its
    image is. *)
Lemma nodup_position {A B : Type} (g : A -> B) (l : list A) (i j : nat) (a b : A) :
  NoDup (map g l) ->
  nth_error l i = Some a -> nth_error l j = Some b -> g a = g b -> i = j.
Proof.
  intros Hnd Hi Hj Hg.
  apply (proj1 (NoDup_nth_error (map g l)) Hnd).
  - rewrite length_map. apply nth_error_Some. congruence.
  - rewrite !nth_error_map, Hi, Hj. cbn. congruence.
Qed.

(** [find] by a key without duplicates returns the element that has the
    key, at its own position. *)
Lemma find_from_nodup {A : Type} (g : A -> string) (l : list A) (i k : nat) (a : A) :
  NoDup (map g l) ->
  nth_error l k = Some a ->
  find_from (fun x => String.eqb (g x) (g a)) l i = Some ((i + k)%nat, a).
Proof.
  revert i k. induction l as [| b l IH]; intros i k Hnd Hk.
  - destruct k; discriminate.
  - cbn. destruct k as [| k]; cbn in Hk.
    + injection Hk as ->. rewrite String.eqb_refl, Nat.add_0_r. reflexivity.
    + inversion Hnd as [| x xs Hnotin Hnd']; subst.
      destruct (String.eqb (g b) (g a)) eqn:E.
      * exfalso. apply String.eqb_eq in E. apply Hnotin. rewrite E.
        apply in_map. eapply nth_error_In. exact Hk.
      * rewrite (IH (S i) k Hnd' Hk). f_equal. f_equal. lia.
Qed.

End IdFacts.

(** ** The bookkeeping is kept in order *)

Module Bookkeeping.

Section Generic.

Context {num : Type} `{JsNumber num} `{MathLib num} `{Leaflet num}.

Lemma initial_orderly (v : MapView num) : orderly (initial v).
Proof.
  constructor; cbn.
  - reflexivity.
  - intros t [].
  - intros l [].
  - constructor.
  - constructor.
  - discriminate.
  - intros t [].
Qed.

(** The bookkeeping looks at the towers, the links' ids, [nextId] and the
    pending tower only. *)
Lemma orderly_frame (s s' : State num) :
  towers s' = towers s ->
  map link_id (links s') = map link_id (links s) ->
  nextId s' = nextId s ->
  activeLinkPhase s' = activeLinkPhase s ->
  orderly s -> orderly s'.
Proof.
  intros Et El En Ep [Hc Ht Hl Hdt Hdl Hp Hy].
  assert (Elen : List.length (links s') = List.length (links s))
    by (rewrite <- (length_map link_id (links s')), El; apply length_map).
  constructor; unfold ids in *; rewrite ?Et, ?El, ?En, ?Ep, ?Elen; try assumption.
  intros l Hin. apply (in_map link_id) in Hin. rewrite El in Hin.
  apply in_map_iff in Hin. destruct Hin as (l0 & E0 & Hin0).
  destruct (Hl l0 Hin0) as (n & Hn & En0). exists n. split; congruence.
Qed.

(** A write to a tower that keeps its id. *)
Lemma orderly_update (s s' : State num) (k : nat) (f : Tower num -> Tower num) :
  orderly s ->
  (forall t, tower_id (f t) = tower_id t) ->
  towers s' = update k f (towers s) ->
  links s' = links s ->
  nextId s' = nextId s ->
  (forall a, activeLinkPhase s' = Some a -> In a (ids s)) ->
  (forall t, In t (towers s') -> borderColor t = "yellow"%string ->
             activeLinkPhase s' = Some (tower_id t)) ->
  orderly s'.
Proof.
  intros [Hc Ht Hl Hdt Hdl Hp Hy] Hf Et El En Hp' Hy'.
  assert (Ei : ids s' = ids s)
    by (unfold ids; rewrite Et; apply PlannerFacts.map_update; exact Hf).
  constructor; rewrite ?El, ?En, ?Ei; try assumption.
  - rewrite Et, ArrayFacts.update_length. exact Hc.
  - intros t Hin. rewrite Et in Hin. apply PlannerFacts.in_update in Hin.
    destruct Hin as [Hin | (t0 & Hin & ->)]; [apply Ht; exact Hin |].
    rewrite Hf. apply Ht. exact Hin.
Qed.

Lemma orderly_edit (i : nat) (answer : option num) (s : State num) :
  orderly s -> orderly (editFrequency i answer s).
Proof.
  intros Ho. unfold editFrequency.
  destruct answer as [freq |]; [| exact Ho].
  destruct (negb (isNaN freq) && ltb (lit 0) freq); [| exact Ho].
  apply (@orderly_update s _ i (set_frequencyGHz freq));
    try reflexivity; try exact Ho; cbn.
  - apply (or_pending Ho).
  - intros t Hin Hyel. apply PlannerFacts.in_update in Hin.
    destruct Hin as [Hin | (t0 & Hin & ->)]; [apply (or_yellow Ho); assumption |].
    apply (or_yellow Ho t0 Hin Hyel).
Qed.

Lemma orderly_addTower (ll : LatLng num) (s : State num) :
  activeLinkPhase s = None -> orderly s -> orderly (addTower ll s).
Proof.
  intros Hph [Hc Ht Hl Hdt Hdl Hp Hy]. unfold addTower.
  constructor; unfold ids in *;
    cbn [towers links nextId activeLinkPhase with_towers with_nextId].
  - rewrite length_app. cbn [List.length]. rewrite Hc. lia.
  - intros t Hin. apply in_app_or in Hin. destruct Hin as [Hin | [<- | []]].
    + destruct (Ht t Hin) as (n & Hn & En). exists n. split; [lia | exact En].
    + exists (nextId s). split; [lia | reflexivity].
  - intros l Hin. destruct (Hl l Hin) as (n & Hn & En). exists n.
    split; [lia | exact En].
  - rewrite map_app. apply NoDup_app; [exact Hdt | repeat constructor; intros [] |].
    intros a Hin [<- | []]. apply in_map_iff in Hin.
    destruct Hin as (t & Et & Hin). destruct (Ht t Hin) as (n & Hn & En).
    rewrite En in Et. apply IdFacts.template_inj in Et. lia.
  - exact Hdl.
  - rewrite Hph. discriminate.
  - intros t Hin Hyel. apply in_app_or in Hin. destruct Hin as [Hin | [<- | []]].
    + apply Hy; assumption.
    + discriminate.
Qed.

Lemma orderly_createLink (towerA towerB : Tower num) (s : State num) :
  orderly s -> orderly (createLink towerA towerB s).
Proof.
  intros [Hc Ht Hl Hdt Hdl Hp Hy]. unfold createLink.
  constructor; unfold ids in *;
    cbn [towers links nextId activeLinkPhase with_links with_nextId];
    try assumption.
  - rewrite length_app. cbn [List.length]. rewrite Hc. lia.
  - intros t Hin. destruct (Ht t Hin) as (n & Hn & En). exists n.
    split; [lia | exact En].
  - intros l Hin. apply in_app_or in Hin. destruct Hin as [Hin | [<- | []]].
    + destruct (Hl l Hin) as (n & Hn & En). exists n. split; [lia | exact En].
    + exists (nextId s). split; [lia | reflexivity].
  - rewrite map_app. apply NoDup_app; [exact Hdl | repeat constructor; intros [] |].
    intros a Hin [<- | []]. apply in_map_iff in Hin.
    destruct Hin as (l & El & Hin). destruct (Hl l Hin) as (n & Hn & En).
    rewrite En in El. apply IdFacts.template_inj in El. lia.
Qed.

(** The pending tower is un-highlighted and the phase is cleared. *)
Lemma orderly_clear (k : nat) (t0 : Tower num) (s : State num) :
  orderly s ->
  nth_error (towers s) k = Some t0 ->
  activeLinkPhase s = Some (tower_id t0) ->
  orderly (with_activeLinkPhase None
             (with_towers (update k (set_borderColor "white") (towers s)) s)).
Proof.
  intros Ho Hk Hph.
  apply (@orderly_update s _ k (set_borderColor "white"));
    try reflexivity; try exact Ho; cbn.
  - discriminate.
  - intros t Hin Hyel. exfalso.
    apply In_nth_error in Hin. destruct Hin as [j Hj].
    rewrite ArrayFacts.nth_error_update in Hj.
    destruct (Nat.eqb j k) eqn:Ejk.
    + destruct (nth_error (towers s) j); [| discriminate].
      cbn in Hj. injection Hj as <-. discriminate.
    + pose proof (or_yellow Ho t (nth_error_In _ _ Hj) Hyel) as Hp.
      rewrite Hph in Hp. injection Hp as Hid.
      assert (j = k)
        by (eapply (IdFacts.nodup_position (@tower_id num));
            [apply (or_towers_distinct Ho) | exact Hj | exact Hk | congruence]).
      subst j. rewrite Nat.eqb_refl in Ejk. discriminate.
Qed.

(** A first tower is highlighted and becomes the pending one. *)
Lemma orderly_start (i : nat) (tower : Tower num) (s : State num) :
  orderly s ->
  nth_error (towers s) i = Some tower ->
  activeLinkPhase s = None ->
  orderly (with_activeLinkPhase (Some (tower_id tower))
             (with_towers (update i (set_borderColor "yellow") (towers s)) s)).
Proof.
  intros Ho Hi Hph.
  apply (@orderly_update s _ i (set_borderColor "yellow"));
    try reflexivity; try exact Ho; cbn.
  - intros a Ea. injection Ea as <-. unfold ids. apply in_map.
    eapply nth_error_In. exact Hi.
  - intros t Hin Hyel. apply In_nth_error in Hin. destruct Hin as [j Hj].
    rewrite ArrayFacts.nth_error_update in Hj.
    destruct (Nat.eqb j i) eqn:Eji.
    + apply Nat.eqb_eq in Eji. subst j. rewrite Hi in Hj. cbn in Hj.
      injection Hj as <-. reflexivity.
    + pose proof (or_yellow Ho t (nth_error_In _ _ Hj) Hyel) as Hp.
      rewrite Hph in Hp. discriminate.
Qed.

Lemma orderly_handleTowerClick (i : nat) (answer : option num) (s s' : State num) :
  orderly s -> handleTowerClick i answer s = Done s' -> orderly s'.
Proof.
  intros Ho. pose proof (orderly_edit i answer Ho) as Ho1.
  unfold handleTowerClick.
  set (s1 := editFrequency i answer s) in *.
  destruct (nth_error (towers s1) i) as [tower |] eqn:Hi; [| discriminate].
  destruct (activeLinkPhase s1) as [first |] eqn:Hph.
  - destruct (String.eqb first (tower_id tower)) eqn:Hsame.
    + intros Hd. injection Hd as <-. apply String.eqb_eq in Hsame. subst first.
      apply (@orderly_clear i tower s1 Ho1 Hi Hph).
    + destruct (find_tower first s1) as [[a towerA] |] eqn:HA; [| discriminate].
      destruct (PlannerFacts.find_tower_id _ _ HA) as [HidA Ha].
      intros Hd. injection Hd as <-.
      destruct (eqb (frequencyGHz towerA) (frequencyGHz tower)).
      * pose proof (orderly_createLink towerA tower Ho1) as Ho2.
        apply (@orderly_clear a towerA (createLink towerA tower s1) Ho2).
        -- exact Ha.
        -- cbn. rewrite Hph, HidA. reflexivity.
      * apply (@orderly_clear a towerA s1 Ho1 Ha). rewrite Hph, HidA. reflexivity.
  - intros Hd. injection Hd as <-. apply (@orderly_start i tower s1 Ho1 Hi Hph).
Qed.

Lemma orderly_handleMapClick (ll : LatLng num) (s s' : State num) :
  orderly s -> handleMapClick ll s = Done s' -> orderly s'.
Proof.
  intros Ho. unfold handleMapClick.
  destruct (activeLinkPhase s) as [first |] eqn:Hph.
  - destruct (PlannerFacts.find_tower_in first s (or_pending Ho Hph))
      as (a & towerA & HA).
    rewrite HA. destruct (PlannerFacts.find_tower_id _ _ HA) as [HidA Ha].
    intros Hd. injection Hd as <-.
    apply (@orderly_clear a towerA s Ho Ha). rewrite Hph, HidA. reflexivity.
  - intros Hd. injection Hd as <-. apply (@orderly_addTower ll s Hph Ho).
Qed.

(** A render touches the overlay only. *)
Lemma draw_frame (link : Link) (s s' : State num) :
  drawFresnelZone link s = Done s' ->
  towers s' = towers s /\ links s' = links s /\ nextId s' = nextId s /\
  activeLinkPhase s' = activeLinkPhase s /\ selectedLink s' = selectedLink s /\
  view s' = view s.
Proof.
  unfold drawFresnelZone.
  destruct (find_tower (towerAId link) s) as [[a towerA] |];
    [destruct (find_tower (towerBId link) s) as [[b towerB] |] |];
    intros Hd; injection Hd as <-; cbn; auto 10.
Qed.

(** A click on a link leaves the towers, the links' cores, [nextId] and
    the pending tower as they are. *)
Lemma handleLinkClick_frame (j : nat) (s s' : State num) :
  handleLinkClick j s = Done s' ->
  towers s' = towers s /\ map linkCore (links s') = map linkCore (links s) /\
  nextId s' = nextId s /\ activeLinkPhase s' = activeLinkPhase s /\
  selectedLink s' = Some j /\ view s' = view s.
Proof.
  unfold handleLinkClick.
  destruct (nth_error (links s) j) as [link |]; [| discriminate].
  intros Hd. apply draw_frame in Hd.
  destruct Hd as (Et & El & En & Ep & Es & Ev).
  rewrite Et, El, En, Ep, Es, Ev. cbn.
  destruct (selectedLink s) as [k |]; cbn; repeat split;
    rewrite ?PlannerFacts.map_update by reflexivity; reflexivity.
Qed.

Lemma handleMoveEnd_frame (v : MapView num) (s s' : State num) :
  handleMoveEnd v s = Done s' ->
  towers s' = towers s /\ links s' = links s /\ nextId s' = nextId s /\
  activeLinkPhase s' = activeLinkPhase s /\ selectedLink s' = selectedLink s /\
  view s' = v.
Proof.
  unfold handleMoveEnd.
  destruct (selectedLink (with_view v s)) as [k |] eqn:Hk.
  - destruct (nth_error (links (with_view v s)) k) as [link |]; [| discriminate].
    intros Hd. apply draw_frame in Hd.
    destruct Hd as (Et & El & En & Ep & Es & Ev).
    rewrite Et, El, En, Ep, Es, Ev. cbn. auto 10.
  - intros Hd. injection Hd as <-. cbn. auto 10.
Qed.

Lemma linkCore_ids (ls ls' : list Link) :
  map linkCore ls' = map linkCore ls -> map link_id ls' = map link_id ls.
Proof.
  intros E.
  assert (Eg : forall l, link_id l = fst (fst (linkCore l))) by reflexivity.
  rewrite (map_ext _ _ Eg ls), (map_ext _ _ Eg ls').
  rewrite <- !(map_map linkCore (fun c => fst (fst c))), E. reflexivity.
Qed.

Lemma orderly_step (e : event num) (s s' : State num) :
  orderly s -> step s e = Done s' -> orderly s'.
Proof.
  intros Ho. destruct e as [ll | i answer | j | v]; cbn.
  - apply orderly_handleMapClick. exact Ho.
  - apply orderly_handleTowerClick. exact Ho.
  - intros Hd. apply handleLinkClick_frame in Hd.
    destruct Hd as (Et & El & En & Ep & _).
    apply (@orderly_frame s s' Et (linkCore_ids _ _ El) En Ep Ho).
  - intros Hd. apply handleMoveEnd_frame in Hd.
    destruct Hd as (Et & El & En & Ep & _).
    apply (@orderly_frame s s'); try assumption. rewrite El. reflexivity.
Qed.

Lemma orderly_run (es : list (event num)) (s s' : State num) :
  orderly s -> run s es = Done s' -> orderly s'.
Proof.
  revert s. induction es as [| e es IH]; intros s Ho; cbn.
  - intros Hd. injection Hd as <-. exact Ho.
  - destruct (step s e) as [s1 | |] eqn:He; try discriminate.
    apply IH. eapply orderly_step; eassumption.
Qed.

End Generic.

End Bookkeeping.

(** ** Ids, counting and lookup *)

(** X1.  In every state the page reaches, [nextId] is one more than the
    number of towers and links created, every tower id is [T] followed by
    a number below [nextId] and every link id is [L] followed by one. *)
Theorem nextId_counts_towers_and_links
    (num : Type) (N : JsNumber num) (M : MathLib num) (Lf : Leaflet num)
    (v : MapView num) (es : list (event num)) (s : State num) :
  run (initial v) es = Done s ->
  nextId s = (1 + N.of_nat (List.length (towers s) + List.length (links s)))%N /\
  (forall t, In t (towers s) ->
     exists n, (n < nextId s)%N /\ tower_id t = template "T" n) /\
  (forall l, In l (links s) ->
     exists n, (n < nextId s)%N /\ link_id l = template "L" n).
Proof.
  intros Hrun.
  pose proof (Bookkeeping.orderly_run es (Bookkeeping.initial_orderly v) Hrun) as Ho.
  split; [apply (or_count Ho) |].
  split; [apply (or_towers Ho) | apply (or_links Ho)].
Qed.

(** X2.  In every state the page reaches, the tower ids are pairwise
    different and so are the link ids, so a lookup by id returns the very
    tower that carries the id, at its own position. *)
Theorem ids_are_unique_and_lookup_finds_the_tower
    (num : Type) (N : JsNumber num) (M : MathLib num) (Lf : Leaflet num)
    (v : MapView num) (es : list (event num)) (s : State num) :
  run (initial v) es = Done s ->
  NoDup (map (@tower_id num) (towers s)) /\
  NoDup (map link_id (links s)) /\
  (forall (i : nat) (t : Tower num),
      nth_error (towers s) i = Some t ->
      find_tower (tower_id t) s = Some (i, t)).
Proof.
  intros Hrun.
  pose proof (Bookkeeping.orderly_run es (Bookkeeping.initial_orderly v) Hrun) as Ho.
  split; [apply (or_towers_distinct Ho) |].
  split; [apply (or_links_distinct Ho) |].
  intros i t Hi. unfold find_tower, find_ref.
  apply (IdFacts.find_from_nodup (@tower_id num) (towers s) 0 i
           (or_towers_distinct Ho) Hi).
Qed.

(** X3.  No run of events from the loaded page ends in a [TypeError]: the
    pending id always names a tower of the collection, so the lookup of
    the first tower in [handleTowerClick] never returns [undefined]. *)
Theorem handlers_never_throw
    (num : Type) (N : JsNumber num) (M : MathLib num) (Lf : Leaflet num)
    (v : MapView num) (es : list (event num)) :
  run (initial v) es <> TypeError.
Proof.
  assert (Hstep : forall (s : State num) (e : event num),
             orderly s -> step s e <> TypeError).
  { intros s e Ho. destruct e as [ll | i answer | j | w]; cbn.
    - unfold handleMapClick. destruct (activeLinkPhase s); discriminate.
    - pose proof (Bookkeeping.orderly_edit i answer Ho) as Ho1.
      unfold handleTowerClick.
      destruct (nth_error (towers (editFrequency i answer s)) i) as [tower |];
        [| discriminate].
      destruct (activeLinkPhase (editFrequency i answer s)) as [first |] eqn:Hph;
        [| discriminate].
      destruct (String.eqb first (tower_id tower)); [discriminate |].
      destruct (PlannerFacts.find_tower_in first _ (or_pending Ho1 Hph))
        as (a & towerA & HA).
      rewrite HA. discriminate.
    - unfold handleLinkClick.
      destruct (nth_error (links s) j) as [link |]; [| discriminate].
      match goal with
      | |- drawFresnelZone ?l ?st <> _ =>
          destruct (RenderFacts.draw_returns l st) as [s' E]; rewrite E
      end.
      discriminate.
    - unfold handleMoveEnd.
      destruct (selectedLink (with_view w s)); [| discriminate].
      destruct (nth_error (links (with_view w s)) n) as [link |]; [| discriminate].
      destruct (RenderFacts.draw_returns link (with_view w s)) as [s' E].
      rewrite E. discriminate. }
  assert (Hrun : forall (es' : list (event num)) (s : State num),
             orderly s -> run s es' <> TypeError).
  { induction es' as [| e es' IH]; intros s Ho; cbn; [discriminate |].
    destruct (step s e) as [s1 | |] eqn:He.
    - apply IH. eapply Bookkeeping.orderly_step; eassumption.
    - exfalso. apply (Hstep s e Ho He).
    - discriminate. }
  apply Hrun. apply Bookkeeping.initial_orderly.
Qed.

(** X4.  In every state the page reaches, a marker is yellow only if its
    tower is the pending one: with no link pending no marker is yellow,
    and never are two markers yellow. *)
Theorem only_the_pending_tower_is_highlighted
    (num : Type) (N : JsNumber num) (M : MathLib num) (Lf : Leaflet num)
    (v : MapView num) (es : list (event num)) (s : State num) :
  run (initial v) es = Done s ->
  (forall t, In t (towers s) -> borderColor t = "yellow"%string ->
             activeLinkPhase s = Some (tower_id t)) /\
  (forall (i j : nat) (ti tj : Tower num),
      nth_error (towers s) i = Some ti -> nth_error (towers s) j = Some tj ->
      borderColor ti = "yellow"%string -> borderColor tj = "yellow"%string ->
      i = j).
Proof.
  intros Hrun.
  pose proof (Bookkeeping.orderly_run es (Bookkeeping.initial_orderly v) Hrun) as Ho.
  split; [apply (or_yellow Ho) |].
  intros i j ti tj Hi Hj Hyi Hyj.
  pose proof (or_yellow Ho ti (nth_error_In _ _ Hi) Hyi) as Ei.
  pose proof (or_yellow Ho tj (nth_error_In _ _ Hj) Hyj) as Ej.
  eapply (IdFacts.nodup_position (@tower_id num));
    [apply (or_towers_distinct Ho) | exact Hi | exact Hj | congruence].
Qed.

(** ** Frequencies *)

Module FrequencyFacts.

Lemma Forall_update {A : Type} (P : A -> Prop) (f : A -> A) (l : list A) (k : nat) :
  (forall a, P a -> P (f a)) -> Forall P l -> Forall P (update k f l).
Proof.
  intros Hf Hl. revert k. induction Hl as [| a l Ha Hl IH]; intros [| k]; cbn;
    constructor; auto.
Qed.

Section Generic.

Context {num : Type} `{JsNumber num} `{MathLib num} `{Leaflet num}.

Lemma allValid_edit (i : nat) (answer : option num) (s : State num) :
  allValid s -> allValid (editFrequency i answer s).
Proof.
  intros Hv. unfold editFrequency.
  destruct answer as [freq |]; [| exact Hv].
  destruct (negb (isNaN freq) && ltb (lit 0) freq) eqn:Hfreq; [| exact Hv].
  unfold allValid. cbn.
  clear -Hv Hfreq. unfold allValid in Hv. revert i.
  induction Hv as [| a l Ha Hl IH]; intros [| i]; cbn; constructor; auto.
Qed.

Lemma allValid_recolor (c : string) (k : nat) (s : State num) :
  allValid s -> allValid (with_towers (update k (set_borderColor c) (towers s)) s).
Proof.
  intros Hv. unfold allValid. cbn. apply Forall_update; [| exact Hv].
  intros a Ha. exact Ha.
Qed.

Lemma allValid_step (e : event num) (s s' : State num) :
  validFrequency defaultFreq = true ->
  allValid s -> step s e = Done s' -> allValid s'.
Proof.
  intros Hdef Hv. destruct e as [ll | i answer | j | v]; cbn.
  - unfold handleMapClick. destruct (activeLinkPhase s) as [first |].
    + intros Hd. injection Hd as <-.
      destruct (find_tower first s) as [[a towerA] |]; [| exact Hv].
      apply (allValid_recolor "white" a Hv).
    + intros Hd. injection Hd as <-. unfold allValid, addTower. cbn.
      apply Forall_app. split; [exact Hv |]. constructor; [exact Hdef | constructor].
  - pose proof (allValid_edit i answer Hv) as Hv1.
    unfold handleTowerClick.
    set (s1 := editFrequency i answer s) in *.
    destruct (nth_error (towers s1) i) as [tower |]; [| discriminate].
    destruct (activeLinkPhase s1) as [first |].
    + destruct (String.eqb first (tower_id tower)).
      * intros Hd. injection Hd as <-. apply (allValid_recolor "white" i Hv1).
      * destruct (find_tower first s1) as [[a towerA] |]; [| discriminate].
        intros Hd. injection Hd as <-.
        destruct (eqb (frequencyGHz towerA) (frequencyGHz tower)).
        -- apply (allValid_recolor "white" a (s := createLink towerA tower s1)).
           exact Hv1.
        -- apply (allValid_recolor "white" a Hv1).
    + intros Hd. injection Hd as <-. apply (allValid_recolor "yellow" i Hv1).
  - intros Hd. apply Bookkeeping.handleLinkClick_frame in Hd.
    destruct Hd as (Et & _). unfold allValid. rewrite Et. exact Hv.
  - intros Hd. apply Bookkeeping.handleMoveEnd_frame in Hd.
    destruct Hd as (Et & _). unfold allValid. rewrite Et. exact Hv.
Qed.

Lemma allValid_run (es : list (event num)) (s s' : State num) :
  validFrequency defaultFreq = true ->
  allValid s -> run s es = Done s' -> allValid s'.
Proof.
  intros Hdef. revert s. induction es as [| e es IH]; intros s Hv; cbn.
  - intros Hd. injection Hd as <-. exact Hv.
  - destruct (step s e) as [s1 | |] eqn:He; try discriminate.
    apply IH. eapply allValid_step; eassumption.
Qed.

End Generic.

End FrequencyFacts.

(** X5.  On binary64, in every state the page reaches, every tower's
    frequency is a number above zero and not NaN: the default is 5.8 and
    the prompt's answer is stored only when it passes
    [!isNaN(freq) && freq > 0]. *)
Theorem stored_frequencies_are_valid
    (M : MathLib float) (Lf : Leaflet float)
    (v : MapView float) (es : list (event float)) (s : State float) :
  run (initial v) es = Done s ->
  forall t : Tower float, In t (towers s) ->
    PrimFloat.is_nan (frequencyGHz t) = false /\
    PrimFloat.ltb 0 (frequencyGHz t) = true.
Proof.
  intros Hrun t Hin.
  assert (Hv : allValid s).
  { apply (FrequencyFacts.allValid_run es (s := initial v)); try assumption.
    - reflexivity.
    - constructor. }
  unfold allValid in Hv. rewrite Forall_forall in Hv.
  specialize (Hv t Hin). unfold validFrequency in Hv.
  apply andb_prop in Hv. destruct Hv as [Hn Hp].
  split; [| exact Hp].
  apply negb_true_iff in Hn. exact Hn.
Qed.

Section SampleFrequencies.

Local Existing Instance Sample.math.
Local Existing Instance Sample.leaflet.

(** X5 at work: in the sample session an answer of NaN and one of -1 are
    typed on the way; the towers keep 5.8 GHz. *)
Lemma stored_frequencies_are_valid_witness :
  PrimFloat.is_nan (frequencyGHz (Sample.towerT2 Sample.nearby)) = false /\
  PrimFloat.ltb 0 (frequencyGHz (Sample.towerT2 Sample.nearby)) = true.
Proof.
  apply (@stored_frequencies_are_valid Sample.math Sample.leaflet Sample.view10k
           [MapClick Sample.office; MapClick Sample.nearby;
            TowerClick 0 (Some PrimFloat.nan); TowerClick 1 (Some (-1)%float)]
           (Sample.planned Sample.office Sample.nearby)).
  - vm_compute. reflexivity.
  - right. left. reflexivity.
Defined.

End SampleFrequencies.

Section SampleBookkeeping.

Local Existing Instance Sample.math.
Local Existing Instance Sample.leaflet.

Lemma pending_runs :
  run (initial Sample.view10k)
      [MapClick Sample.office; MapClick Sample.nearby; TowerClick 0 None]
  = Done (Sample.pending Sample.office Sample.nearby).
Proof. vm_compute. reflexivity. Defined.

(** X1 at work: after three towers and two links [nextId] is 6. *)
Lemma nextId_counts_towers_and_links_witness :
  nextId Sample.firstSelected
  = (1 + N.of_nat (List.length (towers Sample.firstSelected)
                   + List.length (links Sample.firstSelected)))%N.
Proof.
  apply (@nextId_counts_towers_and_links float F64.number Sample.math Sample.leaflet
           _ _ _ session_runs).
Defined.

(** X2 at work, on the sample session. *)
Lemma ids_are_unique_and_lookup_finds_the_tower_witness :
  NoDup (map (@tower_id float) (towers Sample.firstSelected)).
Proof.
  apply (@ids_are_unique_and_lookup_finds_the_tower float F64.number Sample.math
           Sample.leaflet _ _ _ session_runs).
Defined.

(** X4 at work: T1 is pending, and T1 is the yellow one. *)
Lemma only_the_pending_tower_is_highlighted_witness :
  activeLinkPhase (Sample.pending Sample.office Sample.nearby) = Some "T1"%string.
Proof.
  apply (proj1 (@only_the_pending_tower_is_highlighted float F64.number Sample.math
                  Sample.leaflet _ _ _ pending_runs)
           {| tower_id := "T1"; latlng := Sample.office;
              frequencyGHz := decimal 58 1; borderColor := "yellow" |}).
  - left. reflexivity.
  - reflexivity.
Defined.

End SampleBookkeeping.

(** ** The two clicks of a link *)

(** X6.  A click on a second tower whose frequency, once the prompt is
    answered, [===] the frequency of the pending first tower creates the
    link: exactly one link is appended, from the pending tower to the
    clicked one, with the id [L] followed by [nextId], in the plain
    style; [nextId] is incremented, the phase is cleared, the first
    tower's marker is white and the selection is as it was. *)
Theorem matching_frequencies_create_the_link
    (num : Type) (N : JsNumber num) (M : MathLib num) (Lf : Leaflet num)
    (s : State num) (i : nat) (answer : option num)
    (first : string) (towerB : Tower num) (a : nat) (towerA : Tower num) :
  activeLinkPhase s = Some first ->
  nth_error (towers (editFrequency i answer s)) i = Some towerB ->
  first <> tower_id towerB ->
  find_tower first (editFrequency i answer s) = Some (a, towerA) ->
  (frequencyGHz towerA =? frequencyGHz towerB)%js = true ->
  exists s' : State num,
    handleTowerClick i answer s = Done s' /\
    links s' = links s ++ [{| link_id := template "L" (nextId s);
                              towerAId := first;
                              towerBId := tower_id towerB;
                              className := "leaflet-link-line" |}] /\
    nextId s' = N.succ (nextId s) /\
    activeLinkPhase s' = None /\
    selectedLink s' = selectedLink s /\
    option_map (@borderColor num) (nth_error (towers s') a) = Some "white"%string.
Proof.
  intros Hph Hi Hne HA Hfreq.
  destruct (PlannerFacts.editFrequency_frame i answer s)
    as (El & Ea & Es & En & _).
  destruct (PlannerFacts.find_tower_id _ _ HA) as [HidA Ha].
  unfold handleTowerClick. rewrite Hi, Ea, Hph.
  apply String.eqb_neq in Hne. rewrite Hne, HA, Hfreq.
  eexists. split; [reflexivity |]. cbn.
  rewrite El, En, Es, HidA. repeat split.
  rewrite ArrayFacts.nth_error_update, Nat.eqb_refl, Ha. reflexivity.
Qed.

(** X7.  Two clicks in a row on the same tower, with no link pending
    before, cancel each other: the first makes the tower the pending one
    and its marker yellow, the second clears the phase and turns the
    marker white; no link is created and [nextId] is as it was, whatever
    is answered to the two prompts. *)
Theorem second_click_on_the_same_tower_cancels
    (num : Type) (N : JsNumber num) (M : MathLib num) (Lf : Leaflet num)
    (s : State num) (i : nat) (tower : Tower num) (answer1 answer2 : option num) :
  activeLinkPhase s = None ->
  nth_error (towers s) i = Some tower ->
  exists s1 s2 : State num,
    handleTowerClick i answer1 s = Done s1 /\
    activeLinkPhase s1 = Some (tower_id tower) /\
    option_map (@borderColor num) (nth_error (towers s1) i) = Some "yellow"%string /\
    handleTowerClick i answer2 s1 = Done s2 /\
    activeLinkPhase s2 = None /\
    option_map (@borderColor num) (nth_error (towers s2) i) = Some "white"%string /\
    links s2 = links s /\ nextId s2 = nextId s /\
    map (@towerCore num) (towers s2) = map (@towerCore num) (towers s).
Proof.
  intros Hph Hi.
  assert (Hedit : forall (ans : option num) (st : State num) (t : Tower num),
             nth_error (towers st) i = Some t ->
             exists t', nth_error (towers (editFrequency i ans st)) i = Some t' /\
                        tower_id t' = tower_id t /\
                        map (@towerCore num) (towers (editFrequency i ans st))
                        = map (@towerCore num) (towers st)).
  { intros ans st t Ht. unfold editFrequency.
    destruct ans as [freq |]; [| exists t; auto].
    destruct (negb (isNaN freq) && ltb (lit 0) freq); [| exists t; auto].
    cbn. rewrite ArrayFacts.nth_error_update, Nat.eqb_refl, Ht. cbn.
    eexists. split; [reflexivity |]. split; [reflexivity |].
    apply PlannerFacts.map_update. reflexivity. }
  destruct (Hedit answer1 s tower Hi) as (t1 & Ht1 & Hid1 & Hc1).
  destruct (PlannerFacts.editFrequency_frame i answer1 s)
    as (El1 & Ea1 & _ & En1 & _).
  set (s1 := with_activeLinkPhase (Some (tower_id t1))
               (with_towers (update i (set_borderColor "yellow")
                               (towers (editFrequency i answer1 s)))
                  (editFrequency i answer1 s))).
  assert (E1 : handleTowerClick i answer1 s = Done s1).
  { unfold handleTowerClick. rewrite Ht1, Ea1, Hph. reflexivity. }
  assert (Hi1 : nth_error (towers s1) i = Some (set_borderColor "yellow" t1)).
  { unfold s1. cbn. rewrite ArrayFacts.nth_error_update, Nat.eqb_refl, Ht1.
    reflexivity. }
  destruct (Hedit answer2 s1 _ Hi1) as (t2 & Ht2 & Hid2 & Hc2).
  destruct (PlannerFacts.editFrequency_frame i answer2 s1)
    as (El2 & Ea2 & _ & En2 & _).
  exists s1. eexists.
  split; [exact E1 |].
  split; [unfold s1; cbn; rewrite Hid1; reflexivity |].
  split; [rewrite Hi1; reflexivity |].
  split.
  { unfold handleTowerClick. rewrite Ht2, Ea2.
    replace (activeLinkPhase s1) with (Some (tower_id t1)) by reflexivity.
    replace (String.eqb (tower_id t1) (tower_id t2)) with true
      by (symmetry; apply String.eqb_eq; rewrite Hid2; reflexivity).
    reflexivity. }
  cbn. split; [reflexivity |].
  split; [rewrite ArrayFacts.nth_error_update, Nat.eqb_refl, Ht2; reflexivity |].
  split; [rewrite El2; unfold s1; cbn; exact El1 |].
  split; [rewrite En2; unfold s1; cbn; exact En1 |].
  rewrite PlannerFacts.map_update by reflexivity.
  rewrite Hc2. unfold s1. cbn.
  rewrite PlannerFacts.map_update by reflexivity. exact Hc1.
Qed.

Section SampleClicks.

Local Existing Instance Sample.math.
Local Existing Instance Sample.leaflet.

(** X6 at work: T1 is pending, T2 is clicked and the prompt cancelled;
    both are at 5.8 GHz and the link L3 is created. *)
Lemma matching_frequencies_create_the_link_witness :
  exists s' : State float,
    handleTowerClick 1 None (Sample.pending Sample.office Sample.nearby) = Done s' /\
    links s' = [Sample.linkL3] /\
    nextId s' = 4%N /\
    activeLinkPhase s' = None /\
    selectedLink s' = None /\
    option_map (@borderColor float) (nth_error (towers s') 0) = Some "white"%string.
Proof.
  apply (@matching_frequencies_create_the_link float F64.number Sample.math
           Sample.leaflet (Sample.pending Sample.office Sample.nearby) 1%nat None
           "T1"%string (Sample.towerT2 Sample.nearby) 0%nat
           {| tower_id := "T1"; latlng := Sample.office;
              frequencyGHz := decimal 58 1; borderColor := "yellow" |});
    try reflexivity.
  discriminate.
Defined.

(** X7 at work: T1 of the planned towers is clicked twice. *)
Lemma second_click_on_the_same_tower_cancels_witness :
  exists s1 s2 : State float,
    handleTowerClick 0 None (Sample.planned Sample.office Sample.nearby) = Done s1 /\
    activeLinkPhase s1 = Some "T1"%string /\
    option_map (@borderColor float) (nth_error (towers s1) 0) = Some "yellow"%string /\
    handleTowerClick 0 (Some (decimal 24 1)) s1 = Done s2 /\
    activeLinkPhase s2 = None /\
    option_map (@borderColor float) (nth_error (towers s2) 0) = Some "white"%string /\
    links s2 = [Sample.linkL3] /\ nextId s2 = 4%N.
Proof.
  destruct (@second_click_on_the_same_tower_cancels float F64.number Sample.math
              Sample.leaflet (Sample.planned Sample.office Sample.nearby) 0%nat
              (Sample.towerT1 Sample.office) None (Some (decimal 24 1))
              eq_refl eq_refl)
    as (s1 & s2 & H1 & H2 & H3 & H4 & H5 & H6 & H7 & H8 & _).
  exists s1, s2. repeat split; assumption.
Defined.

End SampleClicks.

(** ** Clicks on the map *)

(** X8.  A click on the map with no link pending adds exactly one tower,
    at the clicked position, at 5.8 GHz, with the id [T] followed by
    [nextId], and increments [nextId].  A click on the map while a tower
    is pending adds no tower: it clears the phase and leaves every tower's
    id, position and frequency, the links and [nextId] as they were. *)
Theorem map_click_adds_a_tower_or_cancels
    (num : Type) (N : JsNumber num) (M : MathLib num) (Lf : Leaflet num)
    (ll : LatLng num) (s : State num) :
  (activeLinkPhase s = None ->
   handleMapClick ll s
   = Done {| towers := towers s ++ [{| tower_id := template "T" (nextId s);
                                       latlng := ll;
                                       frequencyGHz := (lit 58 / lit 10)%js;
                                       borderColor := "" |}];
             links := links s; activeLinkPhase := None;
             selectedLink := selectedLink s; nextId := N.succ (nextId s);
             view := view s; svgOverlay := svgOverlay s |}) /\
  (activeLinkPhase s <> None ->
   exists s' : State num,
     handleMapClick ll s = Done s' /\
     activeLinkPhase s' = None /\
     map (@towerCore num) (towers s') = map (@towerCore num) (towers s) /\
     map (@frequencyGHz num) (towers s') = map (@frequencyGHz num) (towers s) /\
     links s' = links s /\ nextId s' = nextId s /\
     selectedLink s' = selectedLink s /\ svgOverlay s' = svgOverlay s).
Proof.
  split.
  - intros Hph. unfold handleMapClick, addTower. rewrite Hph.
    unfold with_towers, with_nextId. cbn. rewrite Hph. reflexivity.
  - intros Hph. unfold handleMapClick.
    destruct (activeLinkPhase s) as [first |]; [| congruence].
    eexists. split; [reflexivity |].
    destruct (find_tower first s) as [[a towerA] |]; cbn;
      rewrite ?PlannerFacts.map_update by reflexivity; auto 10.
Qed.

Section SampleMapClicks.

Local Existing Instance Sample.math.
Local Existing Instance Sample.leaflet.

(** X8 at work: a click on the map while T1 is pending. *)
Lemma map_click_adds_a_tower_or_cancels_witness :
  exists s' : State float,
    handleMapClick Sample.farther (Sample.pending Sample.office Sample.nearby) = Done s' /\
    activeLinkPhase s' = None /\
    List.length (towers s') = 2%nat.
Proof.
  destruct (proj2 (@map_click_adds_a_tower_or_cancels float F64.number Sample.math
                     Sample.leaflet Sample.farther
                     (Sample.pending Sample.office Sample.nearby)))
    as (s' & Hd & Hp & Hc & _).
  - discriminate.
  - exists s'. split; [exact Hd |]. split; [exact Hp |].
    rewrite <- (length_map (@towerCore float)), Hc. reflexivity.
Defined.

End SampleMapClicks.

(** ** Rendering again *)

Module RedrawFacts.

Section Generic.

Context {num : Type} `{JsNumber num} `{MathLib num} `{Leaflet num}.

(** Writing the same attributes twice is writing them once. *)
Lemma renderEllipse_twice (e : Ellipse num) (o : option (Overlay num)) :
  renderEllipse e (Some (renderEllipse e o)) = renderEllipse e o.
Proof.
  unfold renderEllipse. destruct o as [o |]; cbn; [| reflexivity].
  destruct (shapes o); reflexivity.
Qed.

Lemma shown_draw (link : Link) (s s' : State num) :
  ellipseShown s = true -> drawFresnelZone link s = Done s' ->
  ellipseShown s' = true.
Proof.
  intros Hs. unfold drawFresnelZone.
  destruct (find_tower (towerAId link) s) as [[a towerA] |];
    [destruct (find_tower (towerBId link) s) as [[b towerB] |] |];
    intros Hd; injection Hd as <-; try exact Hs.
  apply RenderFacts.shown_after_render.
Qed.

(** What a click on a tower does to the towers and to the links: the
    cores stay, at most one link is appended. *)
Lemma handleTowerClick_cores (i : nat) (answer : option num) (s s' : State num) :
  handleTowerClick i answer s = Done s' ->
  map (@towerCore num) (towers s') = map (@towerCore num) (towers s) /\
  (links s' = links s \/ exists l, links s' = links s ++ [l]).
Proof.
  unfold handleTowerClick.
  assert (Ec : map (@towerCore num) (towers (editFrequency i answer s))
               = map (@towerCore num) (towers s)).
  { unfold editFrequency. destruct answer as [freq |]; [| reflexivity].
    destruct (negb (isNaN freq) && ltb (lit 0) freq); [| reflexivity].
    cbn. apply PlannerFacts.map_update. reflexivity. }
  destruct (PlannerFacts.editFrequency_frame i answer s) as (El & _).
  set (s1 := editFrequency i answer s) in *.
  destruct (nth_error (towers s1) i) as [tower |]; [| discriminate].
  destruct (activeLinkPhase s1) as [first |].
  - destruct (String.eqb first (tower_id tower)).
    + intros Hd. injection Hd as <-. cbn.
      rewrite PlannerFacts.map_update by reflexivity. auto.
    + destruct (find_tower first s1) as [[a towerA] |]; [| discriminate].
      intros Hd. injection Hd as <-.
      destruct (eqb (frequencyGHz towerA) (frequencyGHz tower)); cbn;
        rewrite PlannerFacts.map_update by reflexivity; rewrite El;
        split; eauto.
  - intros Hd. injection Hd as <-. cbn.
    rewrite PlannerFacts.map_update by reflexivity. auto.
Qed.

End Generic.

End RedrawFacts.

(** X9.  Rendering is idempotent: drawing a link and drawing it again
    leaves the state the first drawing left. *)
Theorem drawFresnelZone_is_idempotent
    (num : Type) (N : JsNumber num) (M : MathLib num) (Lf : Leaflet num)
    (link : Link) (s : State num) :
  exists s1 : State num,
    drawFresnelZone link s = Done s1 /\ drawFresnelZone link s1 = Done s1.
Proof.
  unfold drawFresnelZone.
  destruct (find_tower (towerAId link) s) as [[a towerA] |] eqn:HA;
    [destruct (find_tower (towerBId link) s) as [[b towerB] |] eqn:HB |].
  - eexists. split; [reflexivity |].
    unfold find_tower in *. cbn [towers with_svgOverlay]. rewrite HA, HB.
    cbn [view svgOverlay with_svgOverlay].
    rewrite RedrawFacts.renderEllipse_twice. reflexivity.
  - exists s. split; [reflexivity |]. rewrite HA, HB. reflexivity.
  - exists s. split; [reflexivity |]. rewrite HA. reflexivity.
Qed.

(** X10.  In every state the page reaches, a [moveend] with a link
    selected redraws that link under the new view: there is exactly one
    ellipse, it carries the attributes computed from the link's two towers
    and the new view, and it is displayed; towers, links and selection
    are as they were.  With no link selected only the view changes. *)
Theorem moveend_redraws_the_selected_link
    (num : Type) (N : JsNumber num) (M : MathLib num) (Lf : Leaflet num)
    (v0 : MapView num) (es : list (event num)) (s : State num) (v : MapView num) :
  run (initial v0) es = Done s ->
  (forall (j : nat),
      selectedLink s = Some j ->
      exists (link : Link) (a b : nat) (towerA towerB : Tower num) (s' : State num),
        nth_error (links s) j = Some link /\
        find_tower (towerAId link) s = Some (a, towerA) /\
        find_tower (towerBId link) s = Some (b, towerB) /\
        handleMoveEnd v s = Done s' /\
        ellipses s' = [fresnelEllipse v towerA towerB] /\
        ellipseShown s' = true /\
        view s' = v /\ towers s' = towers s /\ links s' = links s /\
        selectedLink s' = Some j) /\
  (selectedLink s = None -> handleMoveEnd v s = Done (with_view v s)).
Proof.
  intros Hrun. pose proof (Invariants.reachable_wellFormed _ _ Hrun) as Hwf.
  split.
  - intros j Hj. destruct (wf_selected Hwf Hj) as [Hlt Hone].
    destruct (nth_error (links s) j) as [link |] eqn:Hlink;
      [| apply nth_error_None in Hlink; lia].
    destruct (Invariants.link_towers_found link Hwf (nth_error_In _ _ Hlink))
      as (_ & a & towerA & b & towerB & EA & EB).
    exists link, a, b, towerA, towerB. eexists.
    split; [reflexivity |]. split; [exact EA |]. split; [exact EB |].
    split.
    { unfold handleMoveEnd. cbn [selectedLink links with_view]. rewrite Hj, Hlink.
      apply (RenderFacts.draw_found link (with_view v s) (a := a) (b := b)).
      - exact EA.
      - exact EB. }
    cbn. split.
    + unfold ellipses in *. cbn. unfold renderEllipse.
      destruct (svgOverlay s) as [o |]; [| discriminate].
      destruct (shapes o) as [| e1 [| e2 rest]]; try discriminate. reflexivity.
    + split; [apply (RenderFacts.shown_after_render _ (with_view v s)) |].
      auto.
  - intros Hnone. unfold handleMoveEnd. cbn [selectedLink with_view].
    rewrite Hnone. reflexivity.
Qed.

(** X11.  Towers and links are never removed, renamed, moved or
    re-attached: after any run of events, from any state, the ids and
    positions of the towers there were come first and in the same order
    among those of the towers there are, and so do the ids and the two
    tower ids of the links. *)
Theorem towers_and_links_only_grow
    (num : Type) (N : JsNumber num) (M : MathLib num) (Lf : Leaflet num)
    (es : list (event num)) (s s' : State num) :
  run s es = Done s' ->
  exists (newTowers : list (string * LatLng num))
         (newLinks : list (string * string * string)),
    map (@towerCore num) (towers s') = map (@towerCore num) (towers s) ++ newTowers /\
    map linkCore (links s') = map linkCore (links s) ++ newLinks.
Proof.
  revert s. induction es as [| e es IH]; intros s; cbn.
  - intros Hd. injection Hd as <-. exists [], []. rewrite !app_nil_r. auto.
  - destruct (step s e) as [s1 | |] eqn:He; try discriminate.
    intros Hrun. destruct (IH s1 Hrun) as (ts & ls & Et & El).
    assert (Hstep : exists ts1 ls1,
               map (@towerCore num) (towers s1)
               = map (@towerCore num) (towers s) ++ ts1 /\
               map linkCore (links s1) = map linkCore (links s) ++ ls1).
    { destruct e as [ll | i answer | j | v]; cbn in He.
      - unfold handleMapClick in He.
        destruct (activeLinkPhase s) as [first |]; injection He as <-.
        + exists [], []. rewrite !app_nil_r.
          destruct (find_tower first s) as [[a towerA] |]; cbn;
            rewrite ?PlannerFacts.map_update by reflexivity; auto.
        + exists [(template "T" (nextId s), ll)], []. unfold addTower. cbn.
          rewrite map_app, app_nil_r. split; reflexivity.
      - apply RedrawFacts.handleTowerClick_cores in He.
        destruct He as (Ec & [Els | (l & Els)]).
        + exists [], []. rewrite !app_nil_r, Els. auto.
        + exists [], [linkCore l]. rewrite app_nil_r, Els, map_app. auto.
      - apply Bookkeeping.handleLinkClick_frame in He.
        destruct He as (Etw & Elk & _).
        exists [], []. rewrite !app_nil_r, Etw, Elk. auto.
      - apply Bookkeeping.handleMoveEnd_frame in He.
        destruct He as (Etw & Elk & _).
        exists [], []. rewrite !app_nil_r, Etw, Elk. auto. }
    destruct Hstep as (ts1 & ls1 & Et1 & El1).
    exists (ts1 ++ ts), (ls1 ++ ls).
    rewrite Et, El, Et1, El1, !app_assoc. auto.
Qed.

(** X12.  Nothing hides the ellipse or clears the selection: from any
    state, an ellipse that is displayed is displayed after every run of
    events, and a selection there is never goes back to none. *)
Theorem ellipse_and_selection_are_never_cleared
    (num : Type) (N : JsNumber num) (M : MathLib num) (Lf : Leaflet num)
    (es : list (event num)) (s s' : State num) :
  run s es = Done s' ->
  (ellipseShown s = true -> ellipseShown s' = true) /\
  (selectedLink s <> None -> selectedLink s' <> None).
Proof.
  revert s. induction es as [| e es IH]; intros s; cbn.
  - intros Hd. injection Hd as <-. auto.
  - destruct (step s e) as [s1 | |] eqn:He; try discriminate.
    intros Hrun. destruct (IH s1 Hrun) as [IHs IHsel].
    assert (Hstep : (ellipseShown s = true -> ellipseShown s1 = true) /\
                    (selectedLink s <> None -> selectedLink s1 <> None)).
    { destruct e as [ll | i answer | j | v]; cbn in He.
      - unfold handleMapClick in He.
        destruct (activeLinkPhase s) as [first |]; injection He as <-.
        + destruct (find_tower first s) as [[a towerA] |]; cbn; auto.
        + cbn. auto.
      - apply PlannerFacts.handleTowerClick_frame in He.
        destruct He as (Es & _ & Eo & _). unfold ellipseShown.
        rewrite Es, Eo. auto.
      - split.
        + intros Hs. unfold handleLinkClick in He.
          destruct (nth_error (links s) j) as [link |]; [| discriminate].
          eapply RedrawFacts.shown_draw; [| exact He].
          destruct (selectedLink s); exact Hs.
        + apply Bookkeeping.handleLinkClick_frame in He.
          destruct He as (_ & _ & _ & _ & Es & _). rewrite Es. discriminate.
      - split.
        + intros Hs. unfold handleMoveEnd in He.
          destruct (selectedLink (with_view v s)) as [k |].
          * destruct (nth_error (links (with_view v s)) k) as [link |];
              [| discriminate].
            eapply RedrawFacts.shown_draw; [| exact He]. exact Hs.
          * injection He as <-. exact Hs.
        + apply Bookkeeping.handleMoveEnd_frame in He.
          destruct He as (_ & _ & _ & _ & Es & _). rewrite Es. auto. }
    destruct Hstep as [Hs1 Hsel1]. auto.
Qed.

(** X13.  Looking never edits the plan: a click on a link and a [moveend]
    leave the towers, the ids and the tower ids of the links, [nextId] and
    the pending tower as they are; the click selects the link clicked and
    leaves the view, the [moveend] takes the new view and leaves the
    selection. *)
Theorem viewing_never_edits_the_plan
    (num : Type) (N : JsNumber num) (M : MathLib num) (Lf : Leaflet num)
    (s s' : State num) :
  (forall j : nat,
      handleLinkClick j s = Done s' ->
      towers s' = towers s /\ map linkCore (links s') = map linkCore (links s) /\
      nextId s' = nextId s /\ activeLinkPhase s' = activeLinkPhase s /\
      selectedLink s' = Some j /\ view s' = view s) /\
  (forall v : MapView num,
      handleMoveEnd v s = Done s' ->
      towers s' = towers s /\ links s' = links s /\
      nextId s' = nextId s /\ activeLinkPhase s' = activeLinkPhase s /\
      selectedLink s' = selectedLink s /\ view s' = v).
Proof.
  split.
  - intros j. apply Bookkeeping.handleLinkClick_frame.
  - intros v. apply Bookkeeping.handleMoveEnd_frame.
Qed.

Section SampleViews.

Local Existing Instance Sample.math.
Local Existing Instance Sample.leaflet.

(** X10 at work: the sample session, then a zoom to 20000 pixels to the
    degree. *)
Lemma moveend_redraws_the_selected_link_witness :
  exists s' : State float,
    handleMoveEnd (Sample.flatView 20000%float {| pt_x := 0%float; pt_y := 0%float |})
                  Sample.firstSelected = Done s' /\
    List.length (ellipses s') = 1%nat /\
    ellipseShown s' = true /\
    selectedLink s' = Some 0%nat.
Proof.
  destruct (proj1 (@moveend_redraws_the_selected_link float F64.number Sample.math
                     Sample.leaflet _ _ _
                     (Sample.flatView 20000%float {| pt_x := 0%float; pt_y := 0%float |})
                     session_runs) 0%nat eq_refl)
    as (link & a & b & towerA & towerB & s' & _ & _ & _ & Hd & He & Hs & _ & _ & _ & Hsel).
  exists s'. split; [exact Hd |]. split; [rewrite He; reflexivity |]. auto.
Defined.

(** X11 at work: after the plan, a new tower is placed and T1 retuned;
    the two towers and the link of the plan are still there, first. *)
Lemma towers_and_links_only_grow_witness :
  exists (s' : State float),
    run (Sample.planned Sample.office Sample.nearby)
        [MapClick Sample.farther; TowerClick 0 (Some (decimal 24 1))] = Done s' /\
    exists (newTowers : list (string * LatLng float))
           (newLinks : list (string * string * string)),
      map (@towerCore float) (towers s')
      = map (@towerCore float) (towers (Sample.planned Sample.office Sample.nearby))
        ++ newTowers /\
      map linkCore (links s')
      = map linkCore (links (Sample.planned Sample.office Sample.nearby)) ++ newLinks.
Proof.
  eexists. split.
  - vm_compute. reflexivity.
  - apply (@towers_and_links_only_grow float F64.number Sample.math Sample.leaflet
             [MapClick Sample.farther; TowerClick 0 (Some (decimal 24 1))]).
    vm_compute. reflexivity.
Defined.

(** X12 at work: after the sample session the ellipse is displayed, and
    it still is after a click on the map and one on a tower. *)
Lemma ellipse_and_selection_are_never_cleared_witness :
  exists (s' : State float),
    run Sample.firstSelected [MapClick Sample.office; TowerClick 0 None] = Done s' /\
    ellipseShown s' = true /\ selectedLink s' <> None.
Proof.
  eexists. split.
  - vm_compute. reflexivity.
  - destruct (@ellipse_and_selection_are_never_cleared float F64.number Sample.math
                Sample.leaflet
                [MapClick Sample.office; TowerClick 0 None] Sample.firstSelected _
                ltac:(vm_compute; reflexivity)) as [Hs Hsel].
    split; [apply Hs; reflexivity | apply Hsel; discriminate].
Defined.

(** X13 at work: a click on the link L3 of the plan. *)
Lemma viewing_never_edits_the_plan_witness :
  exists (s' : State float),
    handleLinkClick 0 (Sample.planned Sample.office Sample.nearby) = Done s' /\
    towers s' = towers (Sample.planned Sample.office Sample.nearby) /\
    nextId s' = 4%N /\ selectedLink s' = Some 0%nat.
Proof.
  eexists. split.
  - vm_compute. reflexivity.
  - destruct (proj1 (@viewing_never_edits_the_plan float F64.number Sample.math
                       Sample.leaflet
                       (Sample.planned Sample.office Sample.nearby) _) 0%nat
                ltac:(vm_compute; reflexivity))
      as (Et & _ & En & _ & Es & _).
    auto.
Defined.

End SampleViews.

(** ** binary64: division by zero and by infinity, and NaN *)

Module F64Division.

Local Open Scope float_scope.

Lemma infinity_spec : Prim2SF infinity = S754_infinity false.
Proof. reflexivity. Qed.

Lemma nan_spec : Prim2SF nan = S754_nan.
Proof. reflexivity. Qed.

(** A number above zero divided by +0 is +Infinity. *)
Lemma positive_div_zero (d : float) : PrimFloat.ltb 0 d = true -> d / 0 = infinity.
Proof.
  rewrite ltb_spec. change (Prim2SF 0) with (S754_zero false).
  intros Hd. apply Prim2SF_inj. rewrite div_spec, infinity_spec.
  change (Prim2SF 0) with (S754_zero false). unfold SF64div, SFdiv.
  destruct (Prim2SF d) as [s | s | | s m e]; cbn in Hd; try discriminate;
    destruct s; try discriminate; reflexivity.
Qed.

(** A finite number divided by +Infinity is a zero. *)
Lemma finite_div_infinity (r : float) :
  is_finite r = true -> is_zero (r / infinity) = true.
Proof.
  rewrite F64Facts.is_finite_spec. intros Hr.
  unfold is_zero. rewrite FloatAxioms.eqb_spec, div_spec, infinity_spec.
  change (Prim2SF zero) with (S754_zero false). unfold SF64div, SFdiv.
  destruct (Prim2SF r) as [s | s | | s m e]; try discriminate; reflexivity.
Qed.

Lemma mul_nan_r (x : float) : x * nan = nan.
Proof.
  apply Prim2SF_inj. rewrite mul_spec, nan_spec. unfold SF64mul, SFmul.
  destruct (Prim2SF x); reflexivity.
Qed.

Lemma mul_nan_l (x : float) : nan * x = nan.
Proof.
  apply Prim2SF_inj. rewrite mul_spec, nan_spec. unfold SF64mul, SFmul.
  destruct (Prim2SF x); reflexivity.
Qed.

End F64Division.

(** ** Degenerate renderings and arguments *)

(** X14.  On binary64, when the two towers are apart on the ground but
    project to the same pixel (the map zoomed far out), the division by
    [lengthPixels = 0] gives [metersPerPixel = Infinity] and, the Fresnel
    radius being finite, both semi-axes written are zero: [rx] is 0 and
    [ry] is a zero, not NaN. *)
Theorem far_zoom_renders_a_zero_sized_ellipse
    (M : MathLib float) (Lf : Leaflet float)
    (link : Link) (s : State float) (a b : nat) (towerA towerB : Tower float) :
  find_tower (towerAId link) s = Some (a, towerA) ->
  find_tower (towerBId link) s = Some (b, towerB) ->
  PrimFloat.ltb 0 (LatLng_distanceTo (latlng towerA) (latlng towerB)) = true ->
  Point_distanceTo (latLngToLayerPoint (view s) (latlng towerA))
                   (latLngToLayerPoint (view s) (latlng towerB)) = 0%float ->
  is_finite (calculateMaxFresnelRadius
               (frequencyGHz towerA * 1e9)%float
               (LatLng_distanceTo (latlng towerA) (latlng towerB))) = true ->
  exists (s' : State float) (e : Ellipse float),
    drawFresnelZone link s = Done s' /\
    renderedEllipse s' = Some e /\
    rx e = 0%float /\
    is_zero (ry e) = true /\ PrimFloat.is_nan (ry e) = false.
Proof.
  intros HA HB Hd Hpx Hr. eexists. eexists.
  split; [apply (RenderFacts.draw_found _ _ HA HB) |].
  split; [apply RenderFacts.rendered_after_render |].
  assert (Hz : is_zero (ry (fresnelEllipse (view s) towerA towerB)) = true).
  { unfold fresnelEllipse. cbn [ry]. rewrite Hpx.
    cbn [div mul lit F64.number].
    rewrite (F64Division.positive_div_zero Hd).
    apply F64Division.finite_div_infinity. exact Hr. }
  split; [| split; [exact Hz |]].
  - unfold fresnelEllipse. cbn [rx]. rewrite Hpx. reflexivity.
  - unfold is_zero in Hz. unfold PrimFloat.is_nan.
    rewrite FloatAxioms.eqb_spec in *.
    change (Prim2SF zero) with (S754_zero false) in Hz.
    destruct (Prim2SF (ry (fresnelEllipse (view s) towerA towerB)))
      as [sg | sg | | sg m e]; cbn in Hz;
      try discriminate; try (destruct sg; discriminate); reflexivity.
Qed.

(** X15.  On binary64 the guard of [calculateMaxFresnelRadius] does not
    catch NaN: with a NaN frequency and a distance that is not [<= 0], or
    with a NaN distance and a frequency that is not [<= 0], the result is
    NaN. *)
Theorem calculateMaxFresnelRadius_passes_NaN :
  (forall distanceMeters : float,
      PrimFloat.leb distanceMeters 0 = false ->
      calculateMaxFresnelRadius PrimFloat.nan distanceMeters = PrimFloat.nan) /\
  (forall frequencyHz : float,
      PrimFloat.leb frequencyHz 0 = false ->
      calculateMaxFresnelRadius frequencyHz PrimFloat.nan = PrimFloat.nan).
Proof.
  split.
  - intros d Hd. unfold calculateMaxFresnelRadius, SPEED_OF_LIGHT.
    cbn [leb mul div sqrt lit F64.number].
    change (PrimFloat.leb d (F64.of_Z 0)) with (PrimFloat.leb d 0). rewrite Hd.
    replace (PrimFloat.leb nan (F64.of_Z 0)) with false by reflexivity.
    cbn [orb].
    replace (PrimFloat.div (F64.of_Z 300000000) nan) with nan by reflexivity.
    rewrite F64Division.mul_nan_l. reflexivity.
  - intros f Hf. unfold calculateMaxFresnelRadius, SPEED_OF_LIGHT.
    cbn [leb mul div sqrt lit F64.number].
    change (PrimFloat.leb f (F64.of_Z 0)) with (PrimFloat.leb f 0). rewrite Hf.
    replace (PrimFloat.leb nan (F64.of_Z 0)) with false by reflexivity.
    cbn [orb]. rewrite F64Division.mul_nan_r. reflexivity.
Qed.

(** ** binary64: scaling by powers of two *)

Unset Implicit Arguments.

Module ScaleFacts.

Local Open Scope R_scope.

Import RoundFacts.

Lemma loc_unique (x : R) (m : Z) (l : location) (m' : Z) (l' : location) :
  loc_at x m l -> loc_at x m' l' -> m = m' /\ l = l'.
Proof.
  intros H H'. pose proof (loc_floor _ _ _ H) as F. pose proof (loc_floor _ _ _ H') as F'.
  assert (E : m = m').
  { destruct (Z_lt_le_dec m m') as [Hlt | Hge].
    - assert (IZR (m + 1) <= IZR m') by (apply IZR_le; lia).
      rewrite plus_IZR in *. lra.
    - destruct (Z_lt_le_dec m' m) as [Hlt | Hge']; [| lia].
      assert (IZR (m' + 1) <= IZR m) by (apply IZR_le; lia).
      rewrite plus_IZR in *. lra. }
  subst m'. split; [reflexivity |].
  destruct l as [| []], l' as [| []]; cbn in *; try reflexivity; lra.
Qed.

Lemma loc_inhabited (m : Z) (l : location) : exists x : R, loc_at x m l.
Proof.
  destruct l as [| []].
  - exists (IZR m). reflexivity.
  - exists (IZR m + / 2). reflexivity.
  - exists (IZR m + / 4). cbn. lra.
  - exists (IZR m + 3 / 4). cbn. lra.
Qed.

(** In the normal range a change of the exponent goes through the
    rounding. *)
Lemma round_aux_shift (m e k : Z) (l : location) :
  (0 <= m)%Z -> (e <= fexp prec emax (Zdigits2 m + e))%Z ->
  (-1074 < Zdigits2 m + e - 53 < 971)%Z ->
  (-1074 < Zdigits2 m + e + k - 53 < 971)%Z ->
  binary_round_aux prec emax false m (e + k) l
  = lift k (binary_round_aux prec emax false m e l).
Proof.
  intros Hm He Hn Hnk.
  destruct (loc_inhabited m l) as [x Hx].
  assert (Hq : loc_at (x * pow2 e * pow2 (- e)) m l).
  { rewrite Rmult_assoc, Pow2Facts.pow2_cancel, Rmult_1_r. exact Hx. }
  assert (Hq' : loc_at (x * pow2 (e + k) * pow2 (- (e + k))) m l).
  { rewrite Rmult_assoc, Pow2Facts.pow2_cancel, Rmult_1_r. exact Hx. }
  assert (He' : (e + k <= fexp prec emax (Zdigits2 m + (e + k)))%Z) by (fx; lia).
  destruct (round_aux_at _ m e l Hm Hq He) as (a & la & Ha & Hlow & Hla & ->).
  destruct (round_aux_at _ m (e + k) l Hm Hq' He') as (b & lb & Hb & _ & Hlb & ->).
  assert (Et : fexp prec emax (Zdigits2 m + e) = (Zdigits2 m + e - 53)%Z) by (fx; lia).
  assert (Et' : fexp prec emax (Zdigits2 m + (e + k)) = (Zdigits2 m + e - 53 + k)%Z)
    by (fx; lia).
  rewrite Et in *. rewrite Et' in *.
  set (t := (Zdigits2 m + e - 53)%Z) in *.
  assert (Hsame : x * pow2 (e + k) * pow2 (- (t + k)) = x * pow2 e * pow2 (- t)).
  { rewrite !Rmult_assoc, <- !Pow2Facts.pow2_add. f_equal. f_equal. lia. }
  rewrite Hsame in Hlb.
  destruct (loc_unique _ _ _ _ _ Hla Hlb) as [<- <-].
  pose proof (nearest_even_range a la) as Hr.
  assert (H52 : (4503599627370496 <= a)%Z) by (apply Hlow; lia).
  unfold pack.
  destruct (Z.ltb_spec (round_nearest_even a la) 9007199254740992).
  - destruct (round_nearest_even a la) as [| p | p]; try lia.
    destruct (Z.leb_spec t 971); [| lia].
    destruct (Z.leb_spec (t + k) 971); [| lia]. reflexivity.
  - destruct (Z.leb_spec (t + 1) 971); [| lia].
    destruct (Z.leb_spec (t + k + 1) 971); [| lia].
    cbn [lift]. f_equal. lia.
Qed.

(** A number that is a valid float rounds to that float. *)
Lemma round_exact (q : R) (m0 e0 : Z) (l : location) (m : positive) (e : Z) :
  (0 <= m0)%Z -> loc_at (q * pow2 (- e0)) m0 l ->
  (e0 <= fexp prec emax (Zdigits2 m0 + e0))%Z ->
  q = val m e -> SpecFloat.bounded prec emax m e = true ->
  binary_round_aux prec emax false m0 e0 l = S754_finite false m e.
Proof.
  intros Hm0 Hq He0 Eq B.
  destruct (ValueFacts.canonical m e B) as [C He].
  assert (Hme : loc_at (q * pow2 (- e)) (Z.pos m) loc_Exact).
  { cbn [loc_at]. rewrite Eq. unfold val.
    rewrite Rmult_assoc, Pow2Facts.pow2_cancel. ring. }
  pose proof (above_magnitude q (Z.pos m) e loc_Exact ltac:(lia) Hme) as A1.
  pose proof (below_magnitude q (Z.pos m) e loc_Exact ltac:(lia) Hme) as B1.
  pose proof (below_magnitude q m0 e0 l Hm0 Hq) as B0.
  assert (Hpos : (0 < m0)%Z).
  { destruct (Z.eq_dec m0 0) as [E0 | N]; [exfalso | lia]. subst m0.
    change (Zdigits2 0) with 0%Z in *.
    assert (e0 <= -1074)%Z by (fx; lia).
    assert (Zdigits2 (Z.pos m) + e - 1 < 0 + e0)%Z by (apply Pow2Facts.pow2_lt_inv; lra).
    destruct (DigitFacts.Zbounds (Z.pos m) ltac:(lia)) as [_ D].
    fx. lia. }
  pose proof (above_magnitude q m0 e0 l Hpos Hq) as A0.
  assert (Emag : (Zdigits2 m0 + e0 = Zdigits2 (Z.pos m) + e)%Z).
  { assert (Zdigits2 (Z.pos m) + e - 1 < Zdigits2 m0 + e0)%Z
      by (apply Pow2Facts.pow2_lt_inv; lra).
    assert (Zdigits2 m0 + e0 - 1 < Zdigits2 (Z.pos m) + e)%Z
      by (apply Pow2Facts.pow2_lt_inv; lra).
    lia. }
  destruct (round_aux_at q m0 e0 l Hm0 Hq He0) as (a & la & Ha & _ & Hla & ->).
  rewrite Emag in *. rewrite <- C in *.
  destruct (loc_unique _ _ _ _ _ Hla Hme) as [-> ->].
  cbn [round_nearest_even]. unfold pack.
  destruct (Z.ltb_spec (Z.pos m) 9007199254740992); [| lia].
  destruct (Z.leb_spec e 971); [reflexivity | lia].
Qed.

Lemma val_magnitude (m : positive) (e : Z) :
  pow2 (Zdigits2 (Z.pos m) + e - 1) <= val m e < pow2 (Zdigits2 (Z.pos m) + e).
Proof.
  assert (H : loc_at (val m e * pow2 (- e)) (Z.pos m) loc_Exact).
  { cbn [loc_at]. unfold val. rewrite Rmult_assoc, Pow2Facts.pow2_cancel. ring. }
  split.
  - apply (above_magnitude _ (Z.pos m) _ _ (Pos2Z.is_pos m) H).
  - apply (below_magnitude _ (Z.pos m) _ _ (Pos2Z.is_nonneg m) H).
Qed.

Lemma digits_mul (a b : positive) :
  (Zdigits2 (Z.pos a) + Zdigits2 (Z.pos b) - 1 <= Zdigits2 (Z.pos (a * b))
   <= Zdigits2 (Z.pos a) + Zdigits2 (Z.pos b))%Z.
Proof.
  destruct (DigitFacts.Zbounds (Z.pos a) ltac:(lia)) as [[La Ua] Da].
  destruct (DigitFacts.Zbounds (Z.pos b) ltac:(lia)) as [[Lb Ub] Db].
  assert (Pa : (0 < 2 ^ (Zdigits2 (Z.pos a) - 1))%Z) by (apply Z.pow_pos_nonneg; lia).
  assert (Pb : (0 < 2 ^ (Zdigits2 (Z.pos b) - 1))%Z) by (apply Z.pow_pos_nonneg; lia).
  split.
  - assert (Zdigits2 (Z.pos a) - 1 + (Zdigits2 (Z.pos b) - 1)
            < Zdigits2 (Z.pos (a * b)))%Z; [| lia].
    apply DigitFacts.gt_of_pow_le; [lia |].
    rewrite Z.pow_add_r by lia. rewrite Pos2Z.inj_mul.
    apply Z.mul_le_mono_nonneg; lia.
  - apply DigitFacts.le_of_lt_pow; [lia | lia |].
    rewrite Z.pow_add_r by lia. rewrite Pos2Z.inj_mul.
    apply Z.mul_lt_mono_nonneg; lia.
Qed.

Lemma mul_exact (ma : positive) (ea : Z) (mb : positive) (eb : Z) (m : positive) (e : Z) :
  SpecFloat.bounded prec emax ma ea = true -> SpecFloat.bounded prec emax mb eb = true ->
  SpecFloat.bounded prec emax m e = true ->
  val ma ea * val mb eb = val m e ->
  SF64mul (S754_finite false ma ea) (S754_finite false mb eb) = S754_finite false m e.
Proof.
  intros Ba Bb B E. unfold SF64mul. cbn [SFmul xorb].
  destruct (CoreFacts.mul_at ma ea mb eb Ba Bb) as [L R].
  apply (round_exact _ _ _ _ m e (Pos2Z.is_nonneg _) L R E B).
Qed.

Lemma div_exact (ma : positive) (ea : Z) (mc : positive) (ec : Z) (m : positive) (e : Z) :
  SpecFloat.bounded prec emax m e = true ->
  val ma ea / val mc ec = val m e ->
  SF64div (S754_finite false ma ea) (S754_finite false mc ec) = S754_finite false m e.
Proof.
  intros B E. unfold SF64div. cbn [SFdiv xorb].
  destruct (CoreFacts.div_at ma ea mc ec) as (mz & ez & lz & -> & Hm & L & R).
  apply (round_exact _ _ _ _ m e Hm L R E B).
Qed.

(** Exponents added to the factors come out of the product. *)
Lemma mul_lift (ma : positive) (ea : Z) (mb : positive) (eb : Z) (ka kb : Z) :
  SpecFloat.bounded prec emax ma ea = true -> SpecFloat.bounded prec emax mb eb = true ->
  (-900 <= Zdigits2 (Z.pos ma) + ea + (Zdigits2 (Z.pos mb) + eb) <= 900)%Z ->
  (-20 <= ka + kb <= 20)%Z ->
  SF64mul (S754_finite false ma (ea + ka)) (S754_finite false mb (eb + kb))
  = lift (ka + kb) (SF64mul (S754_finite false ma ea) (S754_finite false mb eb)).
Proof.
  intros Ba Bb Hy Hk. unfold SF64mul. cbn [SFmul xorb].
  destruct (CoreFacts.mul_at ma ea mb eb Ba Bb) as [_ R].
  pose proof (digits_mul ma mb) as Hd.
  replace (ea + ka + (eb + kb))%Z with (ea + eb + (ka + kb))%Z by lia.
  apply round_aux_shift; [lia | exact R | lia | lia].
Qed.

Lemma div_core_shift (ma : positive) (ea : Z) (mc : positive) (ec k : Z) :
  (-1074 <= Zdigits2 (Z.pos ma) + ea - (Zdigits2 (Z.pos mc) + ec) - 53)%Z ->
  (-1074 <= Zdigits2 (Z.pos ma) + ea - (Zdigits2 (Z.pos mc) + ec) - k - 53)%Z ->
  SFdiv_core_binary prec emax (Z.pos ma) ea (Z.pos mc) (ec + k)
  = let '(q, e', l) := SFdiv_core_binary prec emax (Z.pos ma) ea (Z.pos mc) ec in
    (q, (e' + - k)%Z, l).
Proof.
  intros H1 H2. unfold SFdiv_core_binary.
  set (d1 := Zdigits2 (Z.pos ma)) in *. set (d2 := Zdigits2 (Z.pos mc)) in *.
  set (e1 := Z.min (fexp prec emax (d1 + ea - (d2 + ec))) (ea - ec)).
  replace (Z.min (fexp prec emax (d1 + ea - (d2 + (ec + k)))) (ea - (ec + k)))
    with (e1 + - k)%Z by (unfold e1; fx; lia).
  replace (ea - (ec + k) - (e1 + - k))%Z with (ea - ec - e1)%Z by lia.
  destruct (Z.div_eucl _ _) as [q r]. reflexivity.
Qed.

Lemma quotient_magnitude (va vc : R) (A C : Z) :
  pow2 (A - 1) <= va < pow2 A -> pow2 (C - 1) <= vc < pow2 C ->
  pow2 (A - C - 1) < va / vc < pow2 (A - C + 1).
Proof.
  intros [La Ua] [Lc Uc].
  pose proof (Pow2Facts.pow2_pos (C - 1)) as Pc.
  assert (Hvc : 0 < vc) by lra.
  assert (E1 : pow2 (A - C - 1) * pow2 C = pow2 (A - 1))
    by (rewrite <- Pow2Facts.pow2_add; f_equal; lia).
  assert (E2 : pow2 (A - C + 1) * pow2 (C - 1) = pow2 A)
    by (rewrite <- Pow2Facts.pow2_add; f_equal; lia).
  pose proof (Pow2Facts.pow2_pos (A - C - 1)). pose proof (Pow2Facts.pow2_pos (A - C + 1)).
  split.
  - apply (Rmult_lt_reg_r vc); [exact Hvc |].
    replace (va / vc * vc) with va by (field; lra). nra.
  - apply (Rmult_lt_reg_r vc); [exact Hvc |].
    replace (va / vc * vc) with va by (field; lra). nra.
Qed.

(** An exponent added to the divisor comes out of the quotient. *)
Lemma div_lift (ma : positive) (ea : Z) (mc : positive) (ec k : Z) :
  (-900 <= Zdigits2 (Z.pos ma) + ea - (Zdigits2 (Z.pos mc) + ec) <= 900)%Z ->
  (-20 <= k <= 20)%Z ->
  SF64div (S754_finite false ma ea) (S754_finite false mc (ec + k))
  = lift (- k) (SF64div (S754_finite false ma ea) (S754_finite false mc ec)).
Proof.
  intros Hx Hk. unfold SF64div. cbn [SFdiv xorb].
  rewrite div_core_shift by lia.
  destruct (CoreFacts.div_at ma ea mc ec) as (mz & ez & lz & -> & Hm & L & R).
  pose proof (quotient_magnitude _ _ _ _ (val_magnitude ma ea) (val_magnitude mc ec)) as [Q1 Q2].
  pose proof (below_magnitude _ _ _ _ Hm L) as B.
  assert (Hlo : (Zdigits2 (Z.pos ma) + ea - (Zdigits2 (Z.pos mc) + ec) - 1
                 < Zdigits2 mz + ez)%Z) by (apply Pow2Facts.pow2_lt_inv; lra).
  assert (Hpos : (0 < mz)%Z).
  { destruct (Z.eq_dec mz 0) as [E0 | N]; [exfalso | lia]. subst mz.
    change (Zdigits2 0) with 0%Z in *. fx. lia. }
  pose proof (above_magnitude _ _ _ _ Hpos L) as A.
  assert (Hhi : (Zdigits2 mz + ez - 1
                 < Zdigits2 (Z.pos ma) + ea - (Zdigits2 (Z.pos mc) + ec) + 1)%Z)
    by (apply Pow2Facts.pow2_lt_inv; lra).
  apply round_aux_shift; [exact Hm | exact R | lia | lia].
Qed.

Lemma sqrt_core_shift (m : positive) (e j : Z) :
  (-1074 <= Z.div2 (Zdigits2 (Z.pos m) + e + 1) - 53)%Z ->
  (-1074 <= Z.div2 (Zdigits2 (Z.pos m) + e + 1) + j - 53)%Z ->
  SFsqrt_core_binary prec emax (Z.pos m) (e + 2 * j)
  = let '(q, e', l) := SFsqrt_core_binary prec emax (Z.pos m) e in (q, (e' + j)%Z, l).
Proof.
  intros H1 H2. unfold SFsqrt_core_binary.
  set (d := Zdigits2 (Z.pos m)) in *.
  assert (Eh : Z.div2 (d + (e + 2 * j) + 1) = (Z.div2 (d + e + 1) + j)%Z).
  { rewrite !Z.div2_div. replace (d + (e + 2 * j) + 1)%Z with (d + e + 1 + j * 2)%Z by lia.
    apply Z.div_add. lia. }
  assert (Ee : Z.div2 (e + 2 * j) = (Z.div2 e + j)%Z).
  { rewrite !Z.div2_div. replace (e + 2 * j)%Z with (e + j * 2)%Z by lia.
    apply Z.div_add. lia. }
  rewrite Eh, Ee.
  set (e1 := Z.min (fexp prec emax (Z.div2 (d + e + 1))) (Z.div2 e)).
  replace (Z.min (fexp prec emax (Z.div2 (d + e + 1) + j)) (Z.div2 e + j))
    with (e1 + j)%Z by (unfold e1; fx; lia).
  replace (e + 2 * j - 2 * (e1 + j))%Z with (e - 2 * e1)%Z by lia.
  destruct (Z.sqrtrem _) as [q r]. reflexivity.
Qed.

(** Twice an exponent added under the root comes out once. *)
Lemma sqrt_lift (m : positive) (e j : Z) :
  (-1800 <= Zdigits2 (Z.pos m) + e <= 1800)%Z -> (-20 <= j <= 20)%Z ->
  SF64sqrt (S754_finite false m (e + 2 * j)) = lift j (SF64sqrt (S754_finite false m e)).
Proof.
  intros Hx Hj. unfold SF64sqrt. cbn [SFsqrt].
  pose proof (Z.div2_odd (Zdigits2 (Z.pos m) + e + 1)) as Hh.
  assert (Hh' : (-901 <= Z.div2 (Zdigits2 (Z.pos m) + e + 1) <= 901)%Z)
    by (destruct (Z.odd _); cbn [Z.b2z] in Hh; lia).
  rewrite sqrt_core_shift by lia.
  destruct (CoreFacts.sqrt_at m e) as (mz & ez & lz & -> & Hm & L & R).
  destruct (val_magnitude m e) as [V1 V2].
  pose proof (ValueFacts.above_zero m e) as Vp.
  pose proof (sqrt_sqrt (val m e) ltac:(lra)) as Hsq.
  pose proof (sqrt_lt_R0 (val m e) Vp) as Hrp.
  set (root := R_sqrt.sqrt (val m e)) in *.
  pose proof (below_magnitude _ _ _ _ Hm L) as B.
  assert (Hlo : (Zdigits2 (Z.pos m) + e - 1 < 2 * (Zdigits2 mz + ez))%Z).
  { apply Pow2Facts.pow2_lt_inv.
    replace (2 * (Zdigits2 mz + ez))%Z with (Zdigits2 mz + ez + (Zdigits2 mz + ez))%Z by lia.
    rewrite Pow2Facts.pow2_add. nra. }
  assert (Hpos : (0 < mz)%Z).
  { destruct (Z.eq_dec mz 0) as [E0 | N]; [exfalso | lia]. subst mz.
    change (Zdigits2 0) with 0%Z in *. fx. lia. }
  pose proof (above_magnitude _ _ _ _ Hpos L) as A.
  assert (Hhi : (2 * (Zdigits2 mz + ez - 1) < Zdigits2 (Z.pos m) + e)%Z).
  { apply Pow2Facts.pow2_lt_inv.
    replace (2 * (Zdigits2 mz + ez - 1))%Z
      with (Zdigits2 mz + ez - 1 + (Zdigits2 mz + ez - 1))%Z by lia.
    rewrite Pow2Facts.pow2_add.
    pose proof (Pow2Facts.pow2_pos (Zdigits2 mz + ez - 1)). nra. }
  apply round_aux_shift; [exact Hm | exact R | lia | lia].
Qed.

End ScaleFacts.

Module F64Scale.

Import RoundFacts.

Lemma bounded_normal (m : positive) (e : Z) :
  Zdigits2 (Z.pos m) = 53%Z -> (-1074 <= e <= 971)%Z ->
  SpecFloat.bounded prec emax m e = true.
Proof.
  intros Hd He. unfold SpecFloat.bounded, canonical_mantissa.
  cbn [Zdigits2] in Hd. rewrite Hd.
  apply andb_true_intro. split; [apply Z.eqb_eq | apply Z.leb_le]; fx; lia.
Qed.

Lemma val_lift (m : positive) (e k : Z) : (val m (e + k) = val m e * pow2 k)%R.
Proof. unfold val. rewrite Pow2Facts.pow2_add. ring. Qed.

Lemma val_power (e : Z) : val 4503599627370496 e = pow2 (52 + e).
Proof.
  unfold val. change (Z.pos 4503599627370496) with (2 ^ 52)%Z.
  rewrite <- Pow2Facts.pow2_of_Z by lia. rewrite Pow2Facts.pow2_add. reflexivity.
Qed.

(** Multiplying and dividing a normal float by a power of two moves its
    exponent. *)
Lemma mul_power (m : positive) (e k : Z) :
  Zdigits2 (Z.pos m) = 53%Z -> (-1074 <= e <= 971)%Z -> (-1074 <= e + k <= 971)%Z ->
  (-1074 <= k - 52 <= 971)%Z ->
  SF64mul (S754_finite false 4503599627370496 (k - 52)) (S754_finite false m e)
  = S754_finite false m (e + k).
Proof.
  intros Hd He Hek Hk.
  apply ScaleFacts.mul_exact; try (apply bounded_normal; [assumption || reflexivity | lia]).
  rewrite val_power, val_lift. replace (52 + (k - 52))%Z with k by lia.
  apply Rmult_comm.
Qed.

Lemma div_power (m : positive) (e k : Z) :
  Zdigits2 (Z.pos m) = 53%Z -> (-1074 <= e - k <= 971)%Z ->
  SF64div (S754_finite false m e) (S754_finite false 4503599627370496 (k - 52))
  = S754_finite false m (e - k).
Proof.
  intros Hd Hek.
  apply ScaleFacts.div_exact; [apply bounded_normal; assumption |].
  rewrite val_power. replace (52 + (k - 52))%Z with k by lia.
  replace (e - k)%Z with (e + - k)%Z by lia.
  rewrite val_lift, Pow2Facts.pow2_opp. reflexivity.
Qed.

(** A float between two normal floats above zero is one. *)
Lemma between_view (x lo hi : float) (mlo : positive) (elo : Z) (mhi : positive) (ehi : Z) :
  Prim2SF lo = S754_finite false mlo elo -> Prim2SF hi = S754_finite false mhi ehi ->
  (-1074 < elo)%Z ->
  PrimFloat.leb lo x = true -> PrimFloat.leb x hi = true ->
  exists (m : positive) (e : Z),
    Prim2SF x = S754_finite false m e /\
    SpecFloat.bounded prec emax m e = true /\
    Zdigits2 (Z.pos m) = 53%Z /\ (elo <= e <= ehi)%Z.
Proof.
  intros Elo Ehi Hn Hl Hh. rewrite leb_spec in Hl, Hh. rewrite Elo in Hl. rewrite Ehi in Hh.
  pose proof (Prim2SF_valid x) as Hv.
  destruct (Prim2SF x) as [s | s | | s m e]; cbn in Hl, Hh; try discriminate.
  - destruct s; discriminate.
  - destruct s; [discriminate |]. cbn [valid_binary] in Hv.
    exists m, e. split; [reflexivity |]. split; [exact Hv |].
    destruct (ValueFacts.canonical m e Hv) as [C He].
    unfold SFleb, SFcompare in Hl, Hh.
    assert (elo <= e)%Z.
    { destruct (Z.compare_spec elo e); try lia; try discriminate. }
    assert (e <= ehi)%Z.
    { destruct (Z.compare_spec e ehi); try lia; try discriminate. }
    split; [fx; lia | lia].
Qed.

End F64Scale.

(** X16.  On binary64, for a frequency from 1 Hz to 2^60 Hz and a distance
    from 2^-20 m to 2^60 m, the square-root law holds to the last bit: four
    times the distance gives exactly twice the radius, and four times the
    frequency gives exactly half the radius. *)
Theorem calculateMaxFresnelRadius_scaling (frequencyHz distanceMeters : float) :
  PrimFloat.leb 1 frequencyHz = true -> PrimFloat.leb frequencyHz 0x1p+60 = true ->
  PrimFloat.leb 0x1p-20 distanceMeters = true ->
  PrimFloat.leb distanceMeters 0x1p+60 = true ->
  calculateMaxFresnelRadius frequencyHz (4 * distanceMeters)%float
  = (2 * calculateMaxFresnelRadius frequencyHz distanceMeters)%float /\
  calculateMaxFresnelRadius (4 * frequencyHz)%float distanceMeters
  = (calculateMaxFresnelRadius frequencyHz distanceMeters / 2)%float.
Proof.
  intros F1 F2 D1 D2.
  destruct (F64Scale.between_view frequencyHz 1 0x1p+60
              4503599627370496 (-52) 4503599627370496 8 eq_refl eq_refl
              ltac:(lia) F1 F2) as (mf & ef & Ef & Bf & Df & Rf).
  destruct (F64Scale.between_view distanceMeters 0x1p-20 0x1p+60
              4503599627370496 (-72) 4503599627370496 8 eq_refl eq_refl
              ltac:(lia) D1 D2) as (md & ed & Ed & Bd & Dd & Rd).
  assert (Hf : PrimFloat.ltb 0 frequencyHz = true)
    by (apply (F64Order.above_zero_le 1 frequencyHz); [reflexivity | exact F1]).
  assert (Hd : PrimFloat.ltb 0 distanceMeters = true)
    by (apply (F64Order.above_zero_le 0x1p-20 distanceMeters); [reflexivity | exact D1]).
  assert (Ffin : is_finite frequencyHz = true)
    by (rewrite F64Facts.is_finite_spec, Ef; reflexivity).
  (* four times the arguments *)
  assert (E4d : Prim2SF (4 * distanceMeters) = S754_finite false md (ed + 2)%Z).
  { rewrite mul_spec, Ed. apply (F64Scale.mul_power md ed 2 Dd); lia. }
  assert (E4f : Prim2SF (4 * frequencyHz) = S754_finite false mf (ef + 2)%Z).
  { rewrite mul_spec, Ef. apply (F64Scale.mul_power mf ef 2 Df); lia. }
  assert (H4d : PrimFloat.ltb 0 (4 * distanceMeters) = true)
    by (rewrite ltb_spec, E4d; reflexivity).
  assert (H4f : PrimFloat.ltb 0 (4 * frequencyHz) = true)
    by (rewrite ltb_spec, E4f; reflexivity).
  rewrite (F64Radius.of_positive _ _ Hf Hd), (F64Radius.of_positive _ _ Hf H4d),
    (F64Radius.of_positive _ _ H4f Hd).
  (* the wavelength *)
  set (w := (300000000 / frequencyHz)%float).
  assert (Wlo : PrimFloat.leb (300000000 / 0x1p+60) w = true).
  { apply (F64Order.div_mono 300000000 300000000 0x1p+60 frequencyHz);
      try assumption; reflexivity. }
  assert (Whi : PrimFloat.leb w (300000000 / 1) = true).
  { apply (F64Order.div_mono 300000000 300000000 frequencyHz 1);
      try assumption; reflexivity. }
  destruct (F64Scale.between_view w (300000000 / 0x1p+60) (300000000 / 1)
              5033164800000000 (-84) 5033164800000000 (-24) eq_refl eq_refl
              ltac:(lia) Wlo Whi)
    as (mw & ew & Ew & Bw & Dw & Rw).
  assert (Hw : PrimFloat.ltb 0 w = true)
    by (apply (F64Order.above_zero_le (300000000 / 0x1p+60) w); [reflexivity | exact Wlo]).
  (* the product *)
  set (p := (w * distanceMeters)%float).
  assert (Plo : PrimFloat.leb (300000000 / 0x1p+60 * 0x1p-20) p = true).
  { apply F64Order.mul_mono; try assumption; reflexivity. }
  assert (Phi : PrimFloat.leb p (300000000 / 1 * 0x1p+60) = true).
  { apply F64Order.mul_mono; assumption. }
  destruct (F64Scale.between_view p (300000000 / 0x1p+60 * 0x1p-20)
              (300000000 / 1 * 0x1p+60)
              5033164800000000 (-104) 5033164800000000 36 eq_refl eq_refl
              ltac:(lia) Plo Phi)
    as (mp & ep & Ep & Bp & Dp & Rp).
  assert (Ep' : SF64mul (S754_finite false mw ew) (S754_finite false md ed) = S754_finite false mp ep).
  { rewrite <- Ew, <- Ed, <- mul_spec. exact Ep. }
  (* the radius *)
  set (r := PrimFloat.sqrt (p / 4)).
  assert (Rlo : PrimFloat.leb (PrimFloat.sqrt (300000000 / 0x1p+60 * 0x1p-20 / 4)) r = true).
  { apply F64Radius.radius_mono; try assumption; reflexivity. }
  assert (Rhi : PrimFloat.leb r (PrimFloat.sqrt (300000000 / 1 * 0x1p+60 / 4)) = true).
  { apply F64Radius.radius_mono; assumption. }
  destruct (F64Scale.between_view r
              (PrimFloat.sqrt (300000000 / 0x1p+60 * 0x1p-20 / 4))
              (PrimFloat.sqrt (300000000 / 1 * 0x1p+60 / 4))
              4761025007051979 (-79) 4761025007051979 (-9) eq_refl eq_refl
              ltac:(lia) Rlo Rhi)
    as (mr & er & Er & Br & Dr & Rr).
  assert (Es : Prim2SF (p / 4) = S754_finite false mp (ep - 2)%Z).
  { rewrite div_spec, Ep. apply (F64Scale.div_power mp ep 2 Dp). lia. }
  assert (Er' : SF64sqrt (S754_finite false mp (ep - 2)%Z) = S754_finite false mr er).
  { rewrite <- Es, <- sqrt_spec. exact Er. }
  split.
  - (* four times the distance *)
    apply Prim2SF_inj.
    assert (Ep4 : Prim2SF (w * (4 * distanceMeters)) = S754_finite false mp (ep + 2)%Z).
    { rewrite mul_spec, Ew, E4d.
      replace (S754_finite false mw ew) with (S754_finite false mw (ew + 0)%Z) by (f_equal; lia).
      rewrite ScaleFacts.mul_lift; try assumption; try lia.
      rewrite Ep'. reflexivity. }
    assert (Es4 : Prim2SF (w * (4 * distanceMeters) / 4) = S754_finite false mp (ep - 2 + 2 * 1)%Z).
    { rewrite div_spec, Ep4.
      replace (ep - 2 + 2 * 1)%Z with (ep + 2 - 2)%Z by lia.
      apply (F64Scale.div_power mp (ep + 2) 2 Dp). lia. }
    rewrite sqrt_spec, Es4. rewrite ScaleFacts.sqrt_lift by lia.
    rewrite Er'.
    rewrite mul_spec, Er. symmetry. apply (F64Scale.mul_power mr er 1 Dr); lia.
  - (* four times the frequency *)
    apply Prim2SF_inj.
    assert (Ew4 : Prim2SF (300000000 / (4 * frequencyHz)) = S754_finite false mw (ew + - 2)%Z).
    { rewrite div_spec, E4f.
      change (Prim2SF 300000000) with (S754_finite false 5033164800000000 (-24)).
      rewrite ScaleFacts.div_lift.
      - change (S754_finite false 5033164800000000 (-24)) with (Prim2SF 300000000).
        rewrite <- Ef, <- div_spec. fold w. rewrite Ew. reflexivity.
      - change (Zdigits2 (Z.pos 5033164800000000)) with 53%Z. lia.
      - lia. }
    assert (Ep4 : Prim2SF (300000000 / (4 * frequencyHz) * distanceMeters)
                  = S754_finite false mp (ep + (- 2 + 0))%Z).
    { rewrite mul_spec, Ew4, Ed.
      replace (S754_finite false md ed) with (S754_finite false md (ed + 0)%Z) by (f_equal; lia).
      rewrite ScaleFacts.mul_lift; try assumption; try lia.
      rewrite Ep'. reflexivity. }
    assert (Es4 : Prim2SF (300000000 / (4 * frequencyHz) * distanceMeters / 4)
                  = S754_finite false mp (ep - 4)%Z).
    { rewrite div_spec, Ep4.
      replace (ep - 4)%Z with (ep + (- 2 + 0) - 2)%Z by lia.
      apply (F64Scale.div_power mp (ep + (- 2 + 0)) 2 Dp). lia. }
    rewrite sqrt_spec, Es4.
    assert (Eroot : SF64sqrt (S754_finite false mp (ep - 4)%Z) = S754_finite false mr (er - 1)%Z).
    { pose proof (ScaleFacts.sqrt_lift mp (ep - 4) 1 ltac:(lia) ltac:(lia)) as Hl.
      replace (ep - 4 + 2 * 1)%Z with (ep - 2)%Z in Hl by lia.
      rewrite Er' in Hl. destruct (SF64sqrt (S754_finite false mp (ep - 4))) as [s | s | | s m e];
        cbn [lift] in Hl; try discriminate.
      injection Hl as -> -> He. f_equal. lia. }
    rewrite Eroot.
    rewrite div_spec, Er. symmetry. apply (F64Scale.div_power mr er 1 Dr). lia.
Qed.

Set Implicit Arguments.

Section SampleDegenerate.

Local Existing Instance Sample.math.
Local Existing Instance Sample.leaflet.

(** X14 at work: the planned towers, some 550 m apart, under a view that
    puts the whole map on one pixel. *)
Lemma far_zoom_renders_a_zero_sized_ellipse_witness :
  exists (s' : State float) (e : Ellipse float),
    drawFresnelZone Sample.linkL3
      (with_view (Sample.flatView 0%float {| pt_x := 0%float; pt_y := 0%float |})
                 (Sample.planned Sample.office Sample.nearby)) = Done s' /\
    renderedEllipse s' = Some e /\
    rx e = 0%float /\
    is_zero (ry e) = true /\ PrimFloat.is_nan (ry e) = false.
Proof.
  apply (@far_zoom_renders_a_zero_sized_ellipse Sample.math Sample.leaflet
           Sample.linkL3
           (with_view (Sample.flatView 0%float {| pt_x := 0%float; pt_y := 0%float |})
                      (Sample.planned Sample.office Sample.nearby))
           0%nat 1%nat (Sample.towerT1 Sample.office) (Sample.towerT2 Sample.nearby));
    reflexivity.
Defined.

(** X15 at work: a NaN frequency over 1000 m, and 5.8e9 Hz over a NaN
    distance. *)
Lemma calculateMaxFresnelRadius_passes_NaN_witness :
  calculateMaxFresnelRadius PrimFloat.nan 1000%float = PrimFloat.nan /\
  calculateMaxFresnelRadius 5.8e9%float PrimFloat.nan = PrimFloat.nan.
Proof.
  split.
  - apply (proj1 calculateMaxFresnelRadius_passes_NaN). reflexivity.
  - apply (proj2 calculateMaxFresnelRadius_passes_NaN). reflexivity.
Defined.

(** X16 at work: at 5.8e9 Hz, 4000 m need twice the radius of 1000 m;
    at 23.2e9 Hz, 1000 m need half the radius they need at 5.8e9 Hz. *)
Lemma calculateMaxFresnelRadius_scaling_witness :
  calculateMaxFresnelRadius 5.8e9%float (4 * 1000)%float
  = (2 * calculateMaxFresnelRadius 5.8e9 1000)%float /\
  calculateMaxFresnelRadius (4 * 5.8e9)%float 1000%float
  = (calculateMaxFresnelRadius 5.8e9 1000 / 2)%float.
Proof.
  apply (@calculateMaxFresnelRadius_scaling 5.8e9%float 1000%float); reflexivity.
Defined.

End SampleDegenerate.

(** ** binary64: the shape under a change of view *)

Unset Implicit Arguments.

Module AccuracyFacts.

Local Open Scope R_scope.

Import RoundFacts.

Lemma nearest_even_close (x : R) (m : Z) (l : location) :
  loc_at x m l -> Rabs (IZR (round_nearest_even m l) - x) <= / 2.
Proof.
  intros H. apply Rabs_le.
  destruct l as [| []]; cbn in *; try destruct (Z.even m);
    rewrite ?plus_IZR; change (IZR 1) with 1; lra.
Qed.

(** In the normal range the rounded number is within [2^-53] of the
    number, relatively. *)
Lemma round_aux_close (q : R) (m e : Z) (l : location) :
  (0 <= m)%Z -> loc_at (q * pow2 (- e)) m l ->
  (e <= fexp prec emax (Zdigits2 m + e))%Z ->
  (-1074 < Zdigits2 m + e - 53 < 971)%Z ->
  exists (mm : positive) (ee : Z),
    binary_round_aux prec emax false m e l = S754_finite false mm ee /\
    Zdigits2 (Z.pos mm) = 53%Z /\
    (Zdigits2 m + e - 53 <= ee <= Zdigits2 m + e - 52)%Z /\
    Rabs (val mm ee - q) <= pow2 (-53) * q.
Proof.
  intros Hm Hq He Hn.
  destruct (round_aux_at q m e l Hm Hq He) as (a & la & Ha & Hlow & Hla & ->).
  assert (Et : fexp prec emax (Zdigits2 m + e) = (Zdigits2 m + e - 53)%Z) by (fx; lia).
  rewrite Et in *. set (t := (Zdigits2 m + e - 53)%Z) in *.
  assert (H52 : (4503599627370496 <= a)%Z) by (apply Hlow; lia).
  pose proof (nearest_even_range a la) as Hr.
  pose proof (nearest_even_close _ _ _ Hla) as Hc.
  pose proof (loc_floor _ _ _ Hla) as Hfl.
  set (m1 := round_nearest_even a la) in *.
  pose proof (Pow2Facts.pow2_pos t) as Pt.
  assert (Hqt : q = q * pow2 (- t) * pow2 t) by apply scale.
  assert (Ha52 : pow2 52 <= IZR a).
  { rewrite Pow2Facts.pow2_of_Z by lia. apply IZR_le. exact H52. }
  assert (Herr : Rabs (IZR m1 * pow2 t - q) <= pow2 (-53) * q).
  { set (x := q * pow2 (- t)) in *.
    replace (IZR m1 * pow2 t - q) with ((IZR m1 - x) * pow2 t) by (rewrite Hqt at 1; ring).
    rewrite Rabs_mult, (Rabs_pos_eq (pow2 t)) by lra.
    assert (E53 : pow2 (-53) * pow2 52 = / 2).
    { rewrite <- Pow2Facts.pow2_add. change (-53 + 52)%Z with (-1)%Z.
      apply Pow2Facts.pow2_half. }
    pose proof (Pow2Facts.pow2_pos (-53)) as P53.
    assert (Hx : pow2 52 <= x) by lra.
    rewrite Hqt. fold x.
    assert (/ 2 <= pow2 (-53) * x) by nra.
    assert (Rabs (IZR m1 - x) * pow2 t <= / 2 * pow2 t)
      by (apply Rmult_le_compat_r; lra).
    nra. }
  unfold pack. fold m1.
  destruct (Z.ltb_spec m1 9007199254740992) as [Hlt | Hge].
  - destruct m1 as [| p | p] eqn:E1; try lia.
    destruct (Z.leb_spec t 971); [| lia].
    exists p, t. split; [reflexivity |].
    split.
    { assert (52 < Zdigits2 (Z.pos p))%Z
        by (apply DigitFacts.gt_of_pow_le; lia).
      assert (Zdigits2 (Z.pos p) <= 53)%Z
        by (apply DigitFacts.le_of_lt_pow; lia).
      lia. }
    split; [lia |]. exact Herr.
  - assert (E1 : m1 = 9007199254740992%Z) by lia.
    destruct (Z.leb_spec (t + 1) 971); [| lia].
    exists 4503599627370496%positive, (t + 1)%Z. split; [reflexivity |].
    split; [reflexivity |]. split; [lia |].
    replace (val 4503599627370496 (t + 1)) with (IZR m1 * pow2 t); [exact Herr |].
    rewrite E1. unfold val. rewrite Pow2Facts.pow2_add, Pow2Facts.pow2_one.
    change (IZR 9007199254740992) with (IZR (2 * 4503599627370496)).
    rewrite mult_IZR. ring.
Qed.

(** The quotient of two normal floats, when it is in the normal range, is
    within [2^-53] of the quotient of the numbers. *)
Lemma div_close (ma : positive) (ea : Z) (mc : positive) (ec : Z) :
  (-900 <= Zdigits2 (Z.pos ma) + ea - (Zdigits2 (Z.pos mc) + ec) <= 900)%Z ->
  exists (mm : positive) (ee : Z),
    SF64div (S754_finite false ma ea) (S754_finite false mc ec)
    = S754_finite false mm ee /\
    Zdigits2 (Z.pos mm) = 53%Z /\
    (Zdigits2 (Z.pos ma) + ea - (Zdigits2 (Z.pos mc) + ec) - 53 <= ee
     <= Zdigits2 (Z.pos ma) + ea - (Zdigits2 (Z.pos mc) + ec) - 51)%Z /\
    Rabs (val mm ee - val ma ea / val mc ec) <= pow2 (-53) * (val ma ea / val mc ec).
Proof.
  intros Hx. unfold SF64div. cbn [SFdiv xorb].
  destruct (CoreFacts.div_at ma ea mc ec) as (mz & ez & lz & -> & Hm & L & R).
  pose proof (ScaleFacts.quotient_magnitude _ _ _ _
                (ScaleFacts.val_magnitude ma ea) (ScaleFacts.val_magnitude mc ec))
    as [Q1 Q2].
  pose proof (below_magnitude _ _ _ _ Hm L) as B.
  assert (Hlo : (Zdigits2 (Z.pos ma) + ea - (Zdigits2 (Z.pos mc) + ec) - 1
                 < Zdigits2 mz + ez)%Z) by (apply Pow2Facts.pow2_lt_inv; lra).
  assert (Hpos : (0 < mz)%Z).
  { destruct (Z.eq_dec mz 0) as [E0 | N]; [exfalso | lia]. subst mz.
    change (Zdigits2 0) with 0%Z in *. fx. lia. }
  pose proof (above_magnitude _ _ _ _ Hpos L) as A.
  assert (Hhi : (Zdigits2 mz + ez - 1
                 < Zdigits2 (Z.pos ma) + ea - (Zdigits2 (Z.pos mc) + ec) + 1)%Z)
    by (apply Pow2Facts.pow2_lt_inv; lra).
  destruct (round_aux_close _ mz ez lz Hm L R ltac:(lia)) as (mm & ee & E & D & He & Hc).
  exists mm, ee. split; [exact E |]. split; [exact D |]. split; [lia | exact Hc].
Qed.

Lemma abs_le_inv (x y : R) : Rabs x <= y -> - y <= x <= y.
Proof. unfold Rabs. destruct (Rcase_abs x); lra. Qed.

(** Two divisions in a row: [r / (d / l)] against [r * l / d]. *)
Lemma two_quotients (A vr vu vy eps : R) :
  0 < A -> 0 < vr -> 0 < eps <= / 4 ->
  Rabs (vu - A) <= eps * A ->
  Rabs (vy - vr / vu) <= eps * (vr / vu) ->
  Rabs (vy - vr / A) <= 4 * eps * (vr / A).
Proof.
  intros HA Hr [He0 He4] Hu Hy.
  apply abs_le_inv in Hu. apply abs_le_inv in Hy.
  assert (Hvu : 0 < vu) by nra.
  set (T := vr / A). set (B := vr / vu) in *.
  assert (HT : T * A = vr) by (unfold T; field; lra).
  assert (HB : B * vu = vr) by (unfold B; field; lra).
  assert (HTp : 0 < T) by (unfold T; apply Rdiv_lt_0_compat; assumption).
  assert (HBp : 0 < B) by (unfold B; apply Rdiv_lt_0_compat; assumption).
  (* B between T/(1+eps) and T/(1-eps) *)
  assert (B1 : B * (1 - eps) <= T).
  { apply (Rmult_le_reg_r A); [exact HA |]. rewrite HT, <- HB. nra. }
  assert (B2 : T <= B * (1 + eps)).
  { apply (Rmult_le_reg_r A); [exact HA |]. rewrite HT, <- HB. nra. }
  apply Rabs_le. split; nra.
Qed.

End AccuracyFacts.

Module F64Accuracy.

Lemma toR_finite (x : float) (m : positive) (e : Z) :
  Prim2SF x = S754_finite false m e -> toR x = val m e.
Proof. intros E. unfold toR. rewrite E. reflexivity. Qed.

(** The radius of a frequency between 2^-20 GHz and 2^20 GHz over a
    distance between 2^-20 m and 2^60 m is a normal float. *)
Lemma radius_view (frequencyGHz distanceMeters : float) :
  PrimFloat.leb 0x1p-20 frequencyGHz = true -> PrimFloat.leb frequencyGHz 0x1p+20 = true ->
  PrimFloat.leb 0x1p-20 distanceMeters = true ->
  PrimFloat.leb distanceMeters 0x1p+60 = true ->
  exists (m : positive) (e : Z),
    Prim2SF (calculateMaxFresnelRadius (frequencyGHz * 1e9)%float distanceMeters)
    = S754_finite false m e /\
    Zdigits2 (Z.pos m) = 53%Z /\ (-74 <= e <= -14)%Z.
Proof.
  intros F1 F2 D1 D2.
  assert (Hg : PrimFloat.ltb 0 frequencyGHz = true)
    by (apply (F64Order.above_zero_le 0x1p-20); [reflexivity | exact F1]).
  assert (Hd : PrimFloat.ltb 0 distanceMeters = true)
    by (apply (F64Order.above_zero_le 0x1p-20); [reflexivity | exact D1]).
  set (f := (frequencyGHz * 1e9)%float).
  assert (Flo : PrimFloat.leb (0x1p-20 * 1e9) f = true).
  { apply F64Order.mul_mono; try assumption; reflexivity. }
  assert (Fhi : PrimFloat.leb f (0x1p+20 * 1e9) = true).
  { apply F64Order.mul_mono; try assumption; reflexivity. }
  destruct (F64Scale.between_view f (0x1p-20 * 1e9) (0x1p+20 * 1e9)
              8388608000000000 (-43) 8388608000000000 (-3) eq_refl eq_refl
              ltac:(lia) Flo Fhi) as (mf & ef & Ef & Bf & Df & Rf).
  assert (Hf : PrimFloat.ltb 0 f = true)
    by (apply (F64Order.above_zero_le (0x1p-20 * 1e9)); [reflexivity | exact Flo]).
  assert (Ffin : is_finite f = true)
    by (rewrite F64Facts.is_finite_spec, Ef; reflexivity).
  rewrite (F64Radius.of_positive f distanceMeters Hf Hd).
  assert (Wlo : PrimFloat.leb (300000000 / (0x1p+20 * 1e9)) (300000000 / f) = true).
  { apply (F64Order.div_mono 300000000 300000000 (0x1p+20 * 1e9) f);
      try assumption; reflexivity. }
  assert (Whi : PrimFloat.leb (300000000 / f) (300000000 / (0x1p-20 * 1e9)) = true).
  { apply (F64Order.div_mono 300000000 300000000 f (0x1p-20 * 1e9));
      try assumption; reflexivity. }
  assert (Hw : PrimFloat.ltb 0 (300000000 / f) = true)
    by (apply (F64Order.above_zero_le (300000000 / (0x1p+20 * 1e9)));
        [reflexivity | exact Wlo]).
  assert (Rlo : PrimFloat.leb
                  (PrimFloat.sqrt (300000000 / (0x1p+20 * 1e9) * 0x1p-20 / 4))
                  (PrimFloat.sqrt (300000000 / f * distanceMeters / 4)) = true).
  { apply F64Radius.radius_mono; try assumption; reflexivity. }
  assert (Rhi : PrimFloat.leb
                  (PrimFloat.sqrt (300000000 / f * distanceMeters / 4))
                  (PrimFloat.sqrt (300000000 / (0x1p-20 * 1e9) * 0x1p+60 / 4)) = true).
  { apply F64Radius.radius_mono; assumption. }
  destruct (F64Scale.between_view
              (PrimFloat.sqrt (300000000 / f * distanceMeters / 4))
              (PrimFloat.sqrt (300000000 / (0x1p+20 * 1e9) * 0x1p-20 / 4))
              (PrimFloat.sqrt (300000000 / (0x1p-20 * 1e9) * 0x1p+60 / 4))
              4933446211765362 (-74) 4933446211765362 (-14) eq_refl eq_refl
              ltac:(lia) Rlo Rhi) as (m & e & E & _ & D & R).
  exists m, e. auto.
Qed.

End F64Accuracy.

(** X17.  On binary64, for every Leaflet and every view: when the two
    towers of the link are found, the frequency is between 2^-20 GHz and
    2^20 GHz, the distance between 2^-20 m and 2^60 m and the length in
    pixels between 2^-300 and 2^300, the ellipse written has [rx > 0] and
    its ratio [ry / rx] is [2 * maxFresnelRadius / distanceMeters] to
    within 2^-51, relatively.  The view enters the ratio through rounding
    only: the ellipse is drawn to the scale of the map. *)
Theorem shape_is_to_scale_in_every_view
    (M : MathLib float) (Lf : Leaflet float)
    (link : Link) (s : State float) (a b : nat) (towerA towerB : Tower float) :
  find_tower (towerAId link) s = Some (a, towerA) ->
  find_tower (towerBId link) s = Some (b, towerB) ->
  let distanceMeters := LatLng_distanceTo (latlng towerA) (latlng towerB) in
  let lengthPixels :=
    Point_distanceTo (latLngToLayerPoint (view s) (latlng towerA))
                     (latLngToLayerPoint (view s) (latlng towerB)) in
  let maxFresnelRadius :=
    calculateMaxFresnelRadius (frequencyGHz towerA * 1e9)%float distanceMeters in
  PrimFloat.leb 0x1p-20 (frequencyGHz towerA) = true ->
  PrimFloat.leb (frequencyGHz towerA) 0x1p+20 = true ->
  PrimFloat.leb 0x1p-20 distanceMeters = true ->
  PrimFloat.leb distanceMeters 0x1p+60 = true ->
  PrimFloat.leb 0x1p-300 lengthPixels = true ->
  PrimFloat.leb lengthPixels 0x1p+300 = true ->
  exists (s' : State float) (e : Ellipse float),
    drawFresnelZone link s = Done s' /\
    renderedEllipse s' = Some e /\
    (0 < toR (rx e))%R /\
    (Rabs (toR (ry e) / toR (rx e) - 2 * toR maxFresnelRadius / toR distanceMeters)
     <= pow2 (-51) * (2 * toR maxFresnelRadius / toR distanceMeters))%R.
Proof.
  intros HA HB d l r F1 F2 D1 D2 L1 L2.
  eexists. eexists.
  split; [apply (RenderFacts.draw_found link s (a := a) (b := b) HA HB) |].
  split; [apply RenderFacts.rendered_after_render |].
  unfold fresnelEllipse. cbn [rx ry].
  change (LatLng_distanceTo (latlng towerA) (latlng towerB)) with d.
  change (Point_distanceTo (latLngToLayerPoint (view s) (latlng towerA))
            (latLngToLayerPoint (view s) (latlng towerB))) with l.
  change (calculateMaxFresnelRadius (frequencyGHz towerA * lit 1000000000)%js d) with r.
  change (l / lit 2)%js with (l / 2)%float.
  change (r / (d / l))%js with (r / (d / l))%float.
  destruct (F64Accuracy.radius_view _ _ F1 F2 D1 D2) as (mr & er & Er & Dr & Rr).
  fold d r in Er.
  destruct (F64Scale.between_view d 0x1p-20 0x1p+60
              4503599627370496 (-72) 4503599627370496 8 eq_refl eq_refl
              ltac:(lia) D1 D2) as (md & ed & Ed & _ & Dd & Rd).
  destruct (F64Scale.between_view l 0x1p-300 0x1p+300
              4503599627370496 (-352) 4503599627370496 248 eq_refl eq_refl
              ltac:(lia) L1 L2) as (ml & el & El & _ & Dl & Rl).
  (* meters per pixel, and the radius in pixels *)
  destruct (AccuracyFacts.div_close md ed ml el ltac:(lia)) as (mu & eu & Eu & Du & Ru & Cu).
  destruct (AccuracyFacts.div_close mr er mu eu ltac:(lia)) as (my & ey & Ey & Dy & Ry & Cy).
  assert (Ery : Prim2SF (r / (d / l)) = S754_finite false my ey).
  { rewrite !div_spec, Er, Ed, El, Eu. exact Ey. }
  assert (Erx : Prim2SF (l / 2) = S754_finite false ml (el - 1)).
  { rewrite div_spec, El. apply (F64Scale.div_power ml el 1 Dl). lia. }
  rewrite (F64Accuracy.toR_finite _ _ _ Ery), (F64Accuracy.toR_finite _ _ _ Erx),
    (F64Accuracy.toR_finite _ _ _ Er), (F64Accuracy.toR_finite _ _ _ Ed).
  pose proof (ValueFacts.above_zero md ed) as Pd.
  pose proof (ValueFacts.above_zero ml el) as Pl.
  pose proof (ValueFacts.above_zero mr er) as Pr.
  assert (Ehalf : val ml (el - 1) = (val ml el / 2)%R).
  { replace (el - 1)%Z with (el + -1)%Z by lia.
    rewrite F64Scale.val_lift, Pow2Facts.pow2_half. reflexivity. }
  rewrite Ehalf. split; [lra |].
  assert (Heps : (0 < pow2 (-53) <= / 4)%R).
  { split; [apply Pow2Facts.pow2_pos |].
    replace (/ 4)%R with (pow2 (-2)).
    - apply Pow2Facts.pow2_le. lia.
    - unfold pow2, powerRZ. simpl. lra. }
  assert (HA' : (0 < val md ed / val ml el)%R) by (apply Rdiv_lt_0_compat; assumption).
  pose proof (AccuracyFacts.two_quotients _ _ _ _ _ HA' Pr Heps Cu Cy) as Hq.
  assert (E51 : pow2 (-51) = (4 * pow2 (-53))%R).
  { replace (-51)%Z with (2 + -53)%Z by lia. rewrite Pow2Facts.pow2_add.
    f_equal. unfold pow2, powerRZ. simpl. lra. }
  rewrite E51.
  set (vy := val my ey) in *. set (vr := val mr er) in *.
  set (vd := val md ed) in *. set (vl := val ml el) in *.
  replace (vy / (vl / 2) - 2 * vr / vd)%R
    with (2 / vl * (vy - vr / (vd / vl)))%R by (field; lra).
  rewrite Rabs_mult, Rabs_pos_eq
    by (apply Rlt_le, Rdiv_lt_0_compat; lra).
  replace (4 * pow2 (-53) * (2 * vr / vd))%R
    with (2 / vl * (4 * pow2 (-53) * (vr / (vd / vl))))%R by (field; lra).
  apply Rmult_le_compat_l; [| exact Hq].
  apply Rlt_le, Rdiv_lt_0_compat; lra.
Qed.

Set Implicit Arguments.

Section SampleShape.

Local Existing Instance Sample.math.
Local Existing Instance Sample.leaflet.

(** X17 at work: the planned link at 10000 pixels to the degree. *)
Lemma shape_is_to_scale_in_every_view_witness :
  exists (s' : State float) (e : Ellipse float),
    drawFresnelZone Sample.linkL3 (Sample.planned Sample.office Sample.nearby) = Done s' /\
    renderedEllipse s' = Some e /\
    (0 < toR (rx e))%R /\
    (Rabs (toR (ry e) / toR (rx e)
           - 2 * toR (calculateMaxFresnelRadius
                        (frequencyGHz (Sample.towerT1 Sample.office) * 1e9)%float
                        (Sample.flatDistance Sample.office Sample.nearby))
             / toR (Sample.flatDistance Sample.office Sample.nearby))
     <= pow2 (-51)
        * (2 * toR (calculateMaxFresnelRadius
                      (frequencyGHz (Sample.towerT1 Sample.office) * 1e9)%float
                      (Sample.flatDistance Sample.office Sample.nearby))
           / toR (Sample.flatDistance Sample.office Sample.nearby)))%R.
Proof.
  apply (@shape_is_to_scale_in_every_view Sample.math Sample.leaflet
           Sample.linkL3 (Sample.planned Sample.office Sample.nearby)
           0%nat 1%nat (Sample.towerT1 Sample.office) (Sample.towerT2 Sample.nearby));
    reflexivity.
Defined.

End SampleShape.

(** ** Tile layers *)

Module TileFacts.

Lemma removeLayer_only (layer : TileLayer) : removeLayer layer [layer] = [].
Proof. unfold removeLayer. cbn. rewrite N.eqb_refl. reflexivity. Qed.

Lemma pressed_snoc (keys : list StyleKey) (k : StyleKey) :
  pressed (keys ++ [k]) = changeTileLayer k (pressed keys).
Proof. unfold pressed. rewrite fold_left_app. reflexivity. Qed.

End TileFacts.

(** X18.  However many times and in whatever order the three style
    buttons are pressed after the page has loaded, the map carries exactly
    one tile layer, it is [currentTileLayer], it has the url and the
    attribution of the last key pressed (of ['bw'] when none was), and one
    layer object has been created per call. *)
Theorem one_tile_layer_of_the_last_style (keys : list StyleKey) :
  exists layer : TileLayer,
    currentTileLayer (pressed keys) = Some layer /\
    onMap (pressed keys) = [layer] /\
    layer_url layer = url (TILE_CONFIGS (last keys bw)) /\
    layer_attribution layer = attribution (TILE_CONFIGS (last keys bw)) /\
    created (pressed keys) = N.of_nat (S (List.length keys)).
Proof.
  induction keys as [| k keys IH] using rev_ind.
  - eexists. repeat split.
  - destruct IH as (layer & Hc & Hm & _ & _ & Hn).
    rewrite TileFacts.pressed_snoc, last_last, length_app.
    unfold changeTileLayer. rewrite Hc, Hm, TileFacts.removeLayer_only, Hn.
    eexists. cbn [currentTileLayer onMap created layer_url layer_attribution app].
    repeat split. cbn [List.length]. lia.
Qed.
